(** * setup_table_shard.js: the sharding set-up script, embedded and verified

    The script is a linear orchestration over the administrative API of a
    sharded MongoDB cluster.  Its methods are embedded as computations in a
    small monad that threads the cluster (an abstract world answered by a
    handler), the [results] tally of the [ShardingManager], JavaScript
    exceptions, and the sequence of events the script emits: the
    administrative calls, the logger lines, the busy waits and
    [process.exit].  The cluster itself is a parameter: every theorem of the
    general part holds for every handler. *)

From Stdlib Require Import String Ascii ZArith List Bool Lia DecimalString Permutation.
Import ListNotations.

Local Open Scope string_scope.
Local Open Scope list_scope.

(** ** JavaScript strings and [JSON.stringify] *)

(** Strings are byte strings holding the UTF-8 form of the script's text.
    [String.prototype.includes] with an ASCII needle gives the same answer
    on the UTF-8 bytes as on the UTF-16 code units. *)

Infix "+:+" := String.append (at level 60, right associativity).

Definition dquote : string := String (ascii_of_nat 34) EmptyString.
Definition newline : string := String (ascii_of_nat 10) EmptyString.

Fixpoint includes (s needle : string) : bool :=
  if String.prefix needle s then true
  else match s with
       | EmptyString => false
       | String _ s' => includes s' needle
       end.

Fixpoint join (sep : string) (l : list string) : string :=
  match l with
  | [] => ""
  | [x] => x
  | x :: t => x +:+ sep +:+ join sep t
  end.

Fixpoint repeat_string (s : string) (n : nat) : string :=
  match n with
  | O => ""
  | S n' => s +:+ repeat_string s n'
  end.

(** Integers print as JavaScript prints integral numbers of moderate size. *)
Definition string_of_Z (z : Z) : string := NilZero.string_of_int (Z.to_int z).
Definition string_of_nat (n : nat) : string := string_of_Z (Z.of_nat n).

(** The scalar values that occur in key patterns, index options and split
    points.  Numbers are the integral ones (directions 1 and -1, loop
    counters). *)
Inductive JsVal :=
| JNum (n : Z)
| JStr (s : string)
| JBool (b : bool).

(** A flat object literal, in property order. Field names are identifiers,
    so property order is insertion order. *)
Definition JsObject := list (string * JsVal).

Definition hex_digit (n : nat) : string :=
  String (nth n (list_ascii_of_string "0123456789abcdef") "0"%char) EmptyString.

Definition json_escape_char (c : ascii) : string :=
  let n := nat_of_ascii c in
  if Nat.eqb n 34 then "\" +:+ dquote
  else if Nat.eqb n 92 then "\\"
  else if Nat.eqb n 8 then "\b"
  else if Nat.eqb n 9 then "\t"
  else if Nat.eqb n 10 then "\n"
  else if Nat.eqb n 12 then "\f"
  else if Nat.eqb n 13 then "\r"
  else if Nat.ltb n 32 then "\u00" +:+ hex_digit (n / 16) +:+ hex_digit (n mod 16)
  else String c EmptyString.

Fixpoint json_escape (s : string) : string :=
  match s with
  | EmptyString => ""
  | String c s' => json_escape_char c +:+ json_escape s'
  end.

Definition json_string (s : string) : string := dquote +:+ json_escape s +:+ dquote.

Definition json_value (v : JsVal) : string :=
  match v with
  | JNum n => string_of_Z n
  | JStr s => json_string s
  | JBool true => "true"
  | JBool false => "false"
  end.

(** [JSON.stringify] on a flat object. *)
Definition JSON_stringify (o : JsObject) : string :=
  "{" +:+ join "," (map (fun kv => json_string (fst kv) +:+ ":" +:+ json_value (snd kv)) o) +:+ "}".

(** Assignment to a property: an existing property keeps its place. *)
Fixpoint set_property (k : string) (v : JsVal) (o : JsObject) : JsObject :=
  match o with
  | [] => [(k, v)]
  | (k', v') :: o' => if String.eqb k' k then (k, v) :: o' else (k', v') :: set_property k v o'
  end.

(** ** Configuration (the [CONFIG] object) *)

Record IndexConfig := {
  key : JsObject;
  indexOptions : JsObject
}.

Record CollConfig := {
  name : string;
  description : string;
  shardKey : JsObject;
  indexes : option (list IndexConfig)
}.

Record Sharding := {
  initialChunks : Z;
  chunkSizeMB : Z;
  enableBalancer : bool
}.

Record Options := {
  skipExistingSharded : bool;
  backgroundIndex : bool;
  validateResults_opt : bool;
  dryRun : bool
}.

Record Config := {
  connectionString : string;
  database : string;
  collections : list CollConfig;
  sharding : Sharding;
  options : Options
}.

Definition idx (k : JsObject) (o : JsObject) : IndexConfig :=
  {| key := k; indexOptions := o |}.

Definition named (n : string) : JsObject := [("name", JStr n)].
Definition unique_named (n : string) : JsObject := [("unique", JBool true); ("name", JStr n)].
Definition asc (f : string) : JsObject := [(f, JNum 1)].

Definition CONFIG : Config := {|
  connectionString := "";
  database := "xsdk_v2_test";
  collections := [
    {| name := "ug_user";
       description := "用户表";
       shardKey := [("name", JStr "hashed")];
       indexes := Some [
         idx [("name", JStr "hashed")] (unique_named "idx_name");
         idx (asc "id") (named "idx_id");
         idx (asc "appID") (named "idx_appID");
         idx (asc "phoneNum") (named "idx_phoneNum");
         idx (asc "lastLoginTime") (named "idx_lastLoginTime");
         idx (asc "createTime") (named "idx_createTime");
         idx (asc "accountType") (named "idx_accountType");
         idx (asc "idCard") (named "idx_idCard") ] |};
    {| name := "ug_id_card";
       description := "身份证表";
       shardKey := asc "idCard";
       indexes := Some [ idx (asc "idCard") (unique_named "idx_idCard") ] |};
    {| name := "ug_device";
       description := "设备表";
       shardKey := [("appID", JNum 1); ("deviceID", JNum 1)];
       indexes := Some [
         idx [("appID", JNum 1); ("deviceID", JNum 1)] (unique_named "idx_deviceID");
         idx (asc "oaid") (named "idx_oaid");
         idx (asc "imei") (named "idx_imei");
         idx (asc "idfa") (named "idx_idfa");
         idx (asc "createTime") (named "idx_createTime") ] |};
    {| name := "ug_order_notify_log";
       description := "订单通知日志表";
       shardKey := asc "orderID";
       indexes := Some [ idx (asc "orderID") (named "idx_orderID") ] |};
    {| name := "ug_order_platform_log";
       description := "订单平台日志表";
       shardKey := asc "orderID";
       indexes := Some [ idx (asc "orderID") (named "idx_orderID") ] |};
    {| name := "ug_game_user";
       description := "游戏用户表";
       shardKey := asc "uid";
       indexes := Some [
         idx (asc "uid") (named "idx_uid");
         idx (asc "appID") (named "idx_appID");
         idx (asc "name") (named "idx_name");
         idx (asc "lastLoginTime") (named "idx_lastLoginTime");
         idx (asc "accountType") (named "idx_accountType") ] |};
    {| name := "ug_order";
       description := "订单表";
       shardKey := asc "uid";
       indexes := Some [
         idx (asc "uid") (named "idx_uid");
         idx (asc "id") (named "idx_id");
         idx (asc "platformOrderID") (named "idx_platformOrderID");
         idx (asc "appID") (named "idx_appID");
         idx (asc "payType") (named "idx_payType");
         idx (asc "roleID") (named "idx_roleID");
         idx (asc "serverID") (named "idx_serverID");
         idx (asc "createTime") (named "idx_createTime");
         idx [("uid", JNum 1); ("createTime", JNum (-1))] (named "idx_uid_createTime");
         idx [("appID", JNum 1); ("createTime", JNum (-1))] (named "idx_appID_createTime") ] |};
    {| name := "ug_login_log";
       description := "登录日志表";
       shardKey := asc "userID";
       indexes := Some [
         idx (asc "userID") (named "idx_userID");
         idx (asc "appID") (named "idx_appID");
         idx (asc "loginTime") (named "idx_loginTime") ] |}
  ];
  sharding := {| initialChunks := 8; chunkSizeMB := 64; enableBalancer := true |};
  options := {| skipExistingSharded := true;
                backgroundIndex := true;
                validateResults_opt := true;
                dryRun := false |}
|}.

(** ** The administrative API and its replies *)

(** The calls the script makes on [db], [sh] and the [config] database. *)
Inductive call :=
| RunCommandHello
| RunCommandConnectionStatus
| AdminCommandUsersInfo (user db : string)
| EnableSharding (database : string)
| Use (database : string)
| GetCollectionNames
| CreateCollection (name : string)
| CollectionsFindOne (id : string)
| GetIndexes (coll : string)
| CreateIndex (coll : string) (key : JsObject) (options : JsObject)
| ShardCollection (ns : string) (key : JsObject)
| ChunksCountDocuments (ns : string)
| SplitFind (ns : string) (query : JsObject)
| ChunksFind (ns : string)
| Stats (coll : string).

(** The calls that change the cluster. *)
Definition is_mutating (c : call) : bool :=
  match c with
  | EnableSharding _ | CreateCollection _ | CreateIndex _ _ _
  | ShardCollection _ _ | SplitFind _ _ => true
  | _ => false
  end.

Record HelloReply := { msg : option string }.
Record AuthUser := { user : string; db : string }.
Record Role := { role : string }.
Record UserInfo := { roles : list Role }.

(** The result document of an [sh] helper, by the two observations the
    script makes of it: [result.ok === 1] and [JSON.stringify(result)]. *)
Record CmdResult := { ok_is_1 : bool; result_json : string }.

(** A document of [config.collections]; [collection_key] is its [key]. *)
Record CollectionsDoc := { collection_key : option JsObject }.

Record IndexDoc := {
  index_key : JsObject;
  index_name : string;
  index_options : JsObject
}.

Record ChunkDoc := { shard : string }.

Record CollStats := {
  sharded : bool;
  count : Z;
  size : Z;
  shards : option (list (string * Z))
}.

Definition reply (c : call) : Type :=
  match c with
  | RunCommandHello => HelloReply
  | RunCommandConnectionStatus => list AuthUser
  | AdminCommandUsersInfo _ _ => list UserInfo
  | EnableSharding _ => CmdResult
  | Use _ => unit
  | GetCollectionNames => list string
  | CreateCollection _ => unit
  | CollectionsFindOne _ => option CollectionsDoc
  | GetIndexes _ => list IndexDoc
  | CreateIndex _ _ _ => unit
  | ShardCollection _ _ => CmdResult
  | ChunksCountDocuments _ => Z
  | SplitFind _ _ => unit
  | ChunksFind _ => list ChunkDoc
  | Stats _ => CollStats
  end.

(** A thrown [Error]. *)
Record Error := { message : string }.

(** The [Logger] methods, without the wall-clock stamp they print. *)
Inductive logline :=
| LogInfo (m : string)
| LogSuccess (m : string)
| LogWarning (m : string)
| LogError (m : string)
| LogSection (title : string)
| LogDivider.

Inductive event :=
| Called (c : call)
| Logged (l : logline)
| Slept (ms : Z)
| Exited (code : Z).

(** The [results] object of the [ShardingManager]. *)
Record Failure := { collection : string; failure_error : string }.

Record Results := {
  success : list string;
  skipped : list string;
  failed : list Failure
}.

Definition no_results : Results := {| success := []; skipped := []; failed := [] |}.

Definition add_success (n : string) (r : Results) : Results :=
  {| success := success r ++ [n]; skipped := skipped r; failed := failed r |}.

Definition add_skipped (n : string) (r : Results) : Results :=
  {| success := success r; skipped := skipped r ++ [n]; failed := failed r |}.

Definition add_failed (f : Failure) (r : Results) : Results :=
  {| success := success r; skipped := skipped r; failed := failed r ++ [f] |}.

(** The collections a tally records, list by list. *)
Definition recorded (r : Results) : list string :=
  success r ++ skipped r ++ map collection (failed r).

(** ** The script monad *)

Section Script.

(** The cluster and the shell around it: an abstract world. *)
Variable W : Type.

(** What the world provides: the answer (a reply or a thrown [Error]) and
    the effect of each call, and the text of the observations that involve
    the wall clock, the locale or floating-point formatting.
    [inheritedText name] is the text of [Object.prototype[name]] when a
    plain object inherits [name] as a method ([constructor], [toString],
    ...), and [None] for every other name; how a built-in function prints
    is up to the engine. *)
Record Env := {
  handle : forall c : call, W -> (Error + reply c) * W;
  toISOString : W -> string;
  getElapsedTime : W -> string;
  formatBytes : Z -> string;
  toLocaleString : Z -> string;
  percentage : Z -> Z -> string;
  inheritedText : string -> option string
}.

Variable env : Env.

Record State := { world : W; results : Results }.

Record Run (A : Type) := mkRun {
  value : Error + A;
  final : State;
  emitted : list event
}.
Arguments mkRun {A}.
Arguments value {A}.
Arguments final {A}.
Arguments emitted {A}.

Definition M (A : Type) : Type := State -> Run A.

Definition ret {A} (a : A) : M A :=
  fun st => mkRun (inr a) st [].

Definition throw {A} (e : Error) : M A :=
  fun st => mkRun (inl e) st [].

Definition bind {A B} (m : M A) (f : A -> M B) : M B :=
  fun st =>
    let r := m st in
    match value r with
    | inl e => mkRun (inl e) (final r) (emitted r)
    | inr a => let r' := f a (final r) in
               mkRun (value r') (final r') (emitted r ++ emitted r')
    end.

(** [try { m } catch (error) { h error }] *)
Definition try_catch {A} (m : M A) (h : Error -> M A) : M A :=
  fun st =>
    let r := m st in
    match value r with
    | inl e => let r' := h e (final r) in
               mkRun (value r') (final r') (emitted r ++ emitted r')
    | inr a => r
    end.

Definition invoke (c : call) : M (reply c) :=
  fun st =>
    let r := handle env c (world st) in
    mkRun (fst r) {| world := snd r; results := results st |} [Called c].

Definition emit (e : event) : M unit :=
  fun st => mkRun (inr tt) st [e].

Definition observe {A} (f : W -> A) : M A :=
  fun st => mkRun (inr (f (world st))) st [].

Definition update_results (f : Results -> Results) : M unit :=
  fun st => mkRun (inr tt) {| world := world st; results := f (results st) |} [].

Definition get_results : M Results :=
  fun st => mkRun (inr (results st)) st [].

End Script.

Arguments mkRun {W A}.
Arguments value {W A}.
Arguments final {W A}.
Arguments emitted {W A}.
Arguments world {W}.
Arguments results {W}.
Arguments ret {W A}.
Arguments throw {W A}.
Arguments bind {W A B}.
Arguments try_catch {W A}.
Arguments invoke {W}.
Arguments emit {W}.
Arguments observe {W A}.
Arguments update_results {W}.
Arguments get_results {W}.
Arguments handle {W}.
Arguments toISOString {W}.
Arguments getElapsedTime {W}.
Arguments formatBytes {W}.
Arguments toLocaleString {W}.
Arguments percentage {W}.
Arguments inheritedText {W}.

Declare Scope script_scope.
Delimit Scope script_scope with script.
Notation "x <- m ;; k" := (bind m (fun x => k))
  (at level 100, m at next level, right associativity) : script_scope.
Notation "m ;; k" := (bind m (fun _ => k))
  (at level 100, right associativity) : script_scope.

(** ** The [Logger] and the loops *)

Section Control.

Context {W : Type}.

Definition logger_info (m : string) : M W unit := emit (Logged (LogInfo m)).
Definition logger_success (m : string) : M W unit := emit (Logged (LogSuccess m)).
Definition logger_warning (m : string) : M W unit := emit (Logged (LogWarning m)).
Definition logger_error (m : string) : M W unit := emit (Logged (LogError m)).
Definition logger_section (title : string) : M W unit := emit (Logged (LogSection title)).
Definition logger_divider : M W unit := emit (Logged LogDivider).

(** [sleep(ms)]: a busy wait on the clock. *)
Definition sleep (ms : Z) : M W unit := emit (Slept ms).

Definition when (b : bool) (m : M W unit) : M W unit :=
  if b then m else ret tt.

(** [for (const x of l) { f x }] and [l.forEach(f)] *)
Fixpoint forEach {A} (f : A -> M W unit) (l : list A) : M W unit :=
  match l with
  | [] => ret tt
  | x :: t => (f x ;; forEach f t)%script
  end.

(** [for (const [i, x] of l.entries()) { f i x }], from position [i] on *)
Fixpoint forEntries {A} (f : nat -> A -> M W unit) (i : nat) (l : list A) : M W unit :=
  match l with
  | [] => ret tt
  | x :: t => (f i x ;; forEntries f (S i) t)%script
  end.

End Control.

(** ** The [ShardingManager] *)

(** How one turn of the split loop ends. *)
Inductive turn :=
| Next (created : Z)
| Break (created : Z).

(** The split point of turn [i]: [{appID: i, deviceID: "split_point_" + i}]. *)
Definition split_point (i : Z) : JsObject :=
  [("appID", JNum i); ("deviceID", JStr ("split_point_" +:+ string_of_Z i))].

(** [existingIndexes.some(existing => JSON.stringify(existing.key) === JSON.stringify(k))] *)
Definition index_exists (existingIndexes : list IndexDoc) (k : JsObject) : bool :=
  existsb (fun existing => String.eqb (JSON_stringify (index_key existing)) (JSON_stringify k))
          existingIndexes.

(** [(v || 0) + 1] for the value [v] of an own property: a number is
    incremented; text, when it is not empty, gets ["1"] appended. *)
Definition or_zero_plus_one (v : JsVal) : JsVal :=
  match v with
  | JNum n => JNum ((if Z.eqb n 0 then 0 else n) + 1)
  | JStr t => if String.eqb t "" then JNum 1 else JStr (t +:+ "1")
  | JBool true => JNum 2
  | JBool false => JNum 1
  end.

(** [chunksByShard[chunk.shard] = (chunksByShard[chunk.shard] || 0) + 1] on
    the own properties of the plain object [chunksByShard], kept in the
    order of their creation.  A name that is not an own property is read
    from [Object.prototype]: [__proto__] reads as an object, so that the
    text of an object is assigned to [__proto__], which its setter ignores;
    a method reads as a function, and [inherited] gives its text, to which
    ["1"] is appended; any other name reads as [undefined]. *)
Fixpoint tally (inherited : string -> option string) (shardName : string)
         (chunksByShard : JsObject) : JsObject :=
  match chunksByShard with
  | [] =>
      if String.eqb shardName "__proto__" then []
      else [(shardName, match inherited shardName with
                        | Some text => JStr (text +:+ "1")
                        | None => JNum 1
                        end)]
  | (k, v) :: o' =>
      if String.eqb k shardName
      then (k, or_zero_plus_one v) :: o'
      else (k, v) :: tally inherited shardName o'
  end.

(** The array indexes among the property names: the canonical numerals of
    0, ..., 2^32 - 2. *)
Definition array_index (s : string) : option Z :=
  match NilZero.int_of_string s with
  | Some d =>
      let n := Z.of_int d in
      if String.eqb (string_of_Z n) s && Z.leb 0 n && Z.ltb n 4294967295
      then Some n else None
  | None => None
  end.

Fixpoint place (n : Z) (p : string * JsVal) (sorted : list (Z * (string * JsVal)))
  : list (Z * (string * JsVal)) :=
  match sorted with
  | [] => [(n, p)]
  | (m, q) :: rest => if Z.ltb n m then (n, p) :: sorted else (m, q) :: place n p rest
  end.

Fixpoint index_properties (o : JsObject) : list (Z * (string * JsVal)) :=
  match o with
  | [] => []
  | p :: o' =>
      match array_index (fst p) with
      | Some n => place n p (index_properties o')
      | None => index_properties o'
      end
  end.

Definition name_properties (o : JsObject) : JsObject :=
  filter (fun p => match array_index (fst p) with Some _ => false | None => true end) o.

(** The own properties of a plain object in the order in which
    [JSON.stringify] and [Object.keys] visit them: the array indexes in
    ascending order, then the other names in the order of their creation. *)
Definition own_properties (o : JsObject) : JsObject := map snd (index_properties o) ++ name_properties o.

Definition undefined_or (o : option string) : string :=
  match o with
  | Some s => s
  | None => "undefined"
  end.

Section Manager.

Context {W : Type}.
Variable env : Env W.

(** [this.config] and [this.logger.verbose] *)
Variable config : Config.
Variable verbose : bool.

Local Open Scope script_scope.

Definition fullNameOf (collConfig : CollConfig) : string :=
  database config +:+ "." +:+ name collConfig.

(** Step 1 *)
Definition validateConnection : M W unit :=
  logger_info "验证 MongoDB 连接和权限..." ;;
  try_catch
    (hello <- invoke env RunCommandHello ;;
     when (negb (match msg hello with Some m => String.eqb m "isdbgrid" | None => false end))
          (logger_warning ("可能未连接到 mongos，当前连接类型: " +:+ undefined_or (msg hello))) ;;
     authenticatedUsers <- invoke env RunCommandConnectionStatus ;;
     match authenticatedUsers with
     | user0 :: _ =>
         logger_success ("已连接用户: " +:+ user user0 +:+ "@" +:+ db user0) ;;
         users <- invoke env (AdminCommandUsersInfo (user user0) (db user0)) ;;
         match users with
         | u0 :: _ =>
             let hasShardPerm :=
               existsb (fun r => String.eqb (role r) "clusterAdmin"
                                 || String.eqb (role r) "clusterManager") (roles u0) in
             when (negb hasShardPerm) (logger_warning "用户可能缺少分片管理权限")
         | [] => throw {| message := "Cannot read properties of undefined (reading 'roles')" |}
         end
     | [] => ret tt
     end ;;
     logger_success "连接验证通过")
    (fun error => throw {| message := "连接验证失败: " +:+ message error |}).

(** Step 2 *)
Definition enableDatabaseSharding : M W unit :=
  logger_info ("启用数据库分片: " +:+ database config) ;;
  if dryRun (options config) then
    logger_info "[试运行] 跳过实际执行"
  else
    try_catch
      (result <- invoke env (EnableSharding (database config)) ;;
       if ok_is_1 result then logger_success "数据库分片启用成功"
       else throw {| message := "启用失败: " +:+ result_json result |})
      (fun error =>
         if includes (message error) "already enabled"
         then logger_info "数据库分片已启用"
         else throw error).

Definition checkCollectionExists (collectionName : string) : M W bool :=
  collectionNames <- invoke env GetCollectionNames ;;
  ret (existsb (String.eqb collectionName) collectionNames).

(** [collConfig && collConfig.key], as its truth value *)
Definition checkIfSharded (fullCollectionName : string) : M W bool :=
  collConfig <- invoke env (CollectionsFindOne fullCollectionName) ;;
  ret (match collConfig with
       | Some d => match collection_key d with Some _ => true | None => false end
       | None => false
       end).

Definition createIndex_turn (collConfig : CollConfig) (existingIndexes : list IndexDoc)
           (i : nat) (idxConfig : IndexConfig) : M W unit :=
  if index_exists existingIndexes (key idxConfig) then
    logger_info ("  索引 " +:+ string_of_nat (i + 1) +:+ ". "
                 +:+ JSON_stringify (key idxConfig) +:+ " (已存在)")
  else if dryRun (options config) then
    logger_info ("  [试运行] 创建索引: " +:+ JSON_stringify (key idxConfig))
  else
    try_catch
      (let options' := set_property "background" (JBool (backgroundIndex (options config)))
                                    (indexOptions idxConfig) in
       invoke env (CreateIndex (name collConfig) (key idxConfig) options') ;;
       logger_success ("  索引 " +:+ string_of_nat (i + 1) +:+ ". "
                       +:+ JSON_stringify (key idxConfig) +:+ " 创建成功") ;;
       when (backgroundIndex (options config)) (sleep 100))
      (fun error =>
         logger_warning ("  索引 " +:+ string_of_nat (i + 1) +:+ ". "
                         +:+ JSON_stringify (key idxConfig) +:+ " 创建失败: " +:+ message error)).

Definition createIndexes (collConfig : CollConfig) : M W unit :=
  match indexes collConfig with
  | None | Some [] => ret tt
  | Some idxs =>
      logger_info ("创建业务索引 (" +:+ string_of_nat (length idxs) +:+ " 个)") ;;
      existingIndexes <- invoke env (GetIndexes (name collConfig)) ;;
      forEntries (createIndex_turn collConfig existingIndexes) 0 idxs
  end.

Definition createShardKeyIndex (collConfig : CollConfig) : M W unit :=
  logger_info ("创建分片键索引（_id 哈希）: " +:+ JSON_stringify (shardKey collConfig)) ;;
  existingIndexes <- invoke env (GetIndexes (name collConfig)) ;;
  if index_exists existingIndexes (shardKey collConfig) then
    logger_info "  分片键索引已存在"
  else if dryRun (options config) then
    logger_info "  [试运行] 创建 _id 哈希索引"
  else
    try_catch
      (invoke env (CreateIndex (name collConfig) (shardKey collConfig)
                               [("background", JBool (backgroundIndex (options config)))]) ;;
       logger_success "  _id 哈希索引创建成功" ;;
       when (backgroundIndex (options config))
            (logger_info "  等待 _id 哈希索引创建完成..." ;; sleep 3000))
      (fun error => throw {| message := "创建 _id 哈希索引失败: " +:+ message error |}).

Definition enableCollectionSharding (collConfig : CollConfig) : M W unit :=
  let fullName := fullNameOf collConfig in
  logger_info "启用表分片" ;;
  logger_info ("  分片键: " +:+ JSON_stringify (shardKey collConfig)) ;;
  if dryRun (options config) then
    logger_info ("  [试运行] 启用分片: " +:+ fullName)
  else
    try_catch
      (result <- invoke env (ShardCollection fullName (shardKey collConfig)) ;;
       if ok_is_1 result then logger_success "  分片启用成功"
       else throw {| message := "分片失败: " +:+ result_json result |})
      (fun error =>
         if includes (message error) "already sharded" then logger_info "  表已分片"
         else if includes (message error) "create an index" then
           logger_warning "  分片失败: 需要先创建索引" ;; throw error
         else throw error).

(** One turn of [for (let i = 0; i < chunksNeeded; i++)]. *)
Definition split_turn (fullName : string) (chunksNeeded i created : Z) : M W turn :=
  try_catch
    (invoke env (SplitFind fullName (split_point i)) ;;
     logger_info ("    分割 " +:+ string_of_Z (created + 1) +:+ "/"
                  +:+ string_of_Z chunksNeeded +:+ " 完成") ;;
     sleep 50 ;;
     ret (Next (created + 1)))
    (fun error =>
       if includes (message error) "chunk is too small" then
         logger_info "    分块太小，停止分割" ;; ret (Break created)
       else
         logger_warning ("    分割 " +:+ string_of_Z (i + 1) +:+ " 失败: " +:+ message error) ;;
         ret (Next created)).

(** The loop with [turns] turns left, at counter [i]; it returns [created]. *)
Fixpoint split_loop (fullName : string) (chunksNeeded : Z) (turns : nat) (i created : Z)
  : M W Z :=
  match turns with
  | O => ret created
  | S turns' =>
      t <- split_turn fullName chunksNeeded i created ;;
      match t with
      | Break created' => ret created'
      | Next created' => split_loop fullName chunksNeeded turns' (i + 1) created'
      end
  end.

Definition preSplitChunks (collConfig : CollConfig) : M W unit :=
  let fullName := fullNameOf collConfig in
  logger_info ("预先分割分块 (目标: " +:+ string_of_Z (initialChunks (sharding config)) +:+ " 个)") ;;
  if dryRun (options config) then
    logger_info "  [试运行] 分割分块"
  else
    currentChunks <- invoke env (ChunksCountDocuments fullName) ;;
    if Z.geb currentChunks (initialChunks (sharding config)) then
      logger_info ("  当前已有 " +:+ string_of_Z currentChunks +:+ " 个分块，满足要求")
    else
      let chunksNeeded := (initialChunks (sharding config) - currentChunks)%Z in
      logger_info ("  需要创建 " +:+ string_of_Z chunksNeeded +:+ " 个新分块") ;;
      created <- split_loop fullName chunksNeeded (Z.to_nat chunksNeeded) 0 0 ;;
      when (Z.gtb created 0)
           (logger_success ("  成功分割 " +:+ string_of_Z created +:+ " 个分块")).

(** [this.results.success.push], [.skipped.push] and [.failed.push] *)
Definition push_success (n : string) : M W unit := update_results (add_success n).
Definition push_skipped (n : string) : M W unit := update_results (add_skipped n).
Definition push_failed (f : Failure) : M W unit := update_results (add_failed f).

(** The first statements of the [try] block of [processCollection]: the
    collection is looked up, and created when it is not there. *)
Definition processCollection_exists (collConfig : CollConfig) : M W unit :=
  invoke env (Use (database config)) ;;
  collectionExists <- checkCollectionExists (name collConfig) ;;
  when (negb collectionExists)
       (logger_warning ("表 " +:+ name collConfig +:+ " 不存在，将创建") ;;
        when (negb (dryRun (options config)))
             (invoke env (CreateCollection (name collConfig)) ;;
              logger_success "表创建成功")).

(** The [try] block of [processCollection]. *)
Definition processCollection_try (collConfig : CollConfig) : M W unit :=
  let fullName := fullNameOf collConfig in
  processCollection_exists collConfig ;;
  isAlreadySharded <- checkIfSharded fullName ;;
  if isAlreadySharded && skipExistingSharded (options config) then
    logger_info "表已分片，跳过" ;;
    push_skipped (name collConfig)
  else
    createIndexes collConfig ;;
    createShardKeyIndex collConfig ;;
    enableCollectionSharding collConfig ;;
    preSplitChunks collConfig ;;
    push_success (name collConfig) ;;
    logger_success ("表 " +:+ name collConfig +:+ " 处理完成").

(** Step 3 *)
Definition processCollection (collConfig : CollConfig) : M W unit :=
  logger_divider ;;
  logger_info ("处理表: " +:+ name collConfig +:+ " (" +:+ description collConfig +:+ ")") ;;
  try_catch
    (processCollection_try collConfig)
    (fun error =>
       logger_error ("处理表 " +:+ name collConfig +:+ " 失败: " +:+ message error) ;;
       push_failed {| collection := name collConfig; failure_error := message error |}).

Definition validateIndexes (collConfig : CollConfig) : M W unit :=
  invoke env (Use (database config)) ;;
  indexes <- invoke env (GetIndexes (name collConfig)) ;;
  logger_info ("索引总数: " +:+ string_of_nat (length indexes)) ;;
  (if index_exists indexes (shardKey collConfig)
   then logger_success "  分片键索引: 存在 ✅"
   else logger_error "  分片键索引: 缺失 ❌") ;;
  when verbose
       (forEntries (fun i idx =>
                      logger_info ("  " +:+ string_of_nat (i + 1) +:+ ". " +:+ index_name idx
                                   +:+ ": " +:+ JSON_stringify (index_key idx)))
                   0 indexes).

Definition validateSharding (fullName : string) : M W unit :=
  collConfig <- invoke env (CollectionsFindOne fullName) ;;
  match collConfig with
  | Some {| collection_key := Some k |} =>
      logger_success "  分片配置: 已启用 ✅" ;;
      logger_info ("  分片键: " +:+ JSON_stringify k)
  | _ => logger_error "  分片配置: 未启用 ❌"
  end ;;
  chunkCount <- invoke env (ChunksCountDocuments fullName) ;;
  logger_info ("  分块数量: " +:+ string_of_Z chunkCount) ;;
  chunks <- invoke env (ChunksFind fullName) ;;
  let chunksByShard :=
    fold_left (fun o chunk => tally (inheritedText env) (shard chunk) o) chunks [] in
  logger_info ("  分块分布: " +:+ JSON_stringify (own_properties chunksByShard)).

Definition validateDataDistribution (collConfig : CollConfig) : M W unit :=
  invoke env (Use (database config)) ;;
  try_catch
    (stats <- invoke env (Stats (name collConfig)) ;;
     if sharded stats then
       logger_success "  数据状态: 已分片 ✅" ;;
       logger_info ("  文档数: " +:+ toLocaleString env (count stats)) ;;
       logger_info ("  数据大小: " +:+ formatBytes env (size stats)) ;;
       match shards stats with
       | Some byShard =>
           forEach (fun s =>
                      logger_info ("    " +:+ fst s +:+ ": " +:+ formatBytes env (snd s)
                                   +:+ " (" +:+ percentage env (snd s) (size stats) +:+ "%)"))
                   byShard
       | None => ret tt
       end
     else logger_info "  数据状态: 未分片")
    (fun error => logger_warning ("  无法获取数据统计: " +:+ message error)).

(** Step 4 *)
Definition validateResults : M W unit :=
  if negb (validateResults_opt (options config)) then ret tt
  else
    logger_section "验证分片设置结果" ;;
    forEach (fun collConfig =>
               logger_divider ;;
               logger_info ("验证表: " +:+ name collConfig) ;;
               try_catch
                 (validateIndexes collConfig ;;
                  validateSharding (fullNameOf collConfig) ;;
                  validateDataDistribution collConfig)
                 (fun error => logger_warning ("验证失败: " +:+ message error)))
            (collections config).

Definition showRecommendations : M W unit :=
  if dryRun (options config) then ret tt
  else
    logger_section "后续建议" ;;
    logger_info "1. 监控分片状态:" ;;
    logger_info "   命令: sh.status()" ;;
    logger_info (newline +:+ "2. 检查平衡器状态:") ;;
    logger_info "   命令: db.adminCommand({balancerStatus: 1})" ;;
    when (enableBalancer (sharding config))
         (logger_info (newline +:+ "3. 启动平衡器（如果未运行）:") ;;
          logger_info "   命令: db.adminCommand({balancerStart: 1})") ;;
    logger_info (newline +:+ "4. 查看表的分片分布:") ;;
    forEach (fun coll => logger_info ("   命令: db." +:+ name coll +:+ ".getShardDistribution()"))
            (collections config) ;;
    logger_info (newline +:+ "5. 测试查询性能:") ;;
    forEach (fun coll =>
               logger_info ("   命令: db." +:+ name coll +:+ ".find({id: " +:+ dquote
                            +:+ "test_id" +:+ dquote +:+ "}).explain('executionStats')"))
            (collections config).

(** Step 5 *)
Definition showSummary : M W unit :=
  logger_section "执行摘要" ;;
  r <- get_results ;;
  let total := length (collections config) in
  let nsuccess := length (success r) in
  let nskipped := length (skipped r) in
  let nfailed := length (failed r) in
  logger_info ("总表数: " +:+ string_of_nat total) ;;
  logger_success ("成功: " +:+ string_of_nat nsuccess) ;;
  logger_info ("跳过: " +:+ string_of_nat nskipped) ;;
  when (Nat.ltb 0 nfailed)
       (logger_error ("失败: " +:+ string_of_nat nfailed) ;;
        logger_divider ;;
        logger_info "失败详情:" ;;
        forEach (fun fail => logger_error ("  " +:+ collection fail +:+ ": " +:+ failure_error fail))
                (failed r)) ;;
  logger_divider ;;
  elapsed <- observe (getElapsedTime env) ;;
  logger_info ("总耗时: " +:+ elapsed) ;;
  (if Nat.eqb nfailed 0 then logger_success "🎉 所有任务执行完成！"
   else logger_warning "⚠️  部分任务执行失败，请检查错误信息") ;;
  showRecommendations.

(** The statements of [execute] inside its [try]. *)
Definition execute_try : M W unit :=
  validateConnection ;;
  enableDatabaseSharding ;;
  forEach processCollection (collections config) ;;
  validateResults ;;
  showSummary.

Definition execute : M W unit :=
  logger_section "开始 MongoDB 分片设置" ;;
  logger_info ("数据库: " +:+ database config) ;;
  logger_info ("目标表: " +:+ join ", " (map name (collections config))) ;;
  logger_info ("模式: " +:+ if dryRun (options config) then "试运行" else "实际执行") ;;
  try_catch execute_try
            (fun error => logger_error ("执行失败: " +:+ message error) ;; throw error).

End Manager.

(** ** The entry point *)

Section Main.

Context {W : Type}.
Variable env : Env W.

Local Open Scope script_scope.

(** The statements of [main] inside its [try].  The manager starts from
    empty [results]; the logger is [new Logger(true)]. *)
Definition main_try (config : Config) : M W unit :=
  logger_section "MongoDB 分片设置脚本" ;;
  logger_info "版本: 1.0.0" ;;
  logger_info "作者: MongoDB 管理工具" ;;
  now <- observe (toISOString env) ;;
  logger_info ("开始时间: " +:+ now) ;;
  update_results (fun _ => no_results) ;;
  execute env config true.

(** [main()], for the [CONFIG] left by the command-line switches. *)
Definition main (config : Config) : M W unit :=
  try_catch
    (main_try config)
    (fun error =>
       logger_error ("脚本执行失败: " +:+ message error) ;;
       emit (Exited 1)).

(** The exit code of the process: that of [process.exit] if it was called,
    and 0 when the script runs to its end. *)
Fixpoint exit_code (evs : list event) : Z :=
  match evs with
  | [] => 0
  | Exited code :: _ => code
  | _ :: evs' => exit_code evs'
  end.

End Main.

(** The calls among the events, in order. *)
Fixpoint calls_of (evs : list event) : list call :=
  match evs with
  | [] => []
  | Called c :: evs' => c :: calls_of evs'
  | _ :: evs' => calls_of evs'
  end.

(** The logger lines among the events, in order. *)
Fixpoint logs_of (evs : list event) : list logline :=
  match evs with
  | [] => []
  | Logged l :: evs' => l :: logs_of evs'
  | _ :: evs' => logs_of evs'
  end.

Definition mutating_event (e : event) : bool :=
  match e with
  | Called c => is_mutating c
  | _ => false
  end.

(** ** A cluster to run the script on

    A small in-memory cluster with fault injection: the collections of the
    current database, their indexes, the sharded namespaces, the chunk
    counts, and the calls that throw.  It is the test double on which the
    script is evaluated; the general theorems do not depend on it. *)

Module Mock.

Record Cluster := {
  currentDb : string;
  collectionNames : list string;
  indexDocs : list (string * list IndexDoc);
  shardedKeys : list (string * JsObject);
  chunkCounts : list (string * Z);
  faults : call -> option string
}.

Fixpoint lookup {A} (k : string) (l : list (string * A)) : option A :=
  match l with
  | [] => None
  | (k', a) :: l' => if String.eqb k' k then Some a else lookup k l'
  end.

Fixpoint update {A} (k : string) (a : A) (l : list (string * A)) : list (string * A) :=
  match l with
  | [] => [(k, a)]
  | (k', a') :: l' => if String.eqb k' k then (k, a) :: l' else (k', a') :: update k a l'
  end.

Definition id_index : IndexDoc :=
  {| index_key := [("_id", JNum 1)]; index_name := "_id_"; index_options := [] |}.

Definition indexesOf (coll : string) (w : Cluster) : list IndexDoc :=
  match lookup coll (indexDocs w) with
  | Some l => l
  | None => [id_index]
  end.

Definition chunksOf (ns : string) (w : Cluster) : Z :=
  match lookup ns (chunkCounts w) with
  | Some n => n
  | None => 0%Z
  end.

Definition ok_result : CmdResult := {| ok_is_1 := true; result_json := "{ok:1}" |}.

Definition answer (c : call) (w : Cluster) : (Error + reply c) * Cluster :=
  match c as c0 return (Error + reply c0) * Cluster with
  | RunCommandHello => (inr {| msg := Some "isdbgrid" |}, w)
  | RunCommandConnectionStatus => (inr [], w)
  | AdminCommandUsersInfo _ _ => (inr [], w)
  | EnableSharding _ => (inr ok_result, w)
  | Use d =>
      (inr tt, {| currentDb := d; collectionNames := collectionNames w;
                  indexDocs := indexDocs w; shardedKeys := shardedKeys w;
                  chunkCounts := chunkCounts w; faults := faults w |})
  | GetCollectionNames => (inr (collectionNames w), w)
  | CreateCollection n =>
      (inr tt, {| currentDb := currentDb w; collectionNames := collectionNames w ++ [n];
                  indexDocs := indexDocs w; shardedKeys := shardedKeys w;
                  chunkCounts := chunkCounts w; faults := faults w |})
  | CollectionsFindOne id =>
      (inr (match lookup id (shardedKeys w) with
            | Some k => Some {| collection_key := Some k |}
            | None => None
            end), w)
  | GetIndexes coll => (inr (indexesOf coll w), w)
  | CreateIndex coll k o =>
      let doc := {| index_key := k;
                    index_name := match lookup "name" o with Some (JStr n) => n | _ => "" end;
                    index_options := o |} in
      (inr tt, {| currentDb := currentDb w; collectionNames := collectionNames w;
                  indexDocs := update coll (indexesOf coll w ++ [doc]) (indexDocs w);
                  shardedKeys := shardedKeys w;
                  chunkCounts := chunkCounts w; faults := faults w |})
  | ShardCollection ns k =>
      match lookup ns (shardedKeys w) with
      | Some _ => (inl {| message := "sharding already enabled: collection already sharded" |}, w)
      | None =>
          (inr ok_result,
           {| currentDb := currentDb w; collectionNames := collectionNames w;
              indexDocs := indexDocs w; shardedKeys := update ns k (shardedKeys w);
              chunkCounts := update ns 1%Z (chunkCounts w); faults := faults w |})
      end
  | ChunksCountDocuments ns => (inr (chunksOf ns w), w)
  | SplitFind ns _ =>
      (inr tt, {| currentDb := currentDb w; collectionNames := collectionNames w;
                  indexDocs := indexDocs w; shardedKeys := shardedKeys w;
                  chunkCounts := update ns (chunksOf ns w + 1)%Z (chunkCounts w);
                  faults := faults w |})
  | ChunksFind _ => (inr [], w)
  | Stats _ => (inr {| sharded := false; count := 0; size := 0; shards := None |}, w)
  end.

Definition respond (c : call) (w : Cluster) : (Error + reply c) * Cluster :=
  match faults w c with
  | Some m => (inl {| message := m |}, w)
  | None => answer c w
  end.

(** The methods a plain object inherits, printed as V8 prints a built-in
    function. *)
Definition object_methods : list string :=
  [ "constructor"; "__defineGetter__"; "__defineSetter__"; "hasOwnProperty";
    "__lookupGetter__"; "__lookupSetter__"; "isPrototypeOf"; "propertyIsEnumerable";
    "toString"; "valueOf"; "toLocaleString" ].

Definition method_text (name : string) : option string :=
  if String.eqb name "constructor" then Some "function Object() { [native code] }"
  else if existsb (String.eqb name) object_methods
       then Some ("function " +:+ name +:+ "() { [native code] }")
       else None.

Definition env : Env Cluster := {|
  handle := respond;
  toISOString := fun _ => "2024-01-01T00:00:00.000Z";
  getElapsedTime := fun _ => "0.00秒";
  formatBytes := fun n => string_of_Z n +:+ " Bytes";
  toLocaleString := string_of_Z;
  percentage := fun _ _ => "0.0";
  inheritedText := method_text
|}.

Definition no_faults : call -> option string := fun _ => None.

(** An empty cluster, every call answered. *)
Definition empty : Cluster := {|
  currentDb := "test";
  collectionNames := [];
  indexDocs := [];
  shardedKeys := [];
  chunkCounts := [];
  faults := no_faults
|}.

Definition start (w : Cluster) : State Cluster := {| world := w; results := no_results |}.

End Mock.

(** * Reasoning about runs *)

(** ** Running the monad, one equation per construct *)

Section RunEquations.

Context {W : Type}.
Implicit Types st : State W.

Lemma run_bind_value {A B} (m : M W A) (f : A -> M W B) st a :
  value (m st) = inr a ->
  bind m f st = mkRun (value (f a (final (m st)))) (final (f a (final (m st))))
                      (emitted (m st) ++ emitted (f a (final (m st)))).
Proof. intros H. unfold bind. rewrite H. reflexivity. Qed.

Lemma run_bind_error {A B} (m : M W A) (f : A -> M W B) st e :
  value (m st) = inl e ->
  bind m f st = mkRun (inl e) (final (m st)) (emitted (m st)).
Proof. intros H. unfold bind. rewrite H. reflexivity. Qed.

Lemma run_try_value {A} (m : M W A) (h : Error -> M W A) st a :
  value (m st) = inr a -> try_catch m h st = m st.
Proof. intros H. unfold try_catch. rewrite H. reflexivity. Qed.

Lemma run_try_error {A} (m : M W A) (h : Error -> M W A) st e :
  value (m st) = inl e ->
  try_catch m h st = mkRun (value (h e (final (m st)))) (final (h e (final (m st))))
                           (emitted (m st) ++ emitted (h e (final (m st)))).
Proof. intros H. unfold try_catch. rewrite H. reflexivity. Qed.

Lemma run_emit_bind {B} (e : event) (f : unit -> M W B) st :
  bind (emit e) f st = mkRun (value (f tt st)) (final (f tt st)) (e :: emitted (f tt st)).
Proof. reflexivity. Qed.

Lemma run_observe_bind {A B} (g : W -> A) (f : A -> M W B) st :
  bind (observe g) f st
  = mkRun (value (f (g (world st)) st)) (final (f (g (world st)) st))
          (emitted (f (g (world st)) st)).
Proof. reflexivity. Qed.

Lemma run_update_bind {B} (g : Results -> Results) (f : unit -> M W B) st :
  bind (update_results g) f st
  = mkRun (value (f tt {| world := world st; results := g (results st) |}))
          (final (f tt {| world := world st; results := g (results st) |}))
          (emitted (f tt {| world := world st; results := g (results st) |})).
Proof. reflexivity. Qed.

(** The same, for a run that is known. *)

Lemma step_emit {B} (e : event) (f : unit -> M W B) st v s evs :
  f tt st = mkRun v s evs -> bind (emit e) f st = mkRun v s (e :: evs).
Proof. intros H. rewrite run_emit_bind, H. reflexivity. Qed.

Lemma step_observe {A B} (g : W -> A) (f : A -> M W B) st v s evs :
  f (g (world st)) st = mkRun v s evs -> bind (observe g) f st = mkRun v s evs.
Proof. intros H. rewrite run_observe_bind, H. reflexivity. Qed.

Lemma step_update {B} (g : Results -> Results) (f : unit -> M W B) st v s evs :
  f tt {| world := world st; results := g (results st) |} = mkRun v s evs ->
  bind (update_results g) f st = mkRun v s evs.
Proof. intros H. rewrite run_update_bind, H. reflexivity. Qed.

Lemma step_try_returned {A} (m : M W A) (h : Error -> M W A) st a s evs :
  m st = mkRun (inr a) s evs -> try_catch m h st = mkRun (inr a) s evs.
Proof. intros H. unfold try_catch. rewrite H. reflexivity. Qed.

Lemma step_try_caught {A} (m : M W A) (h : Error -> M W A) st e s evs :
  m st = mkRun (inl e) s evs ->
  try_catch m h st = mkRun (value (h e s)) (final (h e s)) (evs ++ emitted (h e s)).
Proof. intros H. unfold try_catch. rewrite H. reflexivity. Qed.

Lemma run_eta {A} (r : Run W A) : r = mkRun (value r) (final r) (emitted r).
Proof. destruct r; reflexivity. Qed.

End RunEquations.

(** ** Invariants of a run

    [keeps R P m]: from every state, [m] ends in a state related by [R] to
    the one it started from and emits only events that satisfy [P], whether
    it returns or throws. *)

Section Keeps.

Context {W : Type}.
Variable R : State W -> State W -> Prop.
Variable P : event -> Prop.
Hypothesis R_refl : forall st, R st st.
Hypothesis R_trans : forall s1 s2 s3, R s1 s2 -> R s2 s3 -> R s1 s3.

Definition keeps {A} (m : M W A) : Prop :=
  forall st, R st (final (m st)) /\ Forall P (emitted (m st)).

Lemma keeps_ret {A} (a : A) : keeps (ret a).
Proof. intros st; split; [apply R_refl | constructor]. Qed.

Lemma keeps_throw {A} (e : Error) : keeps (@throw W A e).
Proof. intros st; split; [apply R_refl | constructor]. Qed.

Lemma keeps_observe {A} (f : W -> A) : keeps (observe f).
Proof. intros st; split; [apply R_refl | constructor]. Qed.

Lemma keeps_get_results : keeps (@get_results W).
Proof. intros st; split; [apply R_refl | constructor]. Qed.

Lemma keeps_emit (e : event) : P e -> keeps (emit e).
Proof. intros H st; split; [apply R_refl | repeat constructor; exact H]. Qed.

Lemma keeps_bind {A B} (m : M W A) (f : A -> M W B) :
  keeps m -> (forall a, keeps (f a)) -> keeps (bind m f).
Proof.
  intros Hm Hf st. unfold bind.
  destruct (Hm st) as [HR HP].
  destruct (value (m st)) as [e | a]; cbn.
  - split; assumption.
  - destruct (Hf a (final (m st))) as [HR' HP'].
    split; [eapply R_trans; eassumption | apply Forall_app; split; assumption].
Qed.

Lemma keeps_try_catch {A} (m : M W A) (h : Error -> M W A) :
  keeps m -> (forall e, keeps (h e)) -> keeps (try_catch m h).
Proof.
  intros Hm Hh st. unfold try_catch.
  destruct (Hm st) as [HR HP].
  destruct (value (m st)) as [e | a]; cbn.
  - destruct (Hh e (final (m st))) as [HR' HP'].
    split; [eapply R_trans; eassumption | apply Forall_app; split; assumption].
  - split; assumption.
Qed.

Lemma keeps_when (b : bool) (m : M W unit) : keeps m -> keeps (when b m).
Proof. intros H. destruct b; [exact H | apply keeps_ret]. Qed.

Lemma keeps_forEach {A} (f : A -> M W unit) (l : list A) :
  (forall x, keeps (f x)) -> keeps (forEach f l).
Proof.
  intros H. induction l as [| x t IH]; cbn [forEach].
  - apply keeps_ret.
  - apply keeps_bind; [apply H | intros _; exact IH].
Qed.

Lemma keeps_forEntries {A} (f : nat -> A -> M W unit) (l : list A) :
  (forall i x, keeps (f i x)) -> forall i, keeps (forEntries f i l).
Proof.
  intros H. induction l as [| x t IH]; intros i; cbn [forEntries].
  - apply keeps_ret.
  - apply keeps_bind; [apply H | intros _; apply IH].
Qed.

End Keeps.

(** The structural steps of a [keeps] proof: [refl] and [trans] prove that
    the relation is a preorder, [leaf] deals with what is left. *)
Ltac keeps_go refl trans leaf :=
  repeat (first
    [ leaf
    | lazymatch goal with
      | |- keeps _ _ (ret _) => apply (keeps_ret _ _ refl)
      | |- keeps _ _ (throw _) => apply (keeps_throw _ _ refl)
      | |- keeps _ _ (observe _) => apply (keeps_observe _ _ refl)
      | |- keeps _ _ get_results => apply (keeps_get_results _ _ refl)
      | |- keeps _ _ (when _ _) => apply (keeps_when _ _ refl)
      | |- keeps _ _ (forEach _ _) => apply (keeps_forEach _ _ refl trans); intros ?
      | |- keeps _ _ (forEntries _ _ _) => apply (keeps_forEntries _ _ refl trans); intros ? ?
      | |- keeps _ _ (try_catch _ _) => apply (keeps_try_catch _ _ trans); [| intros ?]
      | |- keeps _ _ (bind _ _) => apply (keeps_bind _ _ trans); [| intros ?]
      | |- keeps _ _ (let _ := _ in _) => cbv zeta
      | |- keeps _ _ (if ?b then _ else _) => destruct b
      | |- keeps _ _ (match ?x with _ => _ end) => destruct x
      end ]).

(** ** Dry run: nothing that mutates *)

Section DryRun.

Context {W : Type}.
Variable env : Env W.

(** What is observed of the cluster: its indexes, its sharding state, its
    chunk counts, or all of it. *)
Variable X : Type.
Variable observed : W -> X.

(** The calls that do not mutate leave what is observed as it is. *)
Definition read_only : Prop :=
  forall c w, is_mutating c = false -> observed (snd (handle env c w)) = observed w.

Definition same_world (s s' : State W) : Prop :=
  read_only -> observed (world s') = observed (world s).
Definition not_mutating (e : event) : Prop := mutating_event e = false.

Lemma same_world_refl : forall st, same_world st st.
Proof. intros st _. reflexivity. Qed.

Lemma same_world_trans : forall s1 s2 s3,
    same_world s1 s2 -> same_world s2 s3 -> same_world s1 s3.
Proof. intros s1 s2 s3 H12 H23 Hro. rewrite (H23 Hro). exact (H12 Hro). Qed.

Definition quiet {A} (m : M W A) : Prop := keeps same_world not_mutating m.

Lemma quiet_log (l : logline) : quiet (emit (Logged l)).
Proof. apply (keeps_emit _ _ same_world_refl). reflexivity. Qed.

Lemma quiet_sleep (ms : Z) : quiet (sleep ms).
Proof. apply (keeps_emit _ _ same_world_refl). reflexivity. Qed.

Lemma quiet_exit (code : Z) : quiet (emit (Exited code)).
Proof. apply (keeps_emit _ _ same_world_refl). reflexivity. Qed.

Lemma quiet_invoke (c : call) : is_mutating c = false -> quiet (invoke env c).
Proof.
  intros Hc st; split.
  - intros Hro. cbn. apply Hro. exact Hc.
  - repeat constructor. exact Hc.
Qed.

Lemma quiet_update_results (f : Results -> Results) : quiet (update_results f).
Proof. intros st; split; [intros _; reflexivity | constructor]. Qed.

Ltac quiet_leaf :=
  lazymatch goal with
  | |- keeps _ _ (logger_info _) => apply quiet_log
  | |- keeps _ _ (logger_success _) => apply quiet_log
  | |- keeps _ _ (logger_warning _) => apply quiet_log
  | |- keeps _ _ (logger_error _) => apply quiet_log
  | |- keeps _ _ (logger_section _) => apply quiet_log
  | |- keeps _ _ logger_divider => apply quiet_log
  | |- keeps _ _ (sleep _) => apply quiet_sleep
  | |- keeps _ _ (emit (Exited _)) => apply quiet_exit
  | |- keeps _ _ (update_results _) => apply quiet_update_results
  | |- keeps _ _ (invoke _ _) => apply quiet_invoke; reflexivity
  end.

Variable config : Config.
Hypothesis dry : dryRun (options config) = true.

Ltac quiet_go :=
  keeps_go same_world_refl same_world_trans ltac:(first [ quiet_leaf | rewrite dry ]).

Lemma quiet_validateConnection : quiet (validateConnection env).
Proof. unfold quiet, validateConnection. quiet_go. Qed.

Lemma quiet_enableDatabaseSharding : quiet (enableDatabaseSharding env config).
Proof. unfold quiet, enableDatabaseSharding. quiet_go. Qed.

Lemma quiet_createIndexes c : quiet (createIndexes env config c).
Proof. unfold quiet, createIndexes. quiet_go. unfold createIndex_turn. quiet_go. Qed.

Lemma quiet_createShardKeyIndex c : quiet (createShardKeyIndex env config c).
Proof. unfold quiet, createShardKeyIndex. quiet_go. Qed.

Lemma quiet_enableCollectionSharding c : quiet (enableCollectionSharding env config c).
Proof. unfold quiet, enableCollectionSharding. quiet_go. Qed.

Lemma quiet_preSplitChunks c : quiet (preSplitChunks env config c).
Proof. unfold quiet, preSplitChunks. quiet_go. Qed.

Ltac quiet_collection :=
  lazymatch goal with
  | |- keeps _ _ (createIndexes _ _ _) => apply quiet_createIndexes
  | |- keeps _ _ (createShardKeyIndex _ _ _) => apply quiet_createShardKeyIndex
  | |- keeps _ _ (enableCollectionSharding _ _ _) => apply quiet_enableCollectionSharding
  | |- keeps _ _ (preSplitChunks _ _ _) => apply quiet_preSplitChunks
  end.

Lemma quiet_processCollection c : quiet (processCollection env config c).
Proof.
  unfold quiet, processCollection, processCollection_try, processCollection_exists,
    checkCollectionExists,
    checkIfSharded, push_skipped, push_success, push_failed.
  rewrite dry; cbn [negb when].
  keeps_go same_world_refl same_world_trans ltac:(first [ quiet_leaf | quiet_collection ]).
Qed.

Lemma quiet_validateResults v : quiet (validateResults env config v).
Proof.
  unfold quiet, validateResults, validateIndexes, validateSharding, validateDataDistribution.
  quiet_go.
Qed.

Lemma quiet_showSummary : quiet (showSummary env config).
Proof. unfold quiet, showSummary, showRecommendations. quiet_go. Qed.

Ltac quiet_steps :=
  lazymatch goal with
  | |- keeps _ _ (validateConnection _) => apply quiet_validateConnection
  | |- keeps _ _ (enableDatabaseSharding _ _) => apply quiet_enableDatabaseSharding
  | |- keeps _ _ (processCollection _ _ _) => apply quiet_processCollection
  | |- keeps _ _ (validateResults _ _ _) => apply quiet_validateResults
  | |- keeps _ _ (showSummary _ _) => apply quiet_showSummary
  end.

Lemma quiet_execute v : quiet (execute env config v).
Proof.
  unfold quiet, execute, execute_try.
  keeps_go same_world_refl same_world_trans ltac:(first [ quiet_leaf | quiet_steps ]).
Qed.

Lemma quiet_main : quiet (main env config).
Proof.
  unfold quiet, main, main_try.
  keeps_go same_world_refl same_world_trans
    ltac:(first [ quiet_leaf
                | lazymatch goal with
                  | |- keeps _ _ (execute _ _ _) => apply quiet_execute
                  end ]).
Qed.

End DryRun.

(** ** Runs that return *)

Section Returns.

Context {W : Type}.

(** [m] never throws. *)
Definition returns {A} (m : M W A) : Prop :=
  forall st, exists a, value (m st) = inr a.

Lemma returns_ret {A} (a : A) : returns (@ret W A a).
Proof. intros st; exists a; reflexivity. Qed.

Lemma returns_emit (e : event) : returns (@emit W e).
Proof. intros st; exists tt; reflexivity. Qed.

Lemma returns_observe {A} (f : W -> A) : returns (observe f).
Proof. intros st; eexists; reflexivity. Qed.

Lemma returns_get_results : returns (@get_results W).
Proof. intros st; eexists; reflexivity. Qed.

Lemma returns_update_results f : returns (@update_results W f).
Proof. intros st; exists tt; reflexivity. Qed.

Lemma returns_bind {A B} (m : M W A) (f : A -> M W B) :
  returns m -> (forall a, returns (f a)) -> returns (bind m f).
Proof.
  intros Hm Hf st. destruct (Hm st) as [a Ha].
  rewrite (run_bind_value _ _ _ _ Ha). cbn. apply Hf.
Qed.

(** A [try] whose [catch] returns, returns. *)
Lemma returns_try_catch {A} (m : M W A) (h : Error -> M W A) :
  (forall e, returns (h e)) -> returns (try_catch m h).
Proof.
  intros Hh st. destruct (value (m st)) as [e | a] eqn:Hv.
  - rewrite (run_try_error _ _ _ _ Hv). cbn. apply Hh.
  - rewrite (run_try_value _ _ _ _ Hv). exists a. exact Hv.
Qed.

Lemma returns_when (b : bool) (m : M W unit) : returns m -> returns (when b m).
Proof. intros H. destruct b; [exact H | apply returns_ret]. Qed.

Lemma returns_forEach {A} (f : A -> M W unit) (l : list A) :
  (forall x, returns (f x)) -> returns (forEach f l).
Proof.
  intros H. induction l as [| x t IH]; cbn [forEach].
  - apply returns_ret.
  - apply returns_bind; [apply H | intros _; exact IH].
Qed.

Lemma returns_unit (m : M W unit) st : returns m -> value (m st) = inr tt.
Proof. intros H. destruct (H st) as [[] Ha]. exact Ha. Qed.

End Returns.

Ltac returns_go :=
  repeat (lazymatch goal with
    | |- returns (ret _) => apply returns_ret
    | |- returns (emit _) => apply returns_emit
    | |- returns (logger_info _) => apply returns_emit
    | |- returns (logger_success _) => apply returns_emit
    | |- returns (logger_warning _) => apply returns_emit
    | |- returns (logger_error _) => apply returns_emit
    | |- returns (logger_section _) => apply returns_emit
    | |- returns logger_divider => apply returns_emit
    | |- returns (sleep _) => apply returns_emit
    | |- returns (observe _) => apply returns_observe
    | |- returns get_results => apply returns_get_results
    | |- returns (update_results _) => apply returns_update_results
    | |- returns (when _ _) => apply returns_when
    | |- returns (forEach _ _) => apply returns_forEach; intros ?
    | |- returns (try_catch _ _) => apply returns_try_catch; intros ?
    | |- returns (bind _ _) => apply returns_bind; [| intros ?]
    | |- returns (let _ := _ in _) => cbv zeta
    | |- returns (if ?b then _ else _) => destruct b
    | |- returns (match ?x with _ => _ end) => destruct x
    end).

(** ** The tally of results *)

Section Tally.

Context {W : Type}.
Variable env : Env W.
Variable config : Config.

Definition same_results (s s' : State W) : Prop := results s' = results s.
Definition any_event (e : event) : Prop := True.

Lemma same_results_refl : forall st, same_results st st.
Proof. reflexivity. Qed.

Lemma same_results_trans : forall s1 s2 s3,
    same_results s1 s2 -> same_results s2 s3 -> same_results s1 s3.
Proof. unfold same_results. intros s1 s2 s3 H12 H23. congruence. Qed.

(** [m] leaves the tally alone. *)
Definition untouched {A} (m : M W A) : Prop := keeps same_results any_event m.

Lemma untouched_emit (e : event) : untouched (emit e).
Proof. apply (keeps_emit _ _ same_results_refl). exact I. Qed.

Lemma untouched_invoke (c : call) : untouched (invoke env c).
Proof. intros st; split; [reflexivity | repeat constructor]. Qed.

Ltac untouched_leaf :=
  lazymatch goal with
  | |- keeps _ _ (logger_info _) => apply untouched_emit
  | |- keeps _ _ (logger_success _) => apply untouched_emit
  | |- keeps _ _ (logger_warning _) => apply untouched_emit
  | |- keeps _ _ (logger_error _) => apply untouched_emit
  | |- keeps _ _ (logger_section _) => apply untouched_emit
  | |- keeps _ _ logger_divider => apply untouched_emit
  | |- keeps _ _ (sleep _) => apply untouched_emit
  | |- keeps _ _ (emit _) => apply untouched_emit
  | |- keeps _ _ (invoke _ _) => apply untouched_invoke
  end.

Ltac untouched_go :=
  keeps_go same_results_refl same_results_trans ltac:(idtac; untouched_leaf).

Lemma untouched_validateConnection : untouched (validateConnection env).
Proof. unfold untouched, validateConnection. untouched_go. Qed.

Lemma untouched_enableDatabaseSharding : untouched (enableDatabaseSharding env config).
Proof. unfold untouched, enableDatabaseSharding. untouched_go. Qed.

Lemma untouched_createIndexes c : untouched (createIndexes env config c).
Proof. unfold untouched, createIndexes. untouched_go. unfold createIndex_turn. untouched_go. Qed.

Lemma untouched_createShardKeyIndex c : untouched (createShardKeyIndex env config c).
Proof. unfold untouched, createShardKeyIndex. untouched_go. Qed.

Lemma untouched_enableCollectionSharding c : untouched (enableCollectionSharding env config c).
Proof. unfold untouched, enableCollectionSharding. untouched_go. Qed.

Lemma untouched_processCollection_exists c : untouched (processCollection_exists env config c).
Proof.
  unfold untouched, processCollection_exists, checkCollectionExists. untouched_go.
Qed.

Lemma untouched_split_loop fullName needed turns :
  forall i created, untouched (split_loop env fullName needed turns i created).
Proof.
  induction turns as [| turns IH]; intros i created; cbn [split_loop].
  - apply (keeps_ret _ _ same_results_refl).
  - apply (keeps_bind _ _ same_results_trans).
    + unfold split_turn. untouched_go.
    + intros [c | c]; [apply IH | apply (keeps_ret _ _ same_results_refl)].
Qed.

Lemma untouched_preSplitChunks c : untouched (preSplitChunks env config c).
Proof.
  unfold untouched, preSplitChunks.
  keeps_go same_results_refl same_results_trans
    ltac:(first [ untouched_leaf
                | lazymatch goal with
                  | |- keeps _ _ (split_loop _ _ _ _ _ _) => apply untouched_split_loop
                  end ]).
Qed.

Lemma untouched_validateResults v : untouched (validateResults env config v).
Proof.
  unfold untouched, validateResults, validateIndexes, validateSharding, validateDataDistribution.
  untouched_go.
Qed.

Lemma untouched_showSummary : untouched (showSummary env config).
Proof. unfold untouched, showSummary, showRecommendations. untouched_go. Qed.

Lemma returns_validateResults v : returns (validateResults env config v).
Proof. unfold validateResults. returns_go. Qed.

Lemma returns_showSummary : returns (showSummary env config).
Proof. unfold showSummary, showRecommendations. returns_go. Qed.

(** What the [try] block of [processCollection] does to the tally: nothing
    when it throws, one name pushed on [success] or [skipped] when it
    returns. *)
Definition tallies (n : string) (m : M W unit) : Prop :=
  forall st,
    match value (m st) with
    | inl _ => results (final (m st)) = results st
    | inr _ => results (final (m st)) = add_success n (results st)
               \/ results (final (m st)) = add_skipped n (results st)
    end.

Lemma tallies_bind {A} n (m : M W A) (f : A -> M W unit) :
  untouched m -> (forall a, tallies n (f a)) -> tallies n (bind m f).
Proof.
  intros Hm Hf st. unfold bind.
  destruct (Hm st) as [HR _]. unfold same_results in HR.
  destruct (value (m st)) as [e | a]; cbn.
  - exact HR.
  - specialize (Hf a (final (m st))). rewrite HR in Hf. exact Hf.
Qed.

Lemma tallies_processCollection_try c :
  tallies (name c) (processCollection_try env config c).
Proof.
  unfold processCollection_try, processCollection_exists,
    checkCollectionExists, checkIfSharded. cbv zeta.
  apply tallies_bind; [unfold untouched; untouched_go | intros _].
  apply tallies_bind; [unfold untouched; untouched_go | intros isAlreadySharded].
  destruct (isAlreadySharded && skipExistingSharded (options config)).
  - apply tallies_bind; [unfold untouched; untouched_go | intros _].
    intros st. cbn. right. reflexivity.
  - apply tallies_bind; [apply untouched_createIndexes | intros _].
    apply tallies_bind; [apply untouched_createShardKeyIndex | intros _].
    apply tallies_bind; [apply untouched_enableCollectionSharding | intros _].
    apply tallies_bind; [apply untouched_preSplitChunks | intros _].
    intros st. cbn. left. reflexivity.
Qed.

(** [processCollection] never throws and pushes the collection on exactly
    one list. *)
Lemma processCollection_records c st :
  let r := processCollection env config c st in
  value r = inr tt
  /\ (results (final r) = add_success (name c) (results st)
      \/ results (final r) = add_skipped (name c) (results st)
      \/ exists e, value (processCollection_try env config c st) = inl e
                   /\ results (final r)
                      = add_failed {| collection := name c; failure_error := message e |}
                                   (results st)).
Proof.
  cbv zeta. unfold processCollection.
  rewrite (run_bind_value _ _ st tt) by reflexivity.
  cbn [value final emitted logger_divider emit].
  rewrite (run_bind_value _ _ st tt) by reflexivity.
  cbn [value final emitted logger_info emit].
  pose proof (tallies_processCollection_try c st) as Ht.
  destruct (value (processCollection_try env config c st)) as [e | []] eqn:Hv.
  - rewrite (run_try_error _ _ _ _ Hv). cbn.
    split; [reflexivity |].
    right; right. exists e. split; [reflexivity |]. rewrite Ht. reflexivity.
  - rewrite (run_try_value _ _ _ _ Hv). rewrite Hv.
    split; [reflexivity |].
    destruct Ht as [Ht | Ht]; [left | right; left]; exact Ht.
Qed.

Lemma recorded_add_success n r : Permutation (recorded (add_success n r)) (recorded r ++ [n]).
Proof.
  unfold recorded, add_success; cbn.
  rewrite <- !app_assoc.
  apply Permutation_app_head.
  rewrite (app_assoc (skipped r)).
  apply (Permutation_app_comm [n]).
Qed.

Lemma recorded_add_skipped n r : Permutation (recorded (add_skipped n r)) (recorded r ++ [n]).
Proof.
  unfold recorded, add_skipped; cbn.
  rewrite <- !app_assoc.
  apply Permutation_app_head. apply Permutation_app_head.
  apply (Permutation_app_comm [n]).
Qed.

Lemma recorded_add_failed f r :
  Permutation (recorded (add_failed f r)) (recorded r ++ [collection f]).
Proof.
  unfold recorded, add_failed; cbn.
  rewrite map_app, <- !app_assoc. reflexivity.
Qed.

Lemma processCollection_recorded c st :
  Permutation (recorded (results (final (processCollection env config c st))))
              (recorded (results st) ++ [name c]).
Proof.
  destruct (processCollection_records c st) as [_ [H | [H | [e [_ H]]]]]; rewrite H.
  - apply recorded_add_success.
  - apply recorded_add_skipped.
  - apply recorded_add_failed.
Qed.

(** The loop over the collections runs to its end and records them all. *)
Lemma forEach_processCollection_records l :
  forall st,
    let r := forEach (processCollection env config) l st in
    value r = inr tt
    /\ Permutation (recorded (results (final r))) (recorded (results st) ++ map name l).
Proof.
  induction l as [| c l IH]; intros st; cbv zeta; cbn [forEach map].
  - split; [reflexivity | rewrite app_nil_r; reflexivity].
  - destruct (processCollection_records c st) as [Hv _]. cbv zeta in Hv.
    rewrite (run_bind_value _ _ _ _ Hv). cbn [value final].
    destruct (IH (final (processCollection env config c st))) as [Hv' Hp].
    split; [exact Hv' |].
    etransitivity; [exact Hp |].
    change (name c :: map name l) with ([name c] ++ map name l).
    rewrite app_assoc. apply Permutation_app_tail.
    apply processCollection_recorded.
Qed.

Lemma recorded_length r :
  length (recorded r) = length (success r) + length (skipped r) + length (failed r).
Proof. unfold recorded. rewrite !length_app, length_map. lia. Qed.

End Tally.

(** * The claims *)

Lemma calls_of_app evs evs' : calls_of (evs ++ evs') = calls_of evs ++ calls_of evs'.
Proof.
  induction evs as [| [c | l | ms | code] evs IH]; cbn; rewrite ?IH; reflexivity.
Qed.

Lemma logs_of_app evs evs' : logs_of (evs ++ evs') = logs_of evs ++ logs_of evs'.
Proof.
  induction evs as [| [c | l | ms | code] evs IH]; cbn; rewrite ?IH; reflexivity.
Qed.

Lemma not_mutating_calls evs :
  Forall not_mutating evs -> forall c, In c (calls_of evs) -> is_mutating c = false.
Proof.
  induction 1 as [| e evs He _ IH]; intros c Hc; [destruct Hc |].
  destruct e as [c' | l | ms | code]; cbn in Hc; try (apply IH; exact Hc).
  destruct Hc as [<- | Hc]; [exact He | apply IH; exact Hc].
Qed.

(** C1. With the dry-run option set, a full execution, from any cluster
    state and whatever the cluster answers, issues no mutating call: no
    enableSharding, createCollection, createIndex, shardCollection or
    splitFind.  Hence whatever is observed of the cluster (indexes, sharding
    state, chunk counts) and is left alone by the other calls, is the same
    after the run as before.  This holds of [main] and of [execute]. *)
Theorem dry_run_issues_no_mutating_call :
  forall (W : Type) (env : Env W) (config : Config),
    dryRun (options config) = true ->
    forall (st : State W),
      (forall c, In c (calls_of (emitted (main env config st))) -> is_mutating c = false)
      /\ (forall verbose c,
             In c (calls_of (emitted (execute env config verbose st))) -> is_mutating c = false)
      /\ (forall (X : Type) (observed : W -> X),
             read_only env X observed ->
             observed (world (final (main env config st))) = observed (world st)
             /\ forall verbose,
                 observed (world (final (execute env config verbose st))) = observed (world st)).
Proof.
  intros W env config Hdry st. split; [| split].
  - apply not_mutating_calls.
    apply (quiet_main env unit (fun _ => tt) config Hdry st).
  - intros verbose. apply not_mutating_calls.
    apply (quiet_execute env unit (fun _ => tt) config Hdry verbose st).
  - intros X observed Hro. split.
    + apply (quiet_main env X observed config Hdry st). exact Hro.
    + intros verbose. apply (quiet_execute env X observed config Hdry verbose st). exact Hro.
Qed.

(** The built-in configuration with [--dry-run true]. *)
Definition CONFIG_dry_run : Config := {|
  connectionString := connectionString CONFIG;
  database := database CONFIG;
  collections := collections CONFIG;
  sharding := sharding CONFIG;
  options := {| skipExistingSharded := true;
                backgroundIndex := true;
                validateResults_opt := true;
                dryRun := true |}
|}.

Lemma dry_run_issues_no_mutating_call_witness :
  dryRun (options CONFIG_dry_run) = true
  /\ forall c,
      In c (calls_of (emitted (main Mock.env CONFIG_dry_run (Mock.start Mock.empty)))) ->
      is_mutating c = false.
Proof.
  split; [reflexivity |].
  exact (proj1 (dry_run_issues_no_mutating_call _ Mock.env CONFIG_dry_run eq_refl
                                                (Mock.start Mock.empty))).
Defined.

Lemma execute_try_records {W : Type} (env : Env W) (config : Config) (verbose : bool)
      (st : State W) :
  value (bind (validateConnection env) (fun _ => enableDatabaseSharding env config) st)
  = inr tt ->
  value (execute_try env config verbose st) = inr tt
  /\ Permutation (recorded (results (final (execute_try env config verbose st))))
                 (recorded (results st) ++ map name (collections config)).
Proof.
  intros H. unfold execute_try.
  destruct (value (validateConnection env st)) as [e | []] eqn:Hvc.
  { rewrite (run_bind_error _ _ _ _ Hvc) in H. discriminate H. }
  rewrite (run_bind_value _ _ _ _ Hvc) in H. cbn [value] in H.
  rewrite (run_bind_value _ _ _ _ Hvc). cbn [value final].
  set (s1 := final (validateConnection env st)) in *.
  rewrite (run_bind_value _ _ _ _ H). cbn [value final].
  set (s2 := final (enableDatabaseSharding env config s1)).
  destruct (forEach_processCollection_records env config (collections config) s2) as [Hv Hp].
  cbv zeta in Hv, Hp.
  rewrite (run_bind_value _ _ _ _ Hv). cbn [value final].
  set (s3 := final (forEach (processCollection env config) (collections config) s2)) in *.
  pose proof (returns_unit _ s3 (returns_validateResults env config verbose)) as Hvr.
  rewrite (run_bind_value _ _ _ _ Hvr). cbn [value final].
  set (s4 := final (validateResults env config verbose s3)).
  split.
  - apply returns_unit, returns_showSummary.
  - destruct (untouched_showSummary env config s4) as [E4 _].
    destruct (untouched_validateResults env config verbose s3) as [E3 _].
    destruct (untouched_enableDatabaseSharding env config s1) as [E2 _].
    destruct (untouched_validateConnection env st) as [E1 _].
    unfold same_results in *. fold s4 in E3. fold s2 in E2. fold s1 in E1.
    rewrite E4, E3. rewrite <- E1, <- E2. exact Hp.
Qed.

Lemma execute_after_try {W : Type} (env : Env W) (config : Config) (verbose : bool)
      (st : State W) :
  value (execute_try env config verbose st) = inr tt ->
  value (execute env config verbose st) = inr tt
  /\ final (execute env config verbose st) = final (execute_try env config verbose st).
Proof.
  intros Hv.
  unfold execute, bind, logger_section, logger_info, emit; cbn [value final emitted].
  unfold try_catch. rewrite Hv. split; [exact Hv | reflexivity].
Qed.

(** C2. Whenever the connection check and the database-level sharding step
    do not throw, [execute] runs to its end and every configured collection
    is recorded in exactly one of the three lists: the names recorded are
    the configured names up to order, so the three lengths add up to the
    number of configured collections. *)
Theorem summary_counts_add_up :
  forall (W : Type) (env : Env W) (config : Config) (verbose : bool) (st : State W),
    results st = no_results ->
    value (bind (validateConnection env) (fun _ => enableDatabaseSharding env config) st)
    = inr tt ->
    let r := results (final (execute env config verbose st)) in
    value (execute env config verbose st) = inr tt
    /\ Permutation (recorded r) (map name (collections config))
    /\ length (success r) + length (skipped r) + length (failed r)
       = length (collections config).
Proof.
  intros W env config verbose st H0 H. cbv zeta.
  destruct (execute_try_records env config verbose st H) as [Hv Hp].
  destruct (execute_after_try env config verbose st Hv) as [Ev Ef].
  rewrite Ev, Ef.
  rewrite H0 in Hp. cbn [recorded no_results success skipped failed map app] in Hp.
  split; [reflexivity | split; [exact Hp |]].
  rewrite <- recorded_length, <- (length_map name).
  apply Permutation_length. exact Hp.
Qed.

Definition collection_c : CollConfig := {|
  name := "c";
  description := "a collection";
  shardKey := asc "uid";
  indexes := Some [ idx (asc "a") (unique_named "idx_a"); idx (asc "b") (named "idx_b") ]
|}.

Definition one_collection : Config := {|
  connectionString := "";
  database := "d";
  collections := [ collection_c ];
  sharding := {| initialChunks := 3; chunkSizeMB := 64; enableBalancer := true |};
  options := {| skipExistingSharded := true;
                backgroundIndex := true;
                validateResults_opt := true;
                dryRun := false |}
|}.

Lemma summary_counts_add_up_witness :
  let r := results (final (execute Mock.env one_collection true (Mock.start Mock.empty))) in
  length (success r) + length (skipped r) + length (failed r)
  = length (collections one_collection).
Proof.
  refine (proj2 (proj2 (summary_counts_add_up _ Mock.env one_collection true
                                              (Mock.start Mock.empty) eq_refl _))).
  vm_compute. reflexivity.
Defined.

(** ** How each step treats an error of the cluster *)

Section Errors.

Context {W : Type}.
Variable env : Env W.
Variable config : Config.
Hypothesis actual : dryRun (options config) = false.

(** Unfolding the monad on a concrete sequence of statements. *)
Ltac run :=
  unfold bind, try_catch, invoke, when, logger_info, logger_success, logger_warning,
    logger_error, logger_section, logger_divider, sleep, emit, ret, throw;
  cbn [value final emitted world results fst snd].

Lemma enableDatabaseSharding_on_error st e :
  fst (handle env (EnableSharding (database config)) (world st)) = inl e ->
  value (enableDatabaseSharding env config st)
  = if includes (message e) "already enabled" then inr tt else inl e.
Proof.
  intros H. unfold enableDatabaseSharding. rewrite actual. run. rewrite H.
  cbn [value final emitted]. destruct (includes (message e) "already enabled"); reflexivity.
Qed.

Lemma enableCollectionSharding_on_error c st e :
  fst (handle env (ShardCollection (fullNameOf config c) (shardKey c)) (world st)) = inl e ->
  value (enableCollectionSharding env config c st)
  = if includes (message e) "already sharded" then inr tt else inl e.
Proof.
  intros H. unfold enableCollectionSharding. cbv zeta. rewrite actual. run. rewrite H.
  cbn [value final emitted].
  destruct (includes (message e) "already sharded"); [reflexivity |].
  destruct (includes (message e) "create an index"); reflexivity.
Qed.

Lemma split_turn_on_error fullName needed i created st e :
  fst (handle env (SplitFind fullName (split_point i)) (world st)) = inl e ->
  let r := split_turn env fullName needed i created st in
  if includes (message e) "chunk is too small"
  then value r = inr (Break created)
       /\ emitted r = [Called (SplitFind fullName (split_point i));
                       Logged (LogInfo "    分块太小，停止分割")]
  else value r = inr (Next created)
       /\ emitted r = [Called (SplitFind fullName (split_point i));
                       Logged (LogWarning ("    分割 " +:+ string_of_Z (i + 1) +:+ " 失败: "
                                           +:+ message e))].
Proof.
  intros H. cbv zeta. unfold split_turn. run. rewrite H. cbn [value final emitted].
  destruct (includes (message e) "chunk is too small"); split; reflexivity.
Qed.



End Errors.

Section Caught.

Context {W : Type}.
Variable env : Env W.
Variable config : Config.

(** When its [try] block throws, [processCollection] logs the error and
    pushes the collection on [failed]; nothing else happens. *)
Lemma processCollection_on_throw c st e :
  value (processCollection_try env config c st) = inl e ->
  let r := processCollection env config c st in
  value r = inr tt
  /\ results (final r)
     = add_failed {| collection := name c; failure_error := message e |} (results st)
  /\ emitted r
     = Logged LogDivider
       :: Logged (LogInfo ("处理表: " +:+ name c +:+ " (" +:+ description c +:+ ")"))
       :: emitted (processCollection_try env config c st)
       ++ [Logged (LogError ("处理表 " +:+ name c +:+ " 失败: " +:+ message e))].
Proof.
  intros Hv. cbv zeta.
  pose proof (tallies_processCollection_try env config c st) as Ht. rewrite Hv in Ht.
  unfold processCollection, logger_divider, logger_info.
  rewrite run_emit_bind. cbv beta. rewrite run_emit_bind. cbv beta.
  cbn [value final emitted].
  rewrite (run_try_error _ _ _ _ Hv).
  unfold logger_error. rewrite run_emit_bind.
  unfold push_failed, update_results.
  cbn [value final emitted results world]. rewrite Ht.
  repeat split; reflexivity.
Qed.

Lemma processCollection_returns c st :
  value (processCollection env config c st) = inr tt.
Proof. apply (processCollection_records env config c st). Qed.


End Caught.

(** ** The steps of the [try] block, one after the other *)

Section TryBlock.

Context {W : Type}.
Variable env : Env W.
Variable config : Config.

Local Open Scope script_scope.

(** The steps of the [try] block of [processCollection]. *)
Inductive step :=
| Existence
| ShardedCheck
| BusinessIndexes
| ShardKeyIndex
| CollectionSharding
| PreSplit.

(** The error of a run that throws. *)
Definition thrown {A} (r : Run W A) : option Error :=
  match value r with
  | inl e => Some e
  | inr _ => None
  end.

(** The states between the steps. *)
Definition after_exists (c : CollConfig) (st : State W) : State W :=
  final (processCollection_exists env config c st).

Definition after_check (c : CollConfig) (st : State W) : State W :=
  final (checkIfSharded env (fullNameOf config c) (after_exists c st)).

Definition after_indexes (c : CollConfig) (st : State W) : State W :=
  final (createIndexes env config c (after_check c st)).

Definition after_shard_key (c : CollConfig) (st : State W) : State W :=
  final (createShardKeyIndex env config c (after_indexes c st)).

Definition after_sharding (c : CollConfig) (st : State W) : State W :=
  final (enableCollectionSharding env config c (after_shard_key c st)).

Definition after_split (c : CollConfig) (st : State W) : State W :=
  final (preSplitChunks env config c (after_sharding c st)).

(** The state in which a step starts. *)
Definition step_state (x : step) (c : CollConfig) (st : State W) : State W :=
  match x with
  | Existence => st
  | ShardedCheck => after_exists c st
  | BusinessIndexes => after_check c st
  | ShardKeyIndex => after_indexes c st
  | CollectionSharding => after_shard_key c st
  | PreSplit => after_sharding c st
  end.

(** What a step throws and what it emits, run in that state. *)
Definition step_thrown (x : step) (c : CollConfig) (st : State W) : option Error :=
  match x with
  | Existence => thrown (processCollection_exists env config c st)
  | ShardedCheck => thrown (checkIfSharded env (fullNameOf config c) (after_exists c st))
  | BusinessIndexes => thrown (createIndexes env config c (after_check c st))
  | ShardKeyIndex => thrown (createShardKeyIndex env config c (after_indexes c st))
  | CollectionSharding =>
      thrown (enableCollectionSharding env config c (after_shard_key c st))
  | PreSplit => thrown (preSplitChunks env config c (after_sharding c st))
  end.

Definition step_events (x : step) (c : CollConfig) (st : State W) : list event :=
  match x with
  | Existence => emitted (processCollection_exists env config c st)
  | ShardedCheck => emitted (checkIfSharded env (fullNameOf config c) (after_exists c st))
  | BusinessIndexes => emitted (createIndexes env config c (after_check c st))
  | ShardKeyIndex => emitted (createShardKeyIndex env config c (after_indexes c st))
  | CollectionSharding =>
      emitted (enableCollectionSharding env config c (after_shard_key c st))
  | PreSplit => emitted (preSplitChunks env config c (after_sharding c st))
  end.

(** The sharded check returns and the collection is not skipped. *)
Definition goes_on (c : CollConfig) (st : State W) : Prop :=
  exists isAlreadySharded,
    value (checkIfSharded env (fullNameOf config c) (after_exists c st))
    = inr isAlreadySharded
    /\ isAlreadySharded && skipExistingSharded (options config) = false.

(** A step is reached when the steps before it have returned and the
    collection is not skipped before it. *)
Definition reached (x : step) (c : CollConfig) (st : State W) : Prop :=
  match x with
  | Existence => True
  | ShardedCheck => step_thrown Existence c st = None
  | BusinessIndexes => step_thrown Existence c st = None /\ goes_on c st
  | ShardKeyIndex =>
      step_thrown Existence c st = None /\ goes_on c st
      /\ step_thrown BusinessIndexes c st = None
  | CollectionSharding =>
      step_thrown Existence c st = None /\ goes_on c st
      /\ step_thrown BusinessIndexes c st = None
      /\ step_thrown ShardKeyIndex c st = None
  | PreSplit =>
      step_thrown Existence c st = None /\ goes_on c st
      /\ step_thrown BusinessIndexes c st = None
      /\ step_thrown ShardKeyIndex c st = None
      /\ step_thrown CollectionSharding c st = None
  end.

(** What the steps before a step emit. *)
Definition events_before (x : step) (c : CollConfig) (st : State W) : list event :=
  match x with
  | Existence => []
  | ShardedCheck => step_events Existence c st
  | BusinessIndexes => step_events Existence c st ++ step_events ShardedCheck c st
  | ShardKeyIndex =>
      step_events Existence c st ++ step_events ShardedCheck c st
      ++ step_events BusinessIndexes c st
  | CollectionSharding =>
      step_events Existence c st ++ step_events ShardedCheck c st
      ++ step_events BusinessIndexes c st ++ step_events ShardKeyIndex c st
  | PreSplit =>
      step_events Existence c st ++ step_events ShardedCheck c st
      ++ step_events BusinessIndexes c st ++ step_events ShardKeyIndex c st
      ++ step_events CollectionSharding c st
  end.

(** The [try] block from a step on. *)
Definition from_step (x : step) (c : CollConfig) : M W unit :=
  match x with
  | Existence => processCollection_try env config c
  | ShardedCheck =>
      isAlreadySharded <- checkIfSharded env (fullNameOf config c) ;;
      if isAlreadySharded && skipExistingSharded (options config) then
        logger_info "表已分片，跳过" ;;
        push_skipped (name c)
      else
        createIndexes env config c ;;
        createShardKeyIndex env config c ;;
        enableCollectionSharding env config c ;;
        preSplitChunks env config c ;;
        push_success (name c) ;;
        logger_success ("表 " +:+ name c +:+ " 处理完成")
  | BusinessIndexes =>
      createIndexes env config c ;;
      createShardKeyIndex env config c ;;
      enableCollectionSharding env config c ;;
      preSplitChunks env config c ;;
      push_success (name c) ;;
      logger_success ("表 " +:+ name c +:+ " 处理完成")
  | ShardKeyIndex =>
      createShardKeyIndex env config c ;;
      enableCollectionSharding env config c ;;
      preSplitChunks env config c ;;
      push_success (name c) ;;
      logger_success ("表 " +:+ name c +:+ " 处理完成")
  | CollectionSharding =>
      enableCollectionSharding env config c ;;
      preSplitChunks env config c ;;
      push_success (name c) ;;
      logger_success ("表 " +:+ name c +:+ " 处理完成")
  | PreSplit =>
      preSplitChunks env config c ;;
      push_success (name c) ;;
      logger_success ("表 " +:+ name c +:+ " 处理完成")
  end.

Lemma thrown_none {A} (r : Run W A) : thrown r = None -> exists a, value r = inr a.
Proof. unfold thrown. destruct (value r) as [e | a]; [discriminate | exists a; reflexivity]. Qed.

Lemma thrown_none_unit (r : Run W unit) : thrown r = None -> value r = inr tt.
Proof. intros H. destruct (thrown_none r H) as [[] Hv]. exact Hv. Qed.


(** Once a step is reached, the [try] block is what came before followed by
    the block from that step on. *)
Lemma run_from (x : step) c st :
  reached x c st ->
  processCollection_try env config c st
  = mkRun (value (from_step x c (step_state x c st)))
          (final (from_step x c (step_state x c st)))
          (events_before x c st ++ emitted (from_step x c (step_state x c st))).
Proof.
  assert (H1 : reached ShardedCheck c st ->
               processCollection_try env config c st
               = mkRun (value (from_step ShardedCheck c (after_exists c st)))
                       (final (from_step ShardedCheck c (after_exists c st)))
                       (events_before ShardedCheck c st
                        ++ emitted (from_step ShardedCheck c (after_exists c st)))).
  { cbn [reached step_thrown]. intros Hex. apply thrown_none_unit in Hex.
    unfold processCollection_try. cbv zeta.
    rewrite (run_bind_value _ _ _ _ Hex). reflexivity. }
  assert (H2 : reached BusinessIndexes c st ->
               processCollection_try env config c st
               = mkRun (value (from_step BusinessIndexes c (after_check c st)))
                       (final (from_step BusinessIndexes c (after_check c st)))
                       (events_before BusinessIndexes c st
                        ++ emitted (from_step BusinessIndexes c (after_check c st)))).
  { intros [Hex [b [Hb Hgo]]]. rewrite (H1 Hex).
    cbn [from_step]. rewrite (run_bind_value _ _ _ _ Hb). cbn [value final emitted].
    rewrite Hgo. cbn [events_before step_events]. rewrite <- app_assoc. reflexivity. }
  assert (H3 : reached ShardKeyIndex c st ->
               processCollection_try env config c st
               = mkRun (value (from_step ShardKeyIndex c (after_indexes c st)))
                       (final (from_step ShardKeyIndex c (after_indexes c st)))
                       (events_before ShardKeyIndex c st
                        ++ emitted (from_step ShardKeyIndex c (after_indexes c st)))).
  { intros [Hex [Hgo Hidx]]. rewrite (H2 (conj Hex Hgo)).
    cbn [step_thrown] in Hidx. apply thrown_none_unit in Hidx.
    cbn [from_step]. rewrite (run_bind_value _ _ _ _ Hidx). cbn [value final emitted].
    cbn [events_before step_events]. rewrite <- !app_assoc. reflexivity. }
  assert (H4 : reached CollectionSharding c st ->
               processCollection_try env config c st
               = mkRun (value (from_step CollectionSharding c (after_shard_key c st)))
                       (final (from_step CollectionSharding c (after_shard_key c st)))
                       (events_before CollectionSharding c st
                        ++ emitted (from_step CollectionSharding c (after_shard_key c st)))).
  { intros [Hex [Hgo [Hidx Hkey]]]. rewrite (H3 (conj Hex (conj Hgo Hidx))).
    cbn [step_thrown] in Hkey. apply thrown_none_unit in Hkey.
    cbn [from_step]. rewrite (run_bind_value _ _ _ _ Hkey). cbn [value final emitted].
    cbn [events_before step_events]. rewrite <- !app_assoc. reflexivity. }
  destruct x; cbn [step_state].
  - intros _. cbn [events_before from_step app]. apply run_eta.
  - exact H1.
  - exact H2.
  - exact H3.
  - exact H4.
  - intros [Hex [Hgo [Hidx [Hkey Hsh]]]].
    rewrite (H4 (conj Hex (conj Hgo (conj Hidx Hkey)))).
    cbn [step_thrown] in Hsh. apply thrown_none_unit in Hsh.
    cbn [from_step]. rewrite (run_bind_value _ _ _ _ Hsh). cbn [value final emitted].
    cbn [events_before step_events]. rewrite <- !app_assoc. reflexivity.
Qed.

(** The state in which a step ends. *)
Definition step_end (x : step) (c : CollConfig) (st : State W) : State W :=
  match x with
  | Existence => after_exists c st
  | ShardedCheck => after_check c st
  | BusinessIndexes => after_indexes c st
  | ShardKeyIndex => after_shard_key c st
  | CollectionSharding => after_sharding c st
  | PreSplit => after_split c st
  end.


Lemma emitted_bind_prefix {A B} (m : M W A) (f : A -> M W B) st :
  exists rest, emitted (bind m f st) = emitted (m st) ++ rest.
Proof.
  destruct (value (m st)) as [e | a] eqn:Hv.
  - rewrite (run_bind_error _ _ _ _ Hv). exists []. cbn [emitted]. symmetry. apply app_nil_r.
  - rewrite (run_bind_value _ _ _ _ Hv). cbn [emitted]. eexists. reflexivity.
Qed.

(** A step that is reached is run. *)
Lemma step_is_run (x : step) c st :
  reached x c st ->
  exists rest,
    emitted (processCollection_try env config c st)
    = events_before x c st ++ step_events x c st ++ rest.
Proof.
  intros Hr. rewrite (run_from x c st Hr). cbn [emitted].
  assert (H : exists rest,
             emitted (from_step x c (step_state x c st)) = step_events x c st ++ rest).
  { destruct x; cbn [from_step step_state step_events]; apply emitted_bind_prefix. }
  destruct H as [rest H]. exists rest. rewrite H. reflexivity.
Qed.


(** ... and when every step returns. *)
Lemma try_when_all_return c st :
  reached PreSplit c st ->
  step_thrown PreSplit c st = None ->
  processCollection_try env config c st
  = mkRun (inr tt)
          {| world := world (after_split c st);
             results := add_success (name c) (results (after_split c st)) |}
          (events_before PreSplit c st ++ step_events PreSplit c st
           ++ [Logged (LogSuccess ("表 " +:+ name c +:+ " 处理完成"))]).
Proof.
  intros Hr Ht. rewrite (run_from PreSplit c st Hr).
  cbn [step_thrown] in Ht. apply thrown_none_unit in Ht.
  cbn [from_step step_state]. rewrite (run_bind_value _ _ _ _ Ht).
  cbn [value final emitted]. reflexivity.
Qed.


(** [processCollection] around a [try] block that returns. *)
Lemma processCollection_when_returned c st s evs :
  processCollection_try env config c st = mkRun (inr tt) s evs ->
  processCollection env config c st
  = mkRun (inr tt) s
          (Logged LogDivider
           :: Logged (LogInfo ("处理表: " +:+ name c +:+ " (" +:+ description c +:+ ")"))
           :: evs).
Proof.
  intros H. unfold processCollection, logger_divider, logger_info.
  do 2 apply step_emit. apply step_try_returned. exact H.
Qed.


(** The steps leave the tally alone. *)
Lemma step_end_results (x : step) c st : results (step_end x c st) = results st.
Proof.
  assert (H1 : results (after_exists c st) = results st)
    by apply (untouched_processCollection_exists env config c st).
  assert (H2 : results (after_check c st) = results st).
  { unfold after_check. rewrite <- H1.
    assert (U : untouched (checkIfSharded env (fullNameOf config c))).
    { unfold untouched, checkIfSharded.
      apply (keeps_bind _ _ same_results_trans);
        [apply untouched_invoke | intros ?; apply (keeps_ret _ _ same_results_refl)]. }
    apply (U (after_exists c st)). }
  assert (H3 : results (after_indexes c st) = results st).
  { unfold after_indexes. rewrite <- H2.
    apply (untouched_createIndexes env config c (after_check c st)). }
  assert (H4 : results (after_shard_key c st) = results st).
  { unfold after_shard_key. rewrite <- H3.
    apply (untouched_createShardKeyIndex env config c (after_indexes c st)). }
  assert (H5 : results (after_sharding c st) = results st).
  { unfold after_sharding. rewrite <- H4.
    apply (untouched_enableCollectionSharding env config c (after_shard_key c st)). }
  destruct x; cbn [step_end]; try assumption.
  unfold after_split. rewrite <- H5.
  apply (untouched_preSplitChunks env config c (after_sharding c st)).
Qed.


End TryBlock.

(** ** The errors that a step throws on *)

Section StepErrors.

Context {W : Type}.
Variable env : Env W.
Variable config : Config.

Ltac run :=
  unfold bind, try_catch, invoke, when, logger_info, logger_success, logger_warning,
    logger_error, logger_section, logger_divider, sleep, emit, ret, throw;
  cbn [value final emitted world results fst snd].




Lemma createShardKeyIndex_error_calls c st existing e :
  dryRun (options config) = false ->
  fst (handle env (GetIndexes (name c)) (world st)) = inr existing ->
  index_exists existing (shardKey c) = false ->
  fst (handle env (CreateIndex (name c) (shardKey c)
                               [("background", JBool (backgroundIndex (options config)))])
              (snd (handle env (GetIndexes (name c)) (world st)))) = inl e ->
  calls_of (emitted (createShardKeyIndex env config c st))
  = [GetIndexes (name c);
     CreateIndex (name c) (shardKey c)
                 [("background", JBool (backgroundIndex (options config)))]].
Proof.
  intros actual Hget Hex H. unfold createShardKeyIndex. run. rewrite Hget.
  cbn [value final emitted]. rewrite Hex, actual. cbn [value final emitted world].
  rewrite H. reflexivity.
Qed.

(** In an actual run the collection-level step makes one call, whatever
    comes of it. *)
Lemma enableCollectionSharding_calls c st :
  dryRun (options config) = false ->
  calls_of (emitted (enableCollectionSharding env config c st))
  = [ShardCollection (fullNameOf config c) (shardKey c)].
Proof.
  intros actual. unfold enableCollectionSharding. cbv zeta. rewrite actual. run.
  destruct (fst (handle env (ShardCollection (fullNameOf config c) (shardKey c)) (world st)))
    as [e | result]; cbn [value final emitted].
  - destruct (includes (message e) "already sharded"); [reflexivity |].
    destruct (includes (message e) "create an index"); reflexivity.
  - destruct (ok_is_1 result); [reflexivity |]. cbn [value final emitted message].
    destruct (includes _ "already sharded"); [reflexivity |].
    destruct (includes _ "create an index"); reflexivity.
Qed.



End StepErrors.



Definition create_unique_index_a : call :=
  CreateIndex "c" (asc "a")
              [("unique", JBool true); ("name", JStr "idx_a"); ("background", JBool true)].



(** A cluster that refuses to shard the collection. *)
Definition sharding_refused : call -> option string :=
  fun c =>
    match c with
    | ShardCollection _ _ => Some "not authorized on d to execute command"
    | _ => None
    end.

Definition cluster_refusing : Mock.Cluster := {|
  Mock.currentDb := "test";
  Mock.collectionNames := ["c"];
  Mock.indexDocs := [];
  Mock.shardedKeys := [];
  Mock.chunkCounts := [];
  Mock.faults := sharding_refused
|}.


(** ** The entry point, by the outcome of [execute] *)

Section MainRuns.

Context {W : Type}.
Variable env : Env W.
Variable config : Config.

(** The state in which the new manager starts. *)
Definition fresh (st : State W) : State W := {| world := world st; results := no_results |}.

Definition banner (st : State W) : list event :=
  [ Logged (LogSection "MongoDB 分片设置脚本");
    Logged (LogInfo "版本: 1.0.0");
    Logged (LogInfo "作者: MongoDB 管理工具");
    Logged (LogInfo ("开始时间: " +:+ toISOString env (world st))) ].

Lemma main_try_run st :
  main_try env config st
  = mkRun (value (execute env config true (fresh st)))
          (final (execute env config true (fresh st)))
          (banner st ++ emitted (execute env config true (fresh st))).
Proof.
  unfold main_try, logger_section, logger_info, banner.
  change (?a :: ?b :: ?c :: [?d] ++ ?l) with (a :: b :: c :: d :: l).
  do 3 apply step_emit. apply step_observe. apply step_emit. apply step_update.
  apply run_eta.
Qed.

Lemma main_on_success st :
  value (execute env config true (fresh st)) = inr tt ->
  main env config st
  = mkRun (inr tt) (final (execute env config true (fresh st)))
          (banner st ++ emitted (execute env config true (fresh st))).
Proof.
  intros Hv. unfold main. apply step_try_returned.
  rewrite main_try_run, Hv. reflexivity.
Qed.

Lemma main_on_failure st e :
  value (execute env config true (fresh st)) = inl e ->
  main env config st
  = mkRun (inr tt) (final (execute env config true (fresh st)))
          ((banner st ++ emitted (execute env config true (fresh st)))
             ++ [Logged (LogError ("脚本执行失败: " +:+ message e)); Exited 1]).
Proof.
  intros Hv. unfold main.
  rewrite (step_try_caught _ _ st e (final (execute env config true (fresh st)))
                           (banner st ++ emitted (execute env config true (fresh st))))
    by (rewrite main_try_run, Hv; reflexivity).
  reflexivity.
Qed.

End MainRuns.

(** ** Only [main] ends the process *)

Section NoExit.

Context {W : Type}.
Variable env : Env W.
Variable config : Config.

Definition any_state (s s' : State W) : Prop := True.

Definition no_exit (e : event) : Prop :=
  match e with
  | Exited _ => False
  | _ => True
  end.

Lemma any_state_refl : forall st, any_state st st.
Proof. intros st. exact I. Qed.

Lemma any_state_trans : forall s1 s2 s3, any_state s1 s2 -> any_state s2 s3 -> any_state s1 s3.
Proof. intros s1 s2 s3 _ _. exact I. Qed.

Definition stays {A} (m : M W A) : Prop := keeps any_state no_exit m.

Lemma stays_log (l : logline) : stays (emit (Logged l)).
Proof. apply (keeps_emit _ _ any_state_refl). exact I. Qed.

Lemma stays_sleep (ms : Z) : stays (sleep ms).
Proof. apply (keeps_emit _ _ any_state_refl). exact I. Qed.

Lemma stays_invoke (c : call) : stays (invoke env c).
Proof. intros st; split; [exact I | repeat constructor]. Qed.

Lemma stays_update_results (f : Results -> Results) : stays (update_results f).
Proof. intros st; split; [exact I | constructor]. Qed.

Ltac stays_leaf :=
  lazymatch goal with
  | |- keeps _ _ (logger_info _) => apply stays_log
  | |- keeps _ _ (logger_success _) => apply stays_log
  | |- keeps _ _ (logger_warning _) => apply stays_log
  | |- keeps _ _ (logger_error _) => apply stays_log
  | |- keeps _ _ (logger_section _) => apply stays_log
  | |- keeps _ _ logger_divider => apply stays_log
  | |- keeps _ _ (sleep _) => apply stays_sleep
  | |- keeps _ _ (update_results _) => apply stays_update_results
  | |- keeps _ _ (invoke _ _) => apply stays_invoke
  end.

Ltac stays_go := keeps_go any_state_refl any_state_trans ltac:(idtac; stays_leaf).

Lemma stays_split_loop fullName needed turns :
  forall i created, stays (split_loop env fullName needed turns i created).
Proof.
  induction turns as [| turns IH]; intros i created; cbn [split_loop].
  - apply (keeps_ret _ _ any_state_refl).
  - apply (keeps_bind _ _ any_state_trans).
    + unfold split_turn. stays_go.
    + intros [c | c]; [apply IH | apply (keeps_ret _ _ any_state_refl)].
Qed.

Lemma stays_processCollection c : stays (processCollection env config c).
Proof.
  unfold stays, processCollection, processCollection_try, processCollection_exists,
    checkCollectionExists,
    checkIfSharded, push_skipped, push_success, push_failed, createIndexes,
    createShardKeyIndex, enableCollectionSharding, preSplitChunks.
  keeps_go any_state_refl any_state_trans
    ltac:(first [ stays_leaf
                | lazymatch goal with
                  | |- keeps _ _ (split_loop _ _ _ _ _ _) => apply stays_split_loop
                  | |- keeps _ _ (createIndex_turn _ _ _ _ _ _) => unfold createIndex_turn
                  end ]).
Qed.

Lemma stays_execute v : stays (execute env config v).
Proof.
  unfold stays, execute, execute_try, validateConnection, enableDatabaseSharding,
    validateResults, validateIndexes, validateSharding, validateDataDistribution,
    showSummary, showRecommendations.
  keeps_go any_state_refl any_state_trans
    ltac:(first [ stays_leaf
                | lazymatch goal with
                  | |- keeps _ _ (processCollection _ _ _) => apply stays_processCollection
                  end ]).
Qed.

Lemma exit_code_no_exit evs : Forall no_exit evs -> exit_code evs = 0%Z.
Proof.
  induction 1 as [| e evs He _ IH]; [reflexivity |].
  destruct e; cbn; solve [exact IH | destruct He].
Qed.

Lemma exit_code_after evs evs' : Forall no_exit evs -> exit_code (evs ++ evs') = exit_code evs'.
Proof.
  induction 1 as [| e evs He _ IH]; [reflexivity |].
  destruct e; cbn; solve [exact IH | destruct He].
Qed.

Lemma no_exit_banner st : Forall no_exit (banner env st).
Proof. repeat constructor. Qed.

End NoExit.

(** ** Fatal errors *)

Section Fatal.

Context {W : Type}.
Variable env : Env W.
Variable config : Config.

(** Steps 1 and 2 of [execute]. *)
Definition preamble : M W unit :=
  bind (validateConnection env) (fun _ => enableDatabaseSharding env config).

Definition header : list event :=
  [ Logged (LogSection "开始 MongoDB 分片设置");
    Logged (LogInfo ("数据库: " +:+ database config));
    Logged (LogInfo ("目标表: " +:+ join ", " (map name (collections config))));
    Logged (LogInfo ("模式: " +:+ if dryRun (options config) then "试运行" else "实际执行")) ].

Lemma run_log_throw (l : logline) (e : Error) (s : State W) :
  bind (emit (Logged l)) (fun _ => @throw W unit e) s = mkRun (inl e) s [Logged l].
Proof. reflexivity. Qed.

Lemma execute_try_on_fatal v st e :
  value (preamble st) = inl e ->
  execute_try env config v st = mkRun (inl e) (final (preamble st)) (emitted (preamble st)).
Proof.
  unfold preamble, execute_try. intros H.
  destruct (value (validateConnection env st)) as [e0 | []] eqn:Hvc.
  - rewrite (run_bind_error _ _ _ _ Hvc) in H. cbn [value] in H.
    injection H as ->.
    rewrite !(run_bind_error _ _ _ _ Hvc). reflexivity.
  - rewrite (run_bind_value _ _ _ _ Hvc) in H. cbn [value] in H.
    rewrite !(run_bind_value _ _ _ _ Hvc). cbn [value final emitted].
    rewrite (run_bind_error _ _ _ _ H). reflexivity.
Qed.

Lemma execute_on_fatal v st e :
  value (preamble st) = inl e ->
  execute env config v st
  = mkRun (inl e) (final (preamble st))
          (header ++ emitted (preamble st) ++ [Logged (LogError ("执行失败: " +:+ message e))]).
Proof.
  intros H. unfold execute, header, logger_section, logger_info.
  change (?a :: ?b :: ?c :: [?d] ++ ?l) with (a :: b :: c :: d :: l).
  do 4 apply step_emit.
  rewrite (step_try_caught _ _ st e _ _ (execute_try_on_fatal v st e H)).
  unfold logger_error. rewrite run_log_throw. reflexivity.
Qed.

Lemma calls_of_header : calls_of header = [].
Proof. reflexivity. Qed.

Lemma calls_of_banner st : calls_of (banner env st) = [].
Proof. reflexivity. Qed.

Lemma no_exit_header : Forall no_exit header.
Proof. repeat constructor. Qed.

End Fatal.

(** C4. A failure of the connection check or of the database-level sharding
    step aborts the run: [main] calls [process.exit(1)], no collection is
    processed and no call follows the failing step.  When both steps pass,
    the process is not ended with an error code whatever happens to the
    collections: an exception in the processing of a collection is caught,
    recorded in [failed], and the loop goes on with the next collection, so
    that every configured collection is recorded. *)
Theorem fatal_and_per_collection_failures :
  forall (W : Type) (env : Env W) (config : Config) (st : State W),
    (forall e,
        value (preamble env config (fresh st)) = inl e ->
        exit_code (emitted (main env config st)) = 1%Z
        /\ results (final (main env config st)) = no_results
        /\ calls_of (emitted (main env config st))
           = calls_of (emitted (preamble env config (fresh st))))
    /\ (value (preamble env config (fresh st)) = inr tt ->
        exit_code (emitted (main env config st)) = 0%Z
        /\ Permutation (recorded (results (final (main env config st))))
                       (map name (collections config)))
    /\ (forall c s e,
           value (processCollection_try env config c s) = inl e ->
           value (processCollection env config c s) = inr tt
           /\ In {| collection := name c; failure_error := message e |}
                 (failed (results (final (processCollection env config c s)))))
    /\ (forall c l s,
           let r := processCollection env config c s in
           let r' := forEach (processCollection env config) l (final r) in
           forEach (processCollection env config) (c :: l) s
           = mkRun (value r') (final r') (emitted r ++ emitted r')).
Proof.
  intros W env config st. repeat apply conj.
  - intros e H.
    pose proof (execute_on_fatal env config true (fresh st) e H) as Hx.
    assert (Hv : value (execute env config true (fresh st)) = inl e)
      by (rewrite Hx; reflexivity).
    rewrite (main_on_failure env config st e Hv). cbn [emitted final].
    repeat apply conj.
    + rewrite exit_code_after; [reflexivity |].
      apply Forall_app; split;
        [apply no_exit_banner | apply (stays_execute env config true (fresh st))].
    + rewrite Hx. cbn [final].
      destruct (untouched_validateConnection env (fresh st)) as [E1 _].
      destruct (untouched_enableDatabaseSharding
                  env config (final (validateConnection env (fresh st)))) as [E2 _].
      unfold same_results in E1, E2. unfold preamble, bind.
      destruct (value (validateConnection env (fresh st))); cbn [final].
      * rewrite E1. reflexivity.
      * rewrite E2, E1. reflexivity.
    + rewrite !calls_of_app, calls_of_banner, Hx. cbn [emitted].
      rewrite !calls_of_app, calls_of_header. cbn [calls_of app].
      rewrite !app_nil_r. reflexivity.
  - intros H.
    destruct (execute_try_records env config true (fresh st) H) as [Hv Hp].
    destruct (execute_after_try env config true (fresh st) Hv) as [Ev Ef].
    rewrite (main_on_success env config st Ev). cbn [emitted final].
    split.
    + apply exit_code_no_exit.
      apply Forall_app; split;
        [apply no_exit_banner | apply (stays_execute env config true (fresh st))].
    + rewrite Ef. exact Hp.
  - intros c s e Hv.
    destruct (processCollection_on_throw env config c s e Hv) as [H1 [H2 _]].
    split; [exact H1 |]. rewrite H2. cbn [add_failed failed].
    apply in_or_app. right. left. reflexivity.
  - intros c l s. cbv zeta. cbn [forEach].
    rewrite (run_bind_value _ _ s tt (processCollection_returns env config c s)).
    reflexivity.
Qed.

(** A cluster that refuses to enable sharding on the database. *)
Definition enabling_refused : call -> option string :=
  fun c =>
    match c with
    | EnableSharding _ => Some "not authorized on admin to execute command"
    | _ => None
    end.

Definition cluster_unauthorized : Mock.Cluster := {|
  Mock.currentDb := "test";
  Mock.collectionNames := ["c"];
  Mock.indexDocs := [];
  Mock.shardedKeys := [];
  Mock.chunkCounts := [];
  Mock.faults := enabling_refused
|}.

Lemma fatal_and_per_collection_failures_witness :
  (value (preamble Mock.env one_collection (fresh (Mock.start cluster_unauthorized)))
   = inl {| message := "not authorized on admin to execute command" |}
   /\ exit_code (emitted (main Mock.env one_collection (Mock.start cluster_unauthorized)))
      = 1%Z
   /\ results (final (main Mock.env one_collection (Mock.start cluster_unauthorized)))
      = no_results)
  /\ (value (processCollection_try Mock.env one_collection collection_c
                                   (Mock.start cluster_refusing))
      = inl {| message := "not authorized on d to execute command" |}
      /\ In {| collection := "c";
               failure_error := "not authorized on d to execute command" |}
            (failed (results (final (processCollection Mock.env one_collection collection_c
                                                       (Mock.start cluster_refusing))))))
  /\ (value (preamble Mock.env one_collection (fresh (Mock.start cluster_refusing))) = inr tt
      /\ exit_code (emitted (main Mock.env one_collection (Mock.start cluster_refusing)))
         = 0%Z).
Proof.
  assert (Hfatal : value (preamble Mock.env one_collection
                                   (fresh (Mock.start cluster_unauthorized)))
                   = inl {| message := "not authorized on admin to execute command" |})
    by (vm_compute; reflexivity).
  assert (Hthrown : value (processCollection_try Mock.env one_collection collection_c
                                                 (Mock.start cluster_refusing))
                    = inl {| message := "not authorized on d to execute command" |})
    by (vm_compute; reflexivity).
  assert (Hfine : value (preamble Mock.env one_collection
                                  (fresh (Mock.start cluster_refusing))) = inr tt)
    by (vm_compute; reflexivity).
  destruct (fatal_and_per_collection_failures
              _ Mock.env one_collection (Mock.start cluster_unauthorized))
    as [Hone [_ [Hthree _]]].
  destruct (fatal_and_per_collection_failures
              _ Mock.env one_collection (Mock.start cluster_refusing))
    as [_ [Htwo _]].
  split; [| split].
  - split; [exact Hfatal |].
    destruct (Hone _ Hfatal) as [Hcode [Hres _]]. split; [exact Hcode | exact Hres].
  - split; [exact Hthrown |].
    exact (proj2 (Hthree collection_c (Mock.start cluster_refusing) _ Hthrown)).
  - split; [exact Hfine |]. exact (proj1 (Htwo Hfine)).
Defined.

(** ** The calls of each step *)

Section Steps.

Context {W : Type}.
Variable env : Env W.
Variable config : Config.

Ltac run :=
  unfold bind, try_catch, invoke, when, logger_info, logger_success, logger_warning,
    logger_error, logger_section, logger_divider, sleep, emit, ret, throw;
  cbn [value final emitted world results fst snd].

(** The [createIndex] call of the script for a configured index. *)
Definition creation (c : CollConfig) (ic : IndexConfig) : call :=
  CreateIndex (name c) (key ic)
              (set_property "background" (JBool (backgroundIndex (options config)))
                            (indexOptions ic)).

(** The configured indexes that [existing] does not have, by key pattern. *)
Definition missing (existing : list IndexDoc) (idxs : list IndexConfig) : list IndexConfig :=
  filter (fun ic => negb (index_exists existing (key ic))) idxs.

Lemma createIndex_turn_calls c existing i ic st :
  value (createIndex_turn env config c existing i ic st) = inr tt
  /\ calls_of (emitted (createIndex_turn env config c existing i ic st))
     = if index_exists existing (key ic) then []
       else if dryRun (options config) then [] else [creation c ic].
Proof.
  unfold createIndex_turn, creation.
  destruct (index_exists existing (key ic)); [split; reflexivity |].
  destruct (dryRun (options config)); [split; reflexivity |].
  run.
  destruct (fst (handle env (CreateIndex _ _ _) (world st))) as [e | []];
    cbn [value final emitted]; [split; reflexivity |].
  destruct (backgroundIndex (options config)); split; reflexivity.
Qed.

Lemma forEntries_createIndex_calls c existing idxs :
  forall i st,
    value (forEntries (createIndex_turn env config c existing) i idxs st) = inr tt
    /\ calls_of (emitted (forEntries (createIndex_turn env config c existing) i idxs st))
       = if dryRun (options config) then [] else map (creation c) (missing existing idxs).
Proof.
  induction idxs as [| ic idxs IH]; intros i st; cbn [forEntries].
  - split; [reflexivity |]. destruct (dryRun (options config)); reflexivity.
  - destruct (createIndex_turn_calls c existing i ic st) as [Hv Hc].
    rewrite (run_bind_value _ _ _ _ Hv). cbn [value emitted].
    destruct (IH (S i) (final (createIndex_turn env config c existing i ic st)))
      as [Hv' Hc'].
    split; [exact Hv' |].
    rewrite calls_of_app, Hc, Hc'. unfold missing. cbn [filter].
    destruct (index_exists existing (key ic)); cbn [negb];
      destruct (dryRun (options config)); reflexivity.
Qed.

(** The calls of [createIndexes], once [getIndexes] has answered. *)
Lemma createIndexes_calls c st existing :
  fst (handle env (GetIndexes (name c)) (world st)) = inr existing ->
  value (createIndexes env config c st) = inr tt
  /\ calls_of (emitted (createIndexes env config c st))
     = match indexes c with
       | None | Some [] => []
       | Some idxs =>
           GetIndexes (name c)
           :: (if dryRun (options config) then [] else map (creation c) (missing existing idxs))
       end.
Proof.
  intros Hget. unfold createIndexes.
  destruct (indexes c) as [[| ic idxs] |]; try (split; reflexivity).
  set (l := ic :: idxs).
  unfold logger_info. rewrite run_emit_bind. cbn [value emitted calls_of].
  assert (Hi : value (invoke env (GetIndexes (name c)) st) = inr existing) by exact Hget.
  rewrite (run_bind_value _ _ _ _ Hi). cbn [value emitted invoke calls_of app].
  destruct (forEntries_createIndex_calls
              c existing l 0 (final (invoke env (GetIndexes (name c)) st))) as [Hv Hc].
  split; [exact Hv | rewrite Hc; reflexivity].
Qed.

(** The calls of [createShardKeyIndex], once [getIndexes] has answered. *)
Lemma createShardKeyIndex_calls c st existing :
  fst (handle env (GetIndexes (name c)) (world st)) = inr existing ->
  calls_of (emitted (createShardKeyIndex env config c st))
  = GetIndexes (name c)
    :: (if index_exists existing (shardKey c) then []
        else if dryRun (options config) then []
             else [CreateIndex (name c) (shardKey c)
                               [("background", JBool (backgroundIndex (options config)))]]).
Proof.
  intros Hget. unfold createShardKeyIndex.
  unfold logger_info at 1. rewrite run_emit_bind. cbn [emitted calls_of].
  assert (Hi : value (invoke env (GetIndexes (name c)) st) = inr existing) by exact Hget.
  rewrite (run_bind_value _ _ _ _ Hi). cbn [value emitted invoke calls_of app].
  f_equal.
  destruct (index_exists existing (shardKey c)); [reflexivity |].
  destruct (dryRun (options config)); [reflexivity |].
  run.
  destruct (fst (handle env (CreateIndex _ _ _) _)) as [e | []];
    cbn [value final emitted]; [reflexivity |].
  destruct (backgroundIndex (options config)); reflexivity.
Qed.

End Steps.

Lemma index_exists_iff existing k :
  index_exists existing k = true
  <-> exists d, In d existing /\ JSON_stringify (index_key d) = JSON_stringify k.
Proof.
  unfold index_exists. rewrite existsb_exists.
  split; intros [d [Hd He]]; exists d; split; try exact Hd.
  - apply String.eqb_eq. exact He.
  - apply String.eqb_eq. exact He.
Qed.

Lemma existsb_through {A B} (f : A -> B) (p : B -> bool) (l l' : list A) :
  map f l = map f l' -> existsb (fun x => p (f x)) l = existsb (fun x => p (f x)) l'.
Proof.
  revert l'. induction l as [| x l IH]; intros [| x' l'] H; try discriminate H; [reflexivity |].
  cbn [map] in H. injection H as Hx Hl.
  cbn [existsb]. rewrite Hx, (IH l' Hl). reflexivity.
Qed.

Lemma index_exists_keys ex ex' k :
  map (fun d => JSON_stringify (index_key d)) ex
  = map (fun d => JSON_stringify (index_key d)) ex' ->
  index_exists ex k = index_exists ex' k.
Proof.
  intros H. unfold index_exists.
  exact (existsb_through (fun d => JSON_stringify (index_key d))
                         (fun s => String.eqb s (JSON_stringify k)) ex ex' H).
Qed.

Lemma createIndexes_skips_existing {W : Type} (env : Env W) (config : Config) c st existing :
  fst (handle env (GetIndexes (name c)) (world st)) = inr existing ->
  forall coll k o,
    In (CreateIndex coll k o) (calls_of (emitted (createIndexes env config c st))) ->
    index_exists existing k = false.
Proof.
  intros Hget coll k o Hin.
  destruct (createIndexes_calls env config c st existing Hget) as [_ Hc].
  rewrite Hc in Hin.
  destruct (indexes c) as [[| ic idxs] |]; try (destruct Hin; fail).
  destruct Hin as [Hin | Hin]; [discriminate Hin |].
  destruct (dryRun (options config)); [destruct Hin |].
  apply in_map_iff in Hin. destruct Hin as [ic' [Heq Hmiss]].
  unfold creation in Heq. injection Heq as _ Hk _. subst k.
  unfold missing in Hmiss. apply filter_In in Hmiss. destruct Hmiss as [_ Hneg].
  apply negb_true_iff. exact Hneg.
Qed.

(** A cluster whose collection has a plain index on [a], built by hand. *)
Definition cluster_with_plain_index : Mock.Cluster := {|
  Mock.currentDb := "d";
  Mock.collectionNames := ["c"];
  Mock.indexDocs :=
    [("c", [Mock.id_index;
            {| index_key := asc "a"; index_name := "a_1"; index_options := [] |}])];
  Mock.shardedKeys := [];
  Mock.chunkCounts := [];
  Mock.faults := Mock.no_faults
|}.

(** C10. Whether an index exists is decided by comparing the serialized key
    pattern of each existing index with the configured one, and by nothing
    else: the answer depends on the existing indexes through the
    serializations of their keys only.  A configured index, whatever its
    options, is skipped when an index with the same serialized key pattern
    exists: its turn issues no call, and [createIndexes] creates only
    indexes whose key pattern is missing.  The shard-key index is decided
    the same way. *)
Theorem index_existence_by_key_pattern :
  forall (W : Type) (env : Env W) (config : Config),
    (forall existing k,
        index_exists existing k = true
        <-> exists d, In d existing /\ JSON_stringify (index_key d) = JSON_stringify k)
    /\ (forall ex ex' k,
           map (fun d => JSON_stringify (index_key d)) ex
           = map (fun d => JSON_stringify (index_key d)) ex' ->
           index_exists ex k = index_exists ex' k)
    /\ (forall c existing i ic st,
           index_exists existing (key ic) = true ->
           value (createIndex_turn env config c existing i ic st) = inr tt
           /\ calls_of (emitted (createIndex_turn env config c existing i ic st)) = [])
    /\ (forall c st existing,
           fst (handle env (GetIndexes (name c)) (world st)) = inr existing ->
           forall coll k o,
             In (CreateIndex coll k o) (calls_of (emitted (createIndexes env config c st))) ->
             index_exists existing k = false)
    /\ (forall c st existing,
           fst (handle env (GetIndexes (name c)) (world st)) = inr existing ->
           index_exists existing (shardKey c) = true ->
           calls_of (emitted (createShardKeyIndex env config c st)) = [GetIndexes (name c)]).
Proof.
  intros W env config. repeat apply conj.
  - apply index_exists_iff.
  - apply index_exists_keys.
  - intros c existing i ic st Hex.
    destruct (createIndex_turn_calls env config c existing i ic st) as [Hv Hc].
    rewrite Hex in Hc. split; assumption.
  - intros c st existing. apply createIndexes_skips_existing.
  - intros c st existing Hget Hex.
    rewrite (createShardKeyIndex_calls env config c st existing Hget), Hex. reflexivity.
Qed.

Lemma index_existence_by_key_pattern_witness :
  let existing := Mock.indexesOf "c" cluster_with_plain_index in
  let unique_a := idx (asc "a") (unique_named "idx_a") in
  index_exists existing (key unique_a) = true
  /\ calls_of (emitted (createIndex_turn Mock.env one_collection collection_c existing 0
                                         unique_a (Mock.start cluster_with_plain_index)))
     = [].
Proof.
  cbv zeta. split; [reflexivity |].
  exact (proj2 (proj1 (proj2 (proj2 (index_existence_by_key_pattern
                                       _ Mock.env one_collection)))
                      collection_c (Mock.indexesOf "c" cluster_with_plain_index) 0%nat
                      (idx (asc "a") (unique_named "idx_a"))
                      (Mock.start cluster_with_plain_index) eq_refl)).
Defined.

(** ** One collection *)

Section Collection.

Context {W : Type}.
Variable env : Env W.
Variable config : Config.

Ltac run :=
  unfold bind, try_catch, invoke, when, logger_info, logger_success, logger_warning,
    logger_error, logger_section, logger_divider, sleep, emit, ret, throw;
  cbn [value final emitted world results fst snd].

Lemma calls_of_bind_prefix {A B} (m : M W A) (f : A -> M W B) st :
  exists rest, calls_of (emitted (bind m f st)) = calls_of (emitted (m st)) ++ rest.
Proof.
  destruct (value (m st)) as [e | a] eqn:Hv.
  - rewrite (run_bind_error _ _ _ _ Hv). exists []. cbn [emitted]. symmetry. apply app_nil_r.
  - rewrite (run_bind_value _ _ _ _ Hv). cbn [emitted]. rewrite calls_of_app.
    eexists. reflexivity.
Qed.

Lemma processCollection_on_return c st :
  value (processCollection_try env config c st) = inr tt ->
  emitted (processCollection env config c st)
  = Logged LogDivider
    :: Logged (LogInfo ("处理表: " +:+ name c +:+ " (" +:+ description c +:+ ")"))
    :: emitted (processCollection_try env config c st).
Proof.
  intros Hv.
  unfold processCollection, logger_divider, logger_info.
  rewrite run_emit_bind. cbv beta. rewrite run_emit_bind. cbv beta.
  cbn [value final emitted].
  rewrite (run_try_value _ _ _ _ Hv). reflexivity.
Qed.

(** The calls made for a collection are those of the [try] block. *)
Lemma processCollection_calls c st :
  calls_of (emitted (processCollection env config c st))
  = calls_of (emitted (processCollection_try env config c st)).
Proof.
  destruct (value (processCollection_try env config c st)) as [e | []] eqn:Hv.
  - destruct (processCollection_on_throw env config c st e Hv) as [_ [_ H]].
    rewrite H. cbn [calls_of]. rewrite calls_of_app. cbn [calls_of]. apply app_nil_r.
  - rewrite (processCollection_on_return c st Hv). reflexivity.
Qed.

Lemma processCollection_try_prefix c st :
  exists rest,
    calls_of (emitted (processCollection_try env config c st))
    = calls_of (emitted (processCollection_exists env config c st)) ++ rest.
Proof. unfold processCollection_try. cbv zeta. apply calls_of_bind_prefix. Qed.

(** A collection that is reported absent is created, in an actual run. *)
Lemma processCollection_exists_absent c st names :
  dryRun (options config) = false ->
  fst (handle env (Use (database config)) (world st)) = inr tt ->
  fst (handle env GetCollectionNames (snd (handle env (Use (database config)) (world st))))
  = inr names ->
  existsb (String.eqb (name c)) names = false ->
  calls_of (emitted (processCollection_exists env config c st))
  = [Use (database config); GetCollectionNames; CreateCollection (name c)].
Proof.
  intros Hactual Huse Hnames Habsent.
  unfold processCollection_exists, checkCollectionExists. run.
  rewrite Huse. cbn [value final emitted world]. rewrite Hnames.
  cbn [value final emitted world]. rewrite Habsent, Hactual.
  cbn [negb value final emitted world].
  destruct (fst (handle env (CreateCollection (name c)) _)); reflexivity.
Qed.

(** With [skipExistingSharded], a collection that is reported sharded is
    left at that: it is pushed on [skipped] and no further call is made. *)
Lemma processCollection_try_skips c st k :
  skipExistingSharded (options config) = true ->
  value (processCollection_exists env config c st) = inr tt ->
  fst (handle env (CollectionsFindOne (fullNameOf config c))
              (world (final (processCollection_exists env config c st))))
  = inr (Some {| collection_key := Some k |}) ->
  value (processCollection_try env config c st) = inr tt
  /\ results (final (processCollection_try env config c st))
     = add_skipped (name c) (results st)
  /\ calls_of (emitted (processCollection_try env config c st))
     = calls_of (emitted (processCollection_exists env config c st))
       ++ [CollectionsFindOne (fullNameOf config c)].
Proof.
  intros Hskip Hex Hfind.
  destruct (untouched_processCollection_exists env config c st) as [Hres _].
  unfold same_results in Hres.
  unfold processCollection_try. cbv zeta.
  rewrite (run_bind_value _ _ _ _ Hex). cbn [value final emitted].
  set (s1 := final (processCollection_exists env config c st)) in *.
  assert (Hsh : checkIfSharded env (fullNameOf config c) s1
                = mkRun (inr true)
                        {| world := snd (handle env (CollectionsFindOne (fullNameOf config c))
                                                (world s1));
                           results := results s1 |}
                        [Called (CollectionsFindOne (fullNameOf config c))]).
  { unfold checkIfSharded. run. rewrite Hfind. reflexivity. }
  rewrite (run_bind_value _ _ s1 true) by (rewrite Hsh; reflexivity).
  rewrite Hsh. cbn [value final emitted]. rewrite Hskip. cbn [andb].
  unfold logger_info. rewrite run_emit_bind.
  unfold push_skipped, update_results. cbn [value final emitted results world].
  rewrite Hres, calls_of_app.
  repeat split; reflexivity.
Qed.

End Collection.

(** C8. In an actual run, when a collection is reported absent by the
    existence check, the calls made for it start with the switch to the
    database, the existence check and [createCollection]: the collection is
    created before any index creation, or anything else, is attempted for
    it. *)
Theorem collection_created_before_indexes :
  forall (W : Type) (env : Env W) (config : Config) (c : CollConfig) (st : State W)
         (names : list string),
    dryRun (options config) = false ->
    fst (handle env (Use (database config)) (world st)) = inr tt ->
    fst (handle env GetCollectionNames (snd (handle env (Use (database config)) (world st))))
    = inr names ->
    existsb (String.eqb (name c)) names = false ->
    exists pre post,
      calls_of (emitted (processCollection env config c st))
      = pre ++ CreateCollection (name c) :: post
      /\ pre = [Use (database config); GetCollectionNames]
      /\ forall coll k o, ~ In (CreateIndex coll k o) pre.
Proof.
  intros W env config c st names Hactual Huse Hnames Habsent.
  rewrite processCollection_calls.
  destruct (processCollection_try_prefix env config c st) as [rest Hrest].
  rewrite Hrest.
  rewrite (processCollection_exists_absent env config c st names Hactual Huse Hnames Habsent).
  exists [Use (database config); GetCollectionNames], rest.
  split; [reflexivity | split; [reflexivity |]].
  intros coll k o [H | [H | []]]; discriminate H.
Qed.

Lemma collection_created_before_indexes_witness :
  exists pre post,
    calls_of (emitted (processCollection Mock.env one_collection collection_c
                                         (Mock.start Mock.empty)))
    = pre ++ CreateCollection "c" :: post
    /\ pre = [Use "d"; GetCollectionNames]
    /\ forall coll k o, ~ In (CreateIndex coll k o) pre.
Proof.
  exact (collection_created_before_indexes
           _ Mock.env one_collection collection_c (Mock.start Mock.empty) []
           eq_refl eq_refl eq_refl eq_refl).
Defined.

(** The configuration with [skipExistingSharded] switched off. *)
Definition one_collection_again : Config := {|
  connectionString := "";
  database := "d";
  collections := [ collection_c ];
  sharding := {| initialChunks := 3; chunkSizeMB := 64; enableBalancer := true |};
  options := {| skipExistingSharded := false;
                backgroundIndex := true;
                validateResults_opt := true;
                dryRun := false |}
|}.

(** C5, as stated, fails: with [skipExistingSharded] off, the second of two
    runs issues [shardCollection] for the collection again, and records the
    collection, sharded by the first run, as a success. *)
Lemma rerun_counterexample :
  let r1 := main Mock.env one_collection_again (Mock.start Mock.empty) in
  let r2 := main Mock.env one_collection_again (final r1) in
  In (ShardCollection "d.c" (asc "uid")) (calls_of (emitted r1))
  /\ In (ShardCollection "d.c" (asc "uid")) (calls_of (emitted r2))
  /\ results (final r2) = {| success := ["c"]; skipped := []; failed := [] |}.
Proof.
  cbv zeta. split; [vm_compute; tauto |].
  split; [vm_compute; tauto | vm_compute; reflexivity].
Qed.

(** The calls of the steps after the sharded check. *)
Definition later_step (c : call) : bool :=
  match c with
  | GetIndexes _ | CreateIndex _ _ _ | ShardCollection _ _
  | ChunksCountDocuments _ | SplitFind _ _ => true
  | _ => false
  end.

Lemma processCollection_exists_no_later_step {W : Type} (env : Env W) (config : Config) c st :
  forall c', In c' (calls_of (emitted (processCollection_exists env config c st))) ->
             later_step c' = false.
Proof.
  assert (H : keeps (@any_state W) (fun e => match e with
                                             | Called c' => later_step c' = false
                                             | _ => True
                                             end)
                    (processCollection_exists env config c)).
  { unfold processCollection_exists, checkCollectionExists.
    keeps_go (@any_state_refl W) (@any_state_trans W)
      ltac:(idtac; lazymatch goal with
                   | |- keeps _ _ (logger_warning _) =>
                       apply (keeps_emit _ _ (@any_state_refl W)); exact I
                   | |- keeps _ _ (logger_success _) =>
                       apply (keeps_emit _ _ (@any_state_refl W)); exact I
                   | |- keeps _ _ (invoke _ _) =>
                       intros ?; split; [exact I | repeat constructor]
                   end). }
  destruct (H st) as [_ HP]. clear H.
  induction HP as [| e evs He _ IH]; intros c' Hin; [destruct Hin |].
  destruct e as [c0 | l | ms | code]; cbn [calls_of] in Hin; try (apply IH; exact Hin).
  destruct Hin as [<- | Hin]; [exact He | apply IH; exact Hin].
Qed.

Section Rerun.

Context {W : Type}.
Variable env : Env W.
Variable config : Config.

Lemma checkIfSharded_answered fullName st d :
  fst (handle env (CollectionsFindOne fullName) (world st)) = inr d ->
  value (checkIfSharded env fullName st)
  = inr (match d with
         | Some doc => match collection_key doc with Some _ => true | None => false end
         | None => false
         end).
Proof.
  intros H. unfold checkIfSharded, bind, invoke, ret.
  cbn [value final emitted world results fst snd]. rewrite H. reflexivity.
Qed.

(** In an actual run the pre-split step starts with the chunk count. *)
Lemma preSplitChunks_counts_first c st :
  dryRun (options config) = false ->
  exists rest,
    calls_of (emitted (preSplitChunks env config c st))
    = ChunksCountDocuments (fullNameOf config c) :: rest.
Proof.
  intros actual. unfold preSplitChunks. cbv zeta. rewrite actual.
  unfold logger_info. rewrite run_emit_bind. cbv beta. cbn [emitted calls_of].
  match goal with
  | |- context [bind ?m ?f ?s] => destruct (calls_of_bind_prefix m f s) as [rest H]
  end.
  rewrite H. exists rest. reflexivity.
Qed.

Lemma events_before_split c st :
  events_before env config PreSplit c st
  = events_before env config CollectionSharding c st
    ++ step_events env config CollectionSharding c st.
Proof. cbn [events_before]. rewrite <- !app_assoc. reflexivity. Qed.

(** With [skipExistingSharded] unset, a collection that is sharded already
    is processed like any other: once the index steps have returned,
    [shardCollection] is issued for it again; when the cluster answers
    that the collection is sharded already, the error is swallowed, the
    pre-split step follows, and the collection is a success when that step
    returns. *)
Lemma rerun_without_skipping c st k :
  skipExistingSharded (options config) = false ->
  dryRun (options config) = false ->
  value (processCollection_exists env config c st) = inr tt ->
  fst (handle env (CollectionsFindOne (fullNameOf config c))
              (world (after_exists env config c st)))
  = inr (Some {| collection_key := Some k |}) ->
  value (createIndexes env config c (after_check env config c st)) = inr tt ->
  value (createShardKeyIndex env config c (after_indexes env config c st)) = inr tt ->
  (exists rest,
      calls_of (emitted (processCollection env config c st))
      = calls_of (events_before env config CollectionSharding c st)
        ++ ShardCollection (fullNameOf config c) (shardKey c) :: rest)
  /\ forall e,
      fst (handle env (ShardCollection (fullNameOf config c) (shardKey c))
                  (world (after_shard_key env config c st))) = inl e ->
      includes (message e) "already sharded" = true ->
      (exists rest,
          calls_of (emitted (processCollection env config c st))
          = calls_of (events_before env config CollectionSharding c st)
            ++ ShardCollection (fullNameOf config c) (shardKey c)
            :: ChunksCountDocuments (fullNameOf config c) :: rest)
      /\ (value (preSplitChunks env config c (after_sharding env config c st)) = inr tt ->
          results (final (processCollection env config c st))
          = add_success (name c) (results st)).
Proof.
  intros Hskip Hactual Hex Hfind Hidx Hkey.
  assert (Hr : reached env config CollectionSharding c st).
  { cbn [reached step_thrown]. unfold thrown. rewrite Hex, Hidx, Hkey.
    split; [reflexivity |]. split; [| split; reflexivity].
    exists true. split; [| rewrite Hskip; reflexivity].
    rewrite (checkIfSharded_answered _ _ _ Hfind). reflexivity. }
  split.
  - destruct (step_is_run env config CollectionSharding c st Hr) as [rest H].
    rewrite processCollection_calls, H, !calls_of_app.
    cbn [step_events]. rewrite (enableCollectionSharding_calls env config c _ Hactual).
    exists (calls_of rest). reflexivity.
  - intros e Hthrow Hbenign.
    assert (Hsh : step_thrown env config CollectionSharding c st = None).
    { cbn [step_thrown]. unfold thrown.
      rewrite (enableCollectionSharding_on_error env config Hactual c _ e Hthrow), Hbenign.
      reflexivity. }
    assert (Hr' : reached env config PreSplit c st).
    { destruct Hr as [H0 [G [H2 H3]]]. repeat split; assumption. }
    split.
    + destruct (step_is_run env config PreSplit c st Hr') as [rest H].
      rewrite processCollection_calls, H, events_before_split, !calls_of_app.
      cbn [step_events]. rewrite (enableCollectionSharding_calls env config c _ Hactual).
      destruct (preSplitChunks_counts_first c (after_sharding env config c st) Hactual)
        as [rest' H'].
      rewrite H'. exists (rest' ++ calls_of rest).
      rewrite <- app_assoc. reflexivity.
    + intros Hsplit.
      assert (Hsp : step_thrown env config PreSplit c st = None).
      { cbn [step_thrown]. unfold thrown. rewrite Hsplit. reflexivity. }
      rewrite (processCollection_when_returned
                 env config c st _ _ (try_when_all_return env config c st Hr' Hsp)).
      cbn [final results].
      f_equal. exact (step_end_results env config PreSplit c st).
Qed.

End Rerun.

(** C5, amended.  A rerun is guarded as follows.  An index, configured or on
    the shard key, whose serialized key pattern is among the indexes the
    collection reports, is not created again.  With [skipExistingSharded]
    set, a collection reported as sharded gets no call after the sharded
    check (no index listing or creation, no shardCollection, no chunk count
    or split) and is recorded as skipped.  With it unset, in an actual run,
    a collection reported as sharded is processed like any other: once the
    index steps have returned, shardCollection is issued for it again; its
    'already sharded' error is swallowed, the pre-split step follows, and
    the collection is recorded as a success when that step returns. *)
Theorem rerun_is_guarded :
  forall (W : Type) (env : Env W) (config : Config),
    (forall c st existing,
        fst (handle env (GetIndexes (name c)) (world st)) = inr existing ->
        value (createIndexes env config c st) = inr tt
        /\ forall coll k o,
            In (CreateIndex coll k o) (calls_of (emitted (createIndexes env config c st))) ->
            index_exists existing k = false)
    /\ (forall c st existing,
           fst (handle env (GetIndexes (name c)) (world st)) = inr existing ->
           index_exists existing (shardKey c) = true ->
           calls_of (emitted (createShardKeyIndex env config c st)) = [GetIndexes (name c)])
    /\ (skipExistingSharded (options config) = true ->
        forall c st k,
          value (processCollection_exists env config c st) = inr tt ->
          fst (handle env (CollectionsFindOne (fullNameOf config c))
                      (world (final (processCollection_exists env config c st))))
          = inr (Some {| collection_key := Some k |}) ->
          value (processCollection env config c st) = inr tt
          /\ results (final (processCollection_try env config c st))
             = add_skipped (name c) (results st)
          /\ forall c', In c' (calls_of (emitted (processCollection env config c st))) ->
                        later_step c' = false)
    /\ (dryRun (options config) = false ->
        forall c st e,
          fst (handle env (ShardCollection (fullNameOf config c) (shardKey c)) (world st))
          = inl e ->
          includes (message e) "already sharded" = true ->
          value (enableCollectionSharding env config c st) = inr tt
          /\ In (ShardCollection (fullNameOf config c) (shardKey c))
                (calls_of (emitted (enableCollectionSharding env config c st))))
    /\ (skipExistingSharded (options config) = false ->
        dryRun (options config) = false ->
        forall c st k,
          value (processCollection_exists env config c st) = inr tt ->
          fst (handle env (CollectionsFindOne (fullNameOf config c))
                      (world (after_exists env config c st)))
          = inr (Some {| collection_key := Some k |}) ->
          value (createIndexes env config c (after_check env config c st)) = inr tt ->
          value (createShardKeyIndex env config c (after_indexes env config c st)) = inr tt ->
          (exists rest,
              calls_of (emitted (processCollection env config c st))
              = calls_of (events_before env config CollectionSharding c st)
                ++ ShardCollection (fullNameOf config c) (shardKey c) :: rest)
          /\ forall e,
              fst (handle env (ShardCollection (fullNameOf config c) (shardKey c))
                          (world (after_shard_key env config c st))) = inl e ->
              includes (message e) "already sharded" = true ->
              (exists rest,
                  calls_of (emitted (processCollection env config c st))
                  = calls_of (events_before env config CollectionSharding c st)
                    ++ ShardCollection (fullNameOf config c) (shardKey c)
                    :: ChunksCountDocuments (fullNameOf config c) :: rest)
              /\ (value (preSplitChunks env config c (after_sharding env config c st))
                  = inr tt ->
                  results (final (processCollection env config c st))
                  = add_success (name c) (results st))).
Proof.
  intros W env config. repeat apply conj.
  - intros c st existing Hget. split.
    + apply (createIndexes_calls env config c st existing Hget).
    + apply (createIndexes_skips_existing env config c st existing Hget).
  - intros c st existing Hget Hex.
    rewrite (createShardKeyIndex_calls env config c st existing Hget), Hex. reflexivity.
  - intros Hskip c st k Hex Hfind.
    destruct (processCollection_try_skips env config c st k Hskip Hex Hfind)
      as [Hv [Hres Hcalls]].
    split; [apply processCollection_returns | split; [exact Hres |]].
    intros c' Hin. rewrite processCollection_calls, Hcalls in Hin.
    apply in_app_or in Hin. destruct Hin as [Hin | [<- | []]].
    + exact (processCollection_exists_no_later_step env config c st c' Hin).
    + reflexivity.
  - intros Hactual c st e Hthrow Hbenign. split.
    + rewrite (enableCollectionSharding_on_error env config Hactual c st e Hthrow), Hbenign.
      reflexivity.
    + unfold enableCollectionSharding. cbv zeta. rewrite Hactual.
      unfold logger_info. rewrite run_emit_bind. cbv beta. rewrite run_emit_bind. cbv beta.
      cbn [emitted calls_of].
      unfold try_catch, bind, invoke; cbn [value final emitted]. rewrite Hthrow.
      cbn [value final emitted calls_of app]. left. reflexivity.
  - intros Hskip Hactual c st k.
    exact (rerun_without_skipping env config c st k Hskip Hactual).
Qed.

(** A cluster in which the collection is sharded already. *)
Definition cluster_sharded : Mock.Cluster := {|
  Mock.currentDb := "d";
  Mock.collectionNames := ["c"];
  Mock.indexDocs := [];
  Mock.shardedKeys := [("d.c", asc "uid")];
  Mock.chunkCounts := [("d.c", 1%Z)];
  Mock.faults := Mock.no_faults
|}.

Lemma rerun_is_guarded_witness :
  (skipExistingSharded (options one_collection) = true
   /\ results (final (processCollection_try Mock.env one_collection collection_c
                                            (Mock.start cluster_sharded)))
      = add_skipped "c" no_results)
  /\ (skipExistingSharded (options one_collection_again) = false
      /\ results (final (processCollection Mock.env one_collection_again collection_c
                                           (Mock.start cluster_sharded)))
         = add_success "c" no_results).
Proof.
  split.
  - split; [reflexivity |].
    exact (proj1 (proj2 (proj1 (proj2 (proj2 (rerun_is_guarded _ Mock.env one_collection)))
                               eq_refl collection_c (Mock.start cluster_sharded)
                               (asc "uid") eq_refl eq_refl))).
  - split; [reflexivity |].
    destruct (rerun_is_guarded _ Mock.env one_collection_again) as (_ & _ & _ & _ & H).
    refine (proj2 (proj2 (H eq_refl eq_refl collection_c (Mock.start cluster_sharded)
                            (asc "uid") _ _ _ _)
                         {| message := "sharding already enabled: collection already sharded" |}
                         _ _) _); vm_compute; reflexivity.
Defined.

(** ** The split loop *)

Section Split.

Context {W : Type}.
Variable env : Env W.
Variable config : Config.

Ltac run :=
  unfold bind, try_catch, invoke, when, logger_info, logger_success, logger_warning,
    logger_error, logger_section, logger_divider, sleep, emit, ret, throw;
  cbn [value final emitted world results fst snd].

(** The line that explains an early stop, and the warning for a split that
    failed for another reason. *)
Definition early_stop : event := Logged (LogInfo "    分块太小，停止分割").

Definition split_failed (i : Z) (e : Error) : event :=
  Logged (LogWarning ("    分割 " +:+ string_of_Z (i + 1) +:+ " 失败: " +:+ message e)).

(** The split calls of the first [k] turns from counter [i] on. *)
Definition split_calls (fullName : string) (i : Z) (k : nat) : list call :=
  map (fun j => SplitFind fullName (split_point (i + Z.of_nat j))) (seq 0 k).

Lemma split_calls_S fullName i k :
  split_calls fullName i (S k)
  = SplitFind fullName (split_point i) :: split_calls fullName (i + 1) k.
Proof.
  unfold split_calls. cbn [seq map]. rewrite Z.add_0_r. f_equal.
  rewrite <- seq_shift, map_map. apply map_ext. intros j.
  do 2 f_equal. lia.
Qed.

Lemma split_turn_cases fullName needed i created st :
  let r := split_turn env fullName needed i created st in
  calls_of (emitted r) = [SplitFind fullName (split_point i)]
  /\ (value r = inr (Next (created + 1))
      \/ (value r = inr (Break created) /\ In early_stop (emitted r))
      \/ (exists e, value r = inr (Next created) /\ In (split_failed i e) (emitted r))).
Proof.
  cbv zeta. unfold split_turn. run.
  destruct (fst (handle env (SplitFind fullName (split_point i)) (world st))) as [e | []];
    cbn [value final emitted].
  - destruct (includes (message e) "chunk is too small"); cbn [value final emitted].
    + split; [reflexivity |]. right; left. split; [reflexivity |]. right; left; reflexivity.
    + split; [reflexivity |]. right; right. exists e.
      split; [reflexivity |]. right; left; reflexivity.
  - split; [reflexivity |]. left. reflexivity.
Qed.

(** The loop returns; it makes its calls at the points of the counter, one
    per turn, all the turns unless it stops early with the explanation
    logged; and unless a split failed or stopped the loop, with the line for
    it logged, every turn adds one to [created]. *)
Lemma split_loop_spec fullName needed turns :
  forall i created st,
    let r := split_loop env fullName needed turns i created st in
    exists k created',
      value r = inr created'
      /\ (k <= turns)%nat
      /\ calls_of (emitted r) = split_calls fullName i k
      /\ (k = turns \/ In early_stop (emitted r))
      /\ (created' = created + Z.of_nat turns
          \/ In early_stop (emitted r)
          \/ exists j e, In (split_failed j e) (emitted r))%Z
      /\ (created <= created' <= created + Z.of_nat k)%Z.
Proof.
  induction turns as [| turns IH]; intros i created st; cbv zeta; cbn [split_loop].
  - exists 0%nat, created. cbn [value emitted ret calls_of].
    repeat split; try reflexivity; try lia; left; try reflexivity; lia.
  - destruct (split_turn_cases fullName needed i created st) as [Hc Hcases].
    cbv zeta in Hc, Hcases.
    destruct Hcases as [Hv | [[Hv Hstop] | [e [Hv Hfail]]]];
      rewrite (run_bind_value _ _ _ _ Hv); cbn [value final emitted].
    + destruct (IH (i + 1)%Z (created + 1)%Z (final (split_turn env fullName needed i created st)))
        as [k [created' [Hv' [Hk [Hc' [Hall [Hsucc Hbound]]]]]]].
      cbv zeta in Hv', Hc', Hall, Hsucc.
      exists (S k), created'. rewrite calls_of_app, Hc, Hc', split_calls_S.
      repeat split; try exact Hv'; try lia.
      * destruct Hall as [-> | Hin]; [left; reflexivity |].
        right. apply in_or_app. right. exact Hin.
      * destruct Hsucc as [-> | [Hin | [j [e Hin]]]].
        -- left. lia.
        -- right; left. apply in_or_app. right. exact Hin.
        -- right; right. exists j, e. apply in_or_app. right. exact Hin.
    + exists 1%nat, created. cbn [ret value emitted].
      rewrite app_nil_r, Hc.
      repeat split; try reflexivity; try lia.
      * rewrite split_calls_S. reflexivity.
      * right. exact Hstop.
      * right; left. exact Hstop.
    + destruct (IH (i + 1)%Z created (final (split_turn env fullName needed i created st)))
        as [k [created' [Hv' [Hk [Hc' [Hall [Hsucc Hbound]]]]]]].
      cbv zeta in Hv', Hc', Hall, Hsucc.
      exists (S k), created'. rewrite calls_of_app, Hc, Hc', split_calls_S.
      repeat split; try exact Hv'; try lia.
      * destruct Hall as [-> | Hin]; [left; reflexivity |].
        right. apply in_or_app. right. exact Hin.
      * right; right. exists i, e. apply in_or_app. left. exact Hfail.
Qed.

End Split.

Section PreSplit.

Context {W : Type}.
Variable env : Env W.
Variable config : Config.

Definition split_done (created : Z) : event :=
  Logged (LogSuccess ("  成功分割 " +:+ string_of_Z created +:+ " 个分块")).

Lemma preSplitChunks_dry c st :
  dryRun (options config) = true ->
  preSplitChunks env config c st
  = mkRun (inr tt) st
          [ Logged (LogInfo ("预先分割分块 (目标: "
                             +:+ string_of_Z (initialChunks (sharding config)) +:+ " 个)"));
            Logged (LogInfo "  [试运行] 分割分块") ].
Proof. intros Hdry. unfold preSplitChunks. cbv zeta. rewrite Hdry. reflexivity. Qed.

Lemma preSplitChunks_count_throws c st e :
  dryRun (options config) = false ->
  fst (handle env (ChunksCountDocuments (fullNameOf config c)) (world st)) = inl e ->
  value (preSplitChunks env config c st) = inl e
  /\ calls_of (emitted (preSplitChunks env config c st))
     = [ChunksCountDocuments (fullNameOf config c)].
Proof.
  intros Hactual Hcount. unfold preSplitChunks. cbv zeta. rewrite Hactual.
  unfold logger_info. rewrite run_emit_bind. cbv beta.
  assert (Hi : value (invoke env (ChunksCountDocuments (fullNameOf config c)) st) = inl e)
    by exact Hcount.
  rewrite (run_bind_error _ _ _ _ Hi). split; reflexivity.
Qed.

(** [preSplitChunks] in an actual run, once the chunk count is answered. *)
Lemma preSplitChunks_run c st current :
  dryRun (options config) = false ->
  fst (handle env (ChunksCountDocuments (fullNameOf config c)) (world st)) = inr current ->
  let r := preSplitChunks env config c st in
  let target := initialChunks (sharding config) in
  value r = inr tt
  /\ ((target <= current)%Z ->
      calls_of (emitted r) = [ChunksCountDocuments (fullNameOf config c)])
  /\ ((current < target)%Z ->
      exists k created,
        (k <= Z.to_nat (target - current))%nat
        /\ calls_of (emitted r)
           = ChunksCountDocuments (fullNameOf config c)
             :: split_calls (fullNameOf config c) 0 k
        /\ (k = Z.to_nat (target - current) \/ In early_stop (emitted r))
        /\ (created = (target - current)%Z
            \/ In early_stop (emitted r)
            \/ exists j e, In (split_failed j e) (emitted r))
        /\ (0 <= created <= Z.of_nat k)%Z
        /\ ((0 < created)%Z -> In (split_done created) (emitted r))).
Proof.
  intros Hactual Hcount. cbv zeta.
  unfold preSplitChunks. cbv zeta. rewrite Hactual.
  unfold logger_info. rewrite run_emit_bind. cbv beta.
  assert (Hi : value (invoke env (ChunksCountDocuments (fullNameOf config c)) st)
               = inr current) by exact Hcount.
  rewrite (run_bind_value _ _ _ _ Hi). cbn [value final emitted].
  set (s1 := final (invoke env (ChunksCountDocuments (fullNameOf config c)) st)).
  set (ns := fullNameOf config c).
  set (target := initialChunks (sharding config)).
  destruct (Z.geb current target) eqn:Hge.
  - split; [reflexivity |]. split; [intros _; reflexivity |].
    intros Hlt. apply Z.geb_le in Hge. lia.
  - assert (Hlt : (current < target)%Z).
    { destruct (Z.lt_ge_cases current target) as [H | H]; [exact H |].
      apply Z.geb_le in H. congruence. }
    rewrite run_emit_bind. cbv beta. cbn [value final emitted].
    destruct (split_loop_spec env ns (target - current)%Z (Z.to_nat (target - current))
                              0%Z 0%Z s1)
      as [k [created [Hv [Hk [Hc [Hall [Hsucc Hbound]]]]]]].
    cbv zeta in Hv, Hc, Hall, Hsucc.
    rewrite (run_bind_value _ _ _ _ Hv). cbn [value final emitted].
    set (loop := split_loop env ns (target - current) (Z.to_nat (target - current)) 0 0 s1)
      in *.
    assert (Hwhen : value (when (Z.gtb created 0) (logger_success
                             ("  成功分割 " +:+ string_of_Z created +:+ " 个分块"))
                           (final loop)) = inr tt
                    /\ calls_of (emitted (when (Z.gtb created 0) (logger_success
                             ("  成功分割 " +:+ string_of_Z created +:+ " 个分块"))
                           (final loop))) = []
                    /\ ((0 < created)%Z ->
                        In (split_done created)
                           (emitted (when (Z.gtb created 0) (logger_success
                             ("  成功分割 " +:+ string_of_Z created +:+ " 个分块"))
                           (final loop))))).
    { destruct (Z.gtb created 0) eqn:Hgt; cbn [when].
      - repeat split; try reflexivity. intros _. left. reflexivity.
      - repeat split; try reflexivity. intros Hpos.
        apply Z.gtb_lt in Hpos. congruence. }
    destruct Hwhen as [Hwv [Hwc Hwin]].
    split; [exact Hwv |]. split; [intros Hle; lia |]. intros _.
    exists k, created.
    change (emitted (invoke env (ChunksCountDocuments ns) st))
      with [Called (ChunksCountDocuments ns)].
    cbn [calls_of app].
    rewrite calls_of_app, Hc, Hwc, app_nil_r.
    rewrite Z2Nat.id in Hsucc by lia.
    repeat split; try lia.
    + destruct Hall as [-> | Hin]; [left; reflexivity |].
      right. right. right. right. apply in_or_app. left. exact Hin.
    + destruct Hsucc as [-> | [Hin | [j [e Hin]]]].
      * left. lia.
      * right; left. right. right. right. apply in_or_app. left. exact Hin.
      * right; right. exists j, e. right. right. right. apply in_or_app. left. exact Hin.
    + intros Hpos. right. right. right. apply in_or_app. right. exact (Hwin Hpos).
Qed.

End PreSplit.

(** ** The splits and what the cluster answers *)

Section SplitOutcomes.

Context {W : Type}.
Variable env : Env W.
Variable config : Config.

(** What the cluster answers to calls made one after the other from the
    world [w]: for each call, the error when it throws and [None] when it
    returns. *)
Fixpoint outcomes (cs : list call) (w : W) : list (option Error) :=
  match cs with
  | [] => []
  | c :: cs' =>
      match fst (handle env c w) with
      | inl e => Some e
      | inr _ => None
      end :: outcomes cs' (snd (handle env c w))
  end.

Definition returned (o : option Error) : bool :=
  match o with
  | None => true
  | Some _ => false
  end.

(** The number of calls that returned. *)
Definition successes (os : list (option Error)) : nat := length (filter returned os).

Lemma outcomes_length cs : forall w, length (outcomes cs w) = length cs.
Proof. induction cs as [| c cs IH]; intros w; cbn; [reflexivity | rewrite IH; reflexivity]. Qed.

Lemma successes_bound os : (successes os <= length os)%nat.
Proof. apply filter_length_le. Qed.

Lemma split_calls_length fullName i k : length (split_calls fullName i k) = k.
Proof. unfold split_calls. rewrite length_map, length_seq. reflexivity. Qed.

(** One turn of the loop, by what the cluster answers. *)
Lemma split_turn_run fullName needed i created st :
  split_turn env fullName needed i created st
  = let w' := snd (handle env (SplitFind fullName (split_point i)) (world st)) in
    let s' := {| world := w'; results := results st |} in
    match fst (handle env (SplitFind fullName (split_point i)) (world st)) with
    | inr _ =>
        mkRun (inr (Next (created + 1))) s'
              [ Called (SplitFind fullName (split_point i));
                Logged (LogInfo ("    分割 " +:+ string_of_Z (created + 1) +:+ "/"
                                 +:+ string_of_Z needed +:+ " 完成"));
                Slept 50 ]
    | inl e =>
        if includes (message e) "chunk is too small"
        then mkRun (inr (Break created)) s'
                   [Called (SplitFind fullName (split_point i)); early_stop]
        else mkRun (inr (Next created)) s'
                   [Called (SplitFind fullName (split_point i)); split_failed i e]
    end.
Proof.
  cbv zeta. unfold split_turn, early_stop, split_failed.
  unfold bind, try_catch, invoke, logger_info, logger_warning, sleep, emit, ret.
  cbn [value final emitted world results fst snd].
  destruct (fst (handle env (SplitFind fullName (split_point i)) (world st))) as [e | []];
    cbn [value final emitted world results]; [| reflexivity].
  destruct (includes (message e) "chunk is too small"); reflexivity.
Qed.

(** The loop, by what the cluster answers to its split calls: it makes [k]
    calls, at the points of the counter; it returns the number it started
    from plus the number of the calls that returned; a call that throws is
    either the last one, for a chunk that is too small, with the early stop
    logged, or is logged as a failed split; and the loop makes all its
    turns unless it stops for a chunk that is too small. *)
Lemma split_loop_outcomes fullName needed turns :
  forall i created st,
    let r := split_loop env fullName needed turns i created st in
    exists k,
      (k <= turns)%nat
      /\ (turns <> 0%nat -> k <> 0%nat)
      /\ calls_of (emitted r) = split_calls fullName i k
      /\ value r
         = inr (created
                + Z.of_nat (successes (outcomes (split_calls fullName i k) (world st))))%Z
      /\ (forall j e,
             nth_error (outcomes (split_calls fullName i k) (world st)) j = Some (Some e) ->
             if includes (message e) "chunk is too small"
             then S j = k /\ In early_stop (emitted r)
             else In (split_failed (i + Z.of_nat j) e) (emitted r))
      /\ (k = turns
          \/ exists k0 e,
              k = S k0
              /\ nth_error (outcomes (split_calls fullName i k) (world st)) k0 = Some (Some e)
              /\ includes (message e) "chunk is too small" = true).
Proof.
  induction turns as [| turns IH]; intros i created st; cbv zeta; cbn [split_loop].
  - exists 0%nat. cbn [value emitted ret calls_of].
    split; [lia |]. split; [intros H; exact H |]. split; [reflexivity |].
    split; [cbn; rewrite Z.add_0_r; reflexivity |].
    split; [intros [| j] e H; discriminate H | left; reflexivity].
  - pose proof (split_turn_run fullName needed i created st) as Hturn. cbv zeta in Hturn.
    destruct (fst (handle env (SplitFind fullName (split_point i)) (world st)))
      as [e | []] eqn:Hreply.
    + destruct (includes (message e) "chunk is too small") eqn:Hsmall.
      * (* the loop stops *)
        rewrite (run_bind_value _ _ _ (Break created)) by (rewrite Hturn; reflexivity).
        rewrite Hturn. cbn [value final emitted ret].
        exists 1%nat. rewrite split_calls_S. cbn [outcomes]. rewrite Hreply.
        change (split_calls fullName (i + 1) 0) with (@nil call). cbn [outcomes].
        split; [lia |]. split; [intros _; discriminate |].
        split; [reflexivity |].
        split; [cbn; rewrite Z.add_0_r; reflexivity |].
        split.
        -- intros [| [| j]] e' H; cbn in H; try discriminate H.
           injection H as <-. rewrite Hsmall. split; [reflexivity |].
           right; left; reflexivity.
        -- right. exists 0%nat, e. split; [reflexivity |]. split; [reflexivity | exact Hsmall].
      * (* a failed split *)
        rewrite (run_bind_value _ _ _ (Next created)) by (rewrite Hturn; reflexivity).
        rewrite Hturn. cbn [value final emitted].
        destruct (IH (i + 1)%Z created
                     {| world := snd (handle env (SplitFind fullName (split_point i))
                                             (world st));
                        results := results st |})
          as [k [Hk [Hpos [Hc [Hv [Herr Hall]]]]]].
        cbv zeta in Hc, Hv, Herr. cbn [world] in Hv, Herr, Hall.
        exists (S k). rewrite split_calls_S. cbn [outcomes]. rewrite Hreply.
        split; [lia |]. split; [intros _; discriminate |].
        split; [cbn [app calls_of]; rewrite Hc; reflexivity |].
        split; [rewrite Hv; reflexivity |].
        split.
        -- intros [| j] e' H; cbn [nth_error] in H.
           ++ injection H as <-. rewrite Hsmall.
              rewrite Z.add_0_r. right; left; reflexivity.
           ++ specialize (Herr j e' H).
              destruct (includes (message e') "chunk is too small").
              ** destruct Herr as [-> Hin]. split; [reflexivity |].
                 apply in_or_app. right. exact Hin.
              ** replace (i + Z.of_nat (S j))%Z with (i + 1 + Z.of_nat j)%Z by lia.
                 apply in_or_app. right. exact Herr.
        -- destruct Hall as [-> | [k0 [e' [-> [Hn Hs]]]]]; [left; reflexivity |].
           right. exists (S k0), e'. split; [reflexivity |]. split; [exact Hn | exact Hs].
    + (* a split that succeeds *)
      rewrite (run_bind_value _ _ _ (Next (created + 1))) by (rewrite Hturn; reflexivity).
      rewrite Hturn. cbn [value final emitted].
      destruct (IH (i + 1)%Z (created + 1)%Z
                   {| world := snd (handle env (SplitFind fullName (split_point i))
                                           (world st));
                      results := results st |})
        as [k [Hk [Hpos [Hc [Hv [Herr Hall]]]]]].
      cbv zeta in Hc, Hv, Herr. cbn [world] in Hv, Herr, Hall.
      exists (S k). rewrite split_calls_S. cbn [outcomes]. rewrite Hreply.
      split; [lia |]. split; [intros _; discriminate |].
      split; [cbn [app calls_of]; rewrite Hc; reflexivity |].
      split.
      { rewrite Hv. unfold successes. cbn [filter returned length]. f_equal. lia. }
      split.
      -- intros [| j] e' H; cbn [nth_error] in H; [discriminate H |].
         specialize (Herr j e' H).
         destruct (includes (message e') "chunk is too small").
         ++ destruct Herr as [-> Hin]. split; [reflexivity |].
            apply in_or_app. right. exact Hin.
         ++ replace (i + Z.of_nat (S j))%Z with (i + 1 + Z.of_nat j)%Z by lia.
            apply in_or_app. right. exact Herr.
      -- destruct Hall as [-> | [k0 [e' [-> [Hn Hs]]]]]; [left; reflexivity |].
         right. exists (S k0), e'. split; [reflexivity |]. split; [exact Hn | exact Hs].
Qed.

(** The loop logs no success line. *)
Definition no_success_line (e : event) : Prop :=
  match e with
  | Logged (LogSuccess _) => False
  | _ => True
  end.

Lemma split_loop_no_success_line fullName needed turns :
  forall i created st,
    Forall no_success_line (emitted (split_loop env fullName needed turns i created st)).
Proof.
  induction turns as [| turns IH]; intros i created st; cbn [split_loop].
  - constructor.
  - pose proof (split_turn_run fullName needed i created st) as Hturn. cbv zeta in Hturn.
    destruct (fst (handle env (SplitFind fullName (split_point i)) (world st))) as [e | []].
    + destruct (includes (message e) "chunk is too small").
      * rewrite (run_bind_value _ _ _ (Break created)) by (rewrite Hturn; reflexivity).
        rewrite Hturn. cbn [value final emitted ret]. repeat constructor.
      * rewrite (run_bind_value _ _ _ (Next created)) by (rewrite Hturn; reflexivity).
        rewrite Hturn. cbn [value final emitted].
        repeat (apply Forall_cons; [exact I |]). apply IH.
    + rewrite (run_bind_value _ _ _ (Next (created + 1))) by (rewrite Hturn; reflexivity).
      rewrite Hturn. cbn [value final emitted].
      repeat (apply Forall_cons; [exact I |]). apply IH.
Qed.

End SplitOutcomes.

Section PreSplitOutcomes.

Context {W : Type}.
Variable env : Env W.
Variable config : Config.

Lemma in_no_success_line evs m :
  Forall no_success_line evs -> ~ In (Logged (LogSuccess m)) evs.
Proof.
  intros H Hin. rewrite Forall_forall in H. exact (H _ Hin).
Qed.

(** The pre-split step of an actual run that finds the collection under
    the target, by what the cluster answers to its split calls. *)
Lemma preSplitChunks_outcomes c st current :
  dryRun (options config) = false ->
  fst (handle env (ChunksCountDocuments (fullNameOf config c)) (world st)) = inr current ->
  (current < initialChunks (sharding config))%Z ->
  let r := preSplitChunks env config c st in
  let needed := Z.to_nat (initialChunks (sharding config) - current) in
  exists k,
    (1 <= k <= needed)%nat
    /\ value r = inr tt
    /\ calls_of (emitted r)
       = ChunksCountDocuments (fullNameOf config c)
         :: split_calls (fullNameOf config c) 0 k
    /\ let answers :=
         outcomes env (split_calls (fullNameOf config c) 0 k)
                  (snd (handle env (ChunksCountDocuments (fullNameOf config c)) (world st))) in
       let created := Z.of_nat (successes answers) in
       (forall j e,
           nth_error answers j = Some (Some e) ->
           if includes (message e) "chunk is too small"
           then S j = k /\ In early_stop (emitted r)
           else In (split_failed (Z.of_nat j) e) (emitted r))
       /\ (k = needed
           \/ exists k0 e,
               k = S k0 /\ nth_error answers k0 = Some (Some e)
               /\ includes (message e) "chunk is too small" = true)
       /\ (forall m,
              In (Logged (LogSuccess m)) (emitted r)
              <-> (0 < created)%Z /\ Logged (LogSuccess m) = split_done created).
Proof.
  intros Hactual Hcount Hlt. cbv zeta.
  unfold preSplitChunks. cbv zeta. rewrite Hactual.
  unfold logger_info. rewrite run_emit_bind. cbv beta.
  assert (Hi : value (invoke env (ChunksCountDocuments (fullNameOf config c)) st)
               = inr current) by exact Hcount.
  rewrite (run_bind_value _ _ _ _ Hi). cbn [value final emitted].
  set (ns := fullNameOf config c).
  set (target := initialChunks (sharding config)) in *.
  set (s1 := final (invoke env (ChunksCountDocuments ns) st)).
  assert (Hge : Z.geb current target = false).
  { destruct (Z.geb current target) eqn:E; [| reflexivity].
    apply Z.geb_le in E. lia. }
  rewrite Hge. rewrite run_emit_bind. cbv beta. cbn [value final emitted].
  destruct (split_loop_outcomes env ns (target - current)%Z (Z.to_nat (target - current))
                                0%Z 0%Z s1)
    as [k [Hk [Hpos [Hc [Hv [Herr Hall]]]]]].
  cbv zeta in Hc, Hv, Herr.
  change (world s1) with (snd (handle env (ChunksCountDocuments ns) (world st)))
    in Hv, Herr, Hall.
  set (answers := outcomes env (split_calls ns 0 k)
                           (snd (handle env (ChunksCountDocuments ns) (world st)))) in *.
  set (loop := split_loop env ns (target - current) (Z.to_nat (target - current)) 0 0 s1)
    in *.
  rewrite Z.add_0_l in Hv.
  rewrite (run_bind_value _ _ _ _ Hv). cbn [value final emitted]. fold loop.
  set (created := Z.of_nat (successes answers)) in *.
  set (summary := when (Z.gtb created 0)
                       (logger_success ("  成功分割 " +:+ string_of_Z created +:+ " 个分块"))
                       (final loop)).
  assert (Hsum : value summary = inr tt
                 /\ emitted summary
                    = if Z.gtb created 0 then [split_done created] else []).
  { unfold summary. destruct (Z.gtb created 0); split; reflexivity. }
  destruct Hsum as [Hsv Hse].
  change (emitted (invoke env (ChunksCountDocuments ns) st))
    with [Called (ChunksCountDocuments ns)].
  exists k.
  split; [split; [| exact Hk]; assert (k <> 0%nat) by (apply Hpos; lia); lia |].
  split; [exact Hsv |].
  split.
  { cbn [calls_of app]. rewrite calls_of_app, Hc, Hse.
    destruct (Z.gtb created 0); cbn [calls_of split_done]; rewrite app_nil_r; reflexivity. }
  split.
  { intros j e H. specialize (Herr j e H).
    destruct (includes (message e) "chunk is too small").
    - destruct Herr as [-> Hin]. split; [reflexivity |].
      right. cbn [app]. right. right. apply in_or_app. left. exact Hin.
    - rewrite Z.add_0_l in Herr.
      right. cbn [app]. right. right. apply in_or_app. left. exact Herr. }
  split; [exact Hall |].
  intros m. rewrite Hse. cbn [app In]. rewrite in_app_iff.
  pose proof (in_no_success_line _ m
                (split_loop_no_success_line env ns (target - current)%Z
                                            (Z.to_nat (target - current)) 0%Z 0%Z s1))
    as Hnone.
  fold loop in Hnone.
  split.
  - intros [H | [H | [H | [H | H]]]]; try discriminate H; [contradiction |].
    destruct (Z.gtb created 0) eqn:Hgt; [| destruct H].
    destruct H as [H | []]. split; [apply Z.gtb_lt; exact Hgt | symmetry; exact H].
  - intros [Hgt H]. right. right. right. right.
    assert (E : Z.gtb created 0 = true) by (apply Z.gtb_lt; exact Hgt).
    rewrite E. left. symmetry. exact H.
Qed.

End PreSplitOutcomes.

(** ** The shape of the split points *)

(** A split call is made at a point [{appID: i, deviceID: "split_point_" + i}]. *)
Definition split_shaped (e : event) : Prop :=
  match e with
  | Called (SplitFind _ p) => exists i, (0 <= i)%Z /\ p = split_point i
  | _ => True
  end.

Section SplitShape.

Context {W : Type}.
Variable env : Env W.
Variable config : Config.

Definition shaped {A} (m : M W A) : Prop := keeps (@any_state W) split_shaped m.

Lemma shaped_emit (e : event) : split_shaped e -> shaped (emit e).
Proof. apply (keeps_emit _ _ (@any_state_refl W)). Qed.

Lemma shaped_invoke (c : call) : split_shaped (Called c) -> shaped (invoke env c).
Proof. intros H st; split; [exact I | repeat constructor; exact H]. Qed.

Lemma shaped_update_results (f : Results -> Results) : shaped (update_results f).
Proof. intros st; split; [exact I | constructor]. Qed.

Ltac shaped_leaf :=
  lazymatch goal with
  | |- keeps _ _ (logger_info _) => apply shaped_emit; exact I
  | |- keeps _ _ (logger_success _) => apply shaped_emit; exact I
  | |- keeps _ _ (logger_warning _) => apply shaped_emit; exact I
  | |- keeps _ _ (logger_error _) => apply shaped_emit; exact I
  | |- keeps _ _ (logger_section _) => apply shaped_emit; exact I
  | |- keeps _ _ logger_divider => apply shaped_emit; exact I
  | |- keeps _ _ (sleep _) => apply shaped_emit; exact I
  | |- keeps _ _ (emit (Exited _)) => apply shaped_emit; exact I
  | |- keeps _ _ (update_results _) => apply shaped_update_results
  | |- keeps _ _ (invoke _ _) => apply shaped_invoke; exact I
  end.

Lemma shaped_split_loop fullName needed turns :
  forall i created,
    (0 <= i)%Z -> shaped (split_loop env fullName needed turns i created).
Proof.
  induction turns as [| turns IH]; intros i created Hi; cbn [split_loop].
  - apply (keeps_ret _ _ (@any_state_refl W)).
  - apply (keeps_bind _ _ (@any_state_trans W)).
    + unfold split_turn.
      keeps_go (@any_state_refl W) (@any_state_trans W)
        ltac:(idtac; lazymatch goal with
                     | |- keeps _ _ (invoke _ (SplitFind _ _)) =>
                         apply shaped_invoke; exists i; split; [exact Hi | reflexivity]
                     | _ => shaped_leaf
                     end).
    + intros [c | c]; [apply IH; lia | apply (keeps_ret _ _ (@any_state_refl W))].
Qed.

Lemma shaped_processCollection c : shaped (processCollection env config c).
Proof.
  unfold shaped, processCollection, processCollection_try, processCollection_exists,
    checkCollectionExists,
    checkIfSharded, push_skipped, push_success, push_failed, createIndexes,
    createShardKeyIndex, enableCollectionSharding, preSplitChunks.
  keeps_go (@any_state_refl W) (@any_state_trans W)
    ltac:(first [ shaped_leaf
                | lazymatch goal with
                  | |- keeps _ _ (split_loop _ _ _ _ _ _) => apply shaped_split_loop; lia
                  | |- keeps _ _ (createIndex_turn _ _ _ _ _ _) => unfold createIndex_turn
                  end ]).
Qed.

Lemma shaped_execute v : shaped (execute env config v).
Proof.
  unfold shaped, execute, execute_try, validateConnection, enableDatabaseSharding,
    validateResults, validateIndexes, validateSharding, validateDataDistribution,
    showSummary, showRecommendations.
  keeps_go (@any_state_refl W) (@any_state_trans W)
    ltac:(first [ shaped_leaf
                | lazymatch goal with
                  | |- keeps _ _ (processCollection _ _ _) => apply shaped_processCollection
                  end ]).
Qed.

Lemma shaped_main : shaped (main env config).
Proof.
  unfold shaped, main, main_try.
  keeps_go (@any_state_refl W) (@any_state_trans W)
    ltac:(first [ shaped_leaf
                | lazymatch goal with
                  | |- keeps _ _ (execute _ _ _) => apply shaped_execute
                  end ]).
Qed.

Lemma shaped_calls evs :
  Forall split_shaped evs ->
  forall ns p, In (SplitFind ns p) (calls_of evs) ->
               exists i, (0 <= i)%Z /\ p = split_point i.
Proof.
  induction 1 as [| e evs He _ IH]; intros ns p Hin; [destruct Hin |].
  destruct e as [c | l | ms | code]; cbn [calls_of] in Hin; try (apply (IH ns p); exact Hin).
  destruct Hin as [-> | Hin]; [exact He | apply (IH ns p); exact Hin].
Qed.

(** Once the pre-split step of an actual run is reached and finds the
    collection under the target, the chunk count and the split at the first
    point follow the calls of the steps before. *)
Lemma processCollection_splits c st current :
  dryRun (options config) = false ->
  reached env config PreSplit c st ->
  fst (handle env (ChunksCountDocuments (fullNameOf config c))
              (world (after_sharding env config c st))) = inr current ->
  (current < initialChunks (sharding config))%Z ->
  exists rest,
    calls_of (emitted (processCollection env config c st))
    = calls_of (events_before env config PreSplit c st)
      ++ ChunksCountDocuments (fullNameOf config c)
      :: SplitFind (fullNameOf config c) (split_point 0) :: rest.
Proof.
  intros Hactual Hr Hcount Hlt.
  destruct (step_is_run env config PreSplit c st Hr) as [rest H].
  destruct (preSplitChunks_outcomes env config c (after_sharding env config c st) current
                                    Hactual Hcount Hlt) as [k [[Hk _] [_ [Hc _]]]].
  cbv zeta in Hc.
  rewrite processCollection_calls, H, !calls_of_app. cbn [step_events]. rewrite Hc.
  destruct k as [| k]; [lia |]. rewrite split_calls_S.
  eexists. cbn [app]. reflexivity.
Qed.

End SplitShape.

Section PreSplitGuard.

Context {W : Type}.
Variable env : Env W.
Variable config : Config.

Lemma all_returned_or_thrown (os : list (option Error)) :
  successes os = length os \/ exists j e, nth_error os j = Some (Some e).
Proof.
  destruct (forallb returned os) eqn:E.
  - left. unfold successes. rewrite (forallb_filter_id _ _ E). reflexivity.
  - right.
    assert (H : exists o, In o os /\ returned o = false).
    { induction os as [| o os IH]; [discriminate E |].
      cbn [forallb] in E. destruct (returned o) eqn:Ho.
      - destruct (IH E) as [o' [Hin Ho']]. exists o'. split; [right; exact Hin | exact Ho'].
      - exists o. split; [left; reflexivity | exact Ho]. }
    destruct H as [[e |] [Hin Ho]]; [| discriminate Ho].
    destruct (In_nth_error _ _ Hin) as [j Hj]. exists j, e. exact Hj.
Qed.

(** The pre-split step of an actual run, once the chunk count is answered
    under the target. *)
Lemma preSplitChunks_guarded c st current :
  dryRun (options config) = false ->
  fst (handle env (ChunksCountDocuments (fullNameOf config c)) (world st)) = inr current ->
  (current < initialChunks (sharding config))%Z ->
  let r := preSplitChunks env config c st in
  let target := initialChunks (sharding config) in
  exists k,
    (1 <= k <= Z.to_nat (target - current))%nat
    /\ calls_of (emitted r)
       = ChunksCountDocuments (fullNameOf config c)
         :: map (fun j => SplitFind (fullNameOf config c) (split_point (0 + Z.of_nat j)))
                (seq 0 k)
    /\ let answers :=
         outcomes env
                  (map (fun j => SplitFind (fullNameOf config c)
                                           (split_point (0 + Z.of_nat j)))
                       (seq 0 k))
                  (snd (handle env (ChunksCountDocuments (fullNameOf config c)) (world st))) in
       let created := Z.of_nat (successes answers) in
       (k = Z.to_nat (target - current) \/ In early_stop (emitted r))
       /\ (k = Z.to_nat (target - current)
           \/ exists k0 e,
               k = S k0 /\ nth_error answers k0 = Some (Some e)
               /\ includes (message e) "chunk is too small" = true)
       /\ (forall j e,
              nth_error answers j = Some (Some e) ->
              if includes (message e) "chunk is too small"
              then S j = k /\ In early_stop (emitted r)
              else In (split_failed (Z.of_nat j) e) (emitted r))
       /\ (created = (target - current)%Z
           \/ In early_stop (emitted r)
           \/ exists j e, In (split_failed j e) (emitted r))
       /\ (0 <= created <= Z.of_nat k)%Z
       /\ ((0 < created)%Z -> In (split_done created) (emitted r))
       /\ (forall m,
              In (Logged (LogSuccess m)) (emitted r)
              <-> (0 < created)%Z /\ Logged (LogSuccess m) = split_done created).
Proof.
  intros Hactual Hcount Hlt. cbv zeta.
  destruct (preSplitChunks_outcomes env config c st current Hactual Hcount Hlt)
    as [k [Hk [_ [Hc [Herr [Hall Hdone]]]]]].
  cbv zeta in Hk, Hc, Herr, Hall, Hdone.
  exists k. fold (split_calls (fullNameOf config c) 0 k).
  set (answers := outcomes env (split_calls (fullNameOf config c) 0 k)
                           (snd (handle env (ChunksCountDocuments (fullNameOf config c))
                                        (world st)))) in *.
  assert (Hlen : length answers = k).
  { unfold answers. rewrite outcomes_length. apply split_calls_length. }
  split; [exact Hk | split; [exact Hc |]].
  split.
  { destruct Hall as [-> | [k0 [e [_ [Hn Hs]]]]]; [left; reflexivity |].
    right. specialize (Herr k0 e Hn). rewrite Hs in Herr. exact (proj2 Herr). }
  split; [exact Hall |]. split; [exact Herr |].
  split.
  { destruct (all_returned_or_thrown answers) as [Hs | [j [e Hj]]].
    - destruct Hall as [E | [k0 [e [_ [Hn _]]]]].
      + left. rewrite Hs, Hlen, E. apply Z2Nat.id. lia.
      + specialize (Herr k0 e Hn).
        destruct (includes (message e) "chunk is too small").
        * right; left. exact (proj2 Herr).
        * right; right. exists (Z.of_nat k0), e. exact Herr.
    - specialize (Herr j e Hj).
      destruct (includes (message e) "chunk is too small").
      + right; left. exact (proj2 Herr).
      + right; right. exists (Z.of_nat j), e. exact Herr. }
  split.
  { pose proof (successes_bound answers). lia. }
  split; [| exact Hdone].
  intros Hpos. apply (Hdone _). split; [exact Hpos | reflexivity].
Qed.

End PreSplitGuard.

(** Whether a shard key names one of the two fields of the split points. *)
Definition on_split_fields (c : CollConfig) : bool :=
  existsb (fun f => existsb (String.eqb f) ["appID"; "deviceID"]) (map fst (shardKey c)).

(** C9. The split calls are made at points of the fixed shape
    [{appID: i, deviceID: "split_point_" + i}], whatever the shard key of
    the collection.  Every split call of a whole run, and of the processing
    of a collection, is at such a point.  In an actual run, when the chunk
    count is answered under the target, the pre-split step does issue them:
    at least one, at the points 0, 1, ... in turn, as many as the target
    exceeds the count unless the loop stops early; and once the step is
    reached in the processing of a collection, the chunk count and the
    split at [{appID: 0, deviceID: "split_point_0"}] follow the calls of
    the steps before.  The step does not read the shard key: with another
    shard key it runs the same.  Of the eight configured collections, seven
    have a shard key that names neither [appID] nor [deviceID]; for them no
    field of a split point is a field of the shard key. *)
Theorem split_points_ignore_the_shard_key :
  forall (W : Type) (env : Env W) (config : Config) (c : CollConfig) (st : State W),
    (forall ns p,
        In (SplitFind ns p) (calls_of (emitted (main env config st)))
        \/ In (SplitFind ns p) (calls_of (emitted (processCollection env config c st)))
        \/ In (SplitFind ns p) (calls_of (emitted (preSplitChunks env config c st))) ->
        exists i,
          (0 <= i)%Z
          /\ p = [("appID", JNum i); ("deviceID", JStr ("split_point_" +:+ string_of_Z i))])
    /\ (dryRun (options config) = false ->
        forall current,
          fst (handle env (ChunksCountDocuments (fullNameOf config c)) (world st))
          = inr current ->
          (current < initialChunks (sharding config))%Z ->
          exists k,
            (1 <= k <= Z.to_nat (initialChunks (sharding config) - current))%nat
            /\ calls_of (emitted (preSplitChunks env config c st))
               = ChunksCountDocuments (fullNameOf config c)
                 :: map (fun j => SplitFind (fullNameOf config c)
                                            [("appID", JNum (0 + Z.of_nat j));
                                             ("deviceID",
                                              JStr ("split_point_"
                                                    +:+ string_of_Z (0 + Z.of_nat j)))])
                        (seq 0 k)
            /\ (k = Z.to_nat (initialChunks (sharding config) - current)
                \/ In early_stop (emitted (preSplitChunks env config c st))))
    /\ (dryRun (options config) = false ->
        forall current,
          reached env config PreSplit c st ->
          fst (handle env (ChunksCountDocuments (fullNameOf config c))
                      (world (after_sharding env config c st))) = inr current ->
          (current < initialChunks (sharding config))%Z ->
          exists rest,
            calls_of (emitted (processCollection env config c st))
            = calls_of (events_before env config PreSplit c st)
              ++ ChunksCountDocuments (fullNameOf config c)
              :: SplitFind (fullNameOf config c)
                           [("appID", JNum 0); ("deviceID", JStr "split_point_0")]
              :: rest)
    /\ (calls_of (emitted (preSplitChunks env config c st)) = []
        \/ exists k,
            calls_of (emitted (preSplitChunks env config c st))
            = ChunksCountDocuments (fullNameOf config c)
              :: map (fun j => SplitFind (fullNameOf config c)
                                         [("appID", JNum (0 + Z.of_nat j));
                                          ("deviceID",
                                           JStr ("split_point_" +:+ string_of_Z (0 + Z.of_nat j)))])
                     (seq 0 k))
    /\ (forall otherKey,
           preSplitChunks env config
                          {| name := name c; description := description c;
                             shardKey := otherKey; indexes := indexes c |} st
           = preSplitChunks env config c st)
    /\ (forall c',
           In c' (collections CONFIG) ->
           on_split_fields c' = false ->
           forall i f, In f (map fst (split_point i)) -> ~ In f (map fst (shardKey c')))
    /\ length (filter (fun c' => negb (on_split_fields c')) (collections CONFIG)) = 7%nat.
Proof.
  intros W env config c st.
  split; [| split; [| split; [| split; [| split; [| split]]]]].
  - intros ns p [Hin | [Hin | Hin]].
    + exact (shaped_calls _ (proj2 (shaped_main env config st)) ns p Hin).
    + exact (shaped_calls _ (proj2 (shaped_processCollection env config c st)) ns p Hin).
    + assert (Hs : shaped (preSplitChunks env config c)).
      { unfold shaped, preSplitChunks.
        keeps_go (@any_state_refl W) (@any_state_trans W)
          ltac:(idtac; lazymatch goal with
                       | |- keeps _ _ (split_loop _ _ _ _ _ _) =>
                           apply shaped_split_loop; lia
                       | |- keeps _ _ (logger_info _) => apply shaped_emit; exact I
                       | |- keeps _ _ (logger_success _) => apply shaped_emit; exact I
                       | |- keeps _ _ (invoke _ _) => apply shaped_invoke; exact I
                       end). }
      exact (shaped_calls _ (proj2 (Hs st)) ns p Hin).
  - intros Hactual current Hcount Hlt.
    destruct (preSplitChunks_guarded env config c st current Hactual Hcount Hlt)
      as [k [Hk [Hc [Hall _]]]].
    exists k. split; [exact Hk | split; [exact Hc | exact Hall]].
  - intros Hactual current Hr Hcount Hlt.
    exact (processCollection_splits env config c st current Hactual Hr Hcount Hlt).
  - destruct (dryRun (options config)) eqn:Hdry.
    + left. rewrite (preSplitChunks_dry env config c st Hdry). reflexivity.
    + right.
      destruct (fst (handle env (ChunksCountDocuments (fullNameOf config c)) (world st)))
        as [e | current] eqn:Hcount.
      * exists 0%nat.
        apply (preSplitChunks_count_throws env config c st e Hdry Hcount).
      * destruct (preSplitChunks_run env config c st current Hdry Hcount)
          as [_ [Hle Hlt]]. cbv zeta in Hle, Hlt.
        destruct (Z.lt_ge_cases current (initialChunks (sharding config))) as [H | H].
        -- destruct (Hlt H) as [k [created [_ [Hc _]]]]. exists k. exact Hc.
        -- exists 0%nat. exact (Hle H).
  - intros otherKey. reflexivity.
  - intros c' Hin Hoff i f Hf Hkey.
    cbn [split_point map fst In] in Hf.
    assert (Hon : on_split_fields c' = true).
    { unfold on_split_fields. apply existsb_exists. exists f. split; [exact Hkey |].
      apply existsb_exists. exists f. split; [| apply String.eqb_refl].
      destruct Hf as [<- | [<- | []]]; cbn [In]; tauto. }
    congruence.
  - vm_compute. reflexivity.
Qed.

(** The collection of the examples is sharded on [uid]; under the target
    of three chunks, with one chunk, its splits are at [appID] and
    [deviceID] all the same. *)
Lemma split_points_ignore_the_shard_key_witness :
  shardKey collection_c = [("uid", JNum 1)]
  /\ exists k,
      (1 <= k <= 2)%nat
      /\ calls_of (emitted (preSplitChunks Mock.env one_collection collection_c
                                           (Mock.start cluster_sharded)))
         = ChunksCountDocuments "d.c"
           :: map (fun j => SplitFind "d.c"
                                      [("appID", JNum (0 + Z.of_nat j));
                                       ("deviceID",
                                        JStr ("split_point_" +:+ string_of_Z (0 + Z.of_nat j)))])
                  (seq 0 k).
Proof.
  split; [reflexivity |].
  destruct (split_points_ignore_the_shard_key
              _ Mock.env one_collection collection_c (Mock.start cluster_sharded))
    as (_ & H & _).
  destruct (H eq_refl 1%Z eq_refl eq_refl) as [k [Hk [Hc _]]].
  exists k. split; [exact Hk | exact Hc].
Defined.

(** A sharded collection with one empty chunk: no split finds a median. *)
Definition no_median : call -> option string :=
  fun c =>
    match c with
    | SplitFind _ _ => Some "cannot find median in chunk, because chunk is empty"
    | _ => None
    end.

Definition cluster_one_empty_chunk : Mock.Cluster := {|
  Mock.currentDb := "d";
  Mock.collectionNames := ["c"];
  Mock.indexDocs := [];
  Mock.shardedKeys := [("d.c", asc "uid")];
  Mock.chunkCounts := [("d.c", 1%Z)];
  Mock.faults := no_median
|}.

(** C6, as stated, fails: every split fails for a reason other than a chunk
    that is too small; the step returns with the chunk count under the
    target and without the early stop logged. *)
Lemma pre_split_counterexample :
  let r := preSplitChunks Mock.env one_collection collection_c
                          (Mock.start cluster_one_empty_chunk) in
  dryRun (options one_collection) = false
  /\ value r = inr tt
  /\ calls_of (emitted r)
     = [ChunksCountDocuments "d.c";
        SplitFind "d.c" (split_point 0); SplitFind "d.c" (split_point 1)]
  /\ (Mock.chunksOf "d.c" (world (final r)) < initialChunks (sharding one_collection))%Z
  /\ ~ In early_stop (emitted r).
Proof.
  cbv zeta. split; [reflexivity |]. split; [vm_compute; reflexivity |].
  split; [vm_compute; reflexivity |]. split; [vm_compute; reflexivity |].
  vm_compute. intuition discriminate.
Qed.

(** C6, amended.  In an actual run, once the chunk count is answered: when
    it is at least the target, the count is the only call; otherwise the
    split calls follow at the points 0, 1, ... in turn, one per turn and at
    least one, as many as the target exceeds the count unless the loop
    stops early, which it does only when a split throws for a chunk that is
    too small, with the explanation logged.  The step returns in both
    cases.  The number of splits it counts is the number of its split
    calls that returned: a split that throws for another reason is logged
    as a warning and is not counted.  So afterwards either every one of
    these splits succeeded, or the early stop is logged, or a warning is
    logged for a split that failed; and the number of successful splits,
    when positive, is logged, in the only success line of the step. *)
Theorem pre_split_is_guarded_by_the_chunk_count :
  forall (W : Type) (env : Env W) (config : Config) (c : CollConfig) (st : State W)
         (current : Z),
    dryRun (options config) = false ->
    fst (handle env (ChunksCountDocuments (fullNameOf config c)) (world st)) = inr current ->
    let r := preSplitChunks env config c st in
    let target := initialChunks (sharding config) in
    value r = inr tt
    /\ ((target <= current)%Z ->
        calls_of (emitted r) = [ChunksCountDocuments (fullNameOf config c)])
    /\ ((current < target)%Z ->
        exists k,
          (1 <= k <= Z.to_nat (target - current))%nat
          /\ calls_of (emitted r)
             = ChunksCountDocuments (fullNameOf config c)
               :: map (fun j => SplitFind (fullNameOf config c) (split_point (0 + Z.of_nat j)))
                      (seq 0 k)
          /\ let answers :=
               outcomes env
                        (map (fun j => SplitFind (fullNameOf config c)
                                                 (split_point (0 + Z.of_nat j)))
                             (seq 0 k))
                        (snd (handle env (ChunksCountDocuments (fullNameOf config c))
                                     (world st))) in
             let created := Z.of_nat (successes answers) in
             (k = Z.to_nat (target - current) \/ In early_stop (emitted r))
             /\ (k = Z.to_nat (target - current)
                 \/ exists k0 e,
                     k = S k0 /\ nth_error answers k0 = Some (Some e)
                     /\ includes (message e) "chunk is too small" = true)
             /\ (forall j e,
                    nth_error answers j = Some (Some e) ->
                    if includes (message e) "chunk is too small"
                    then S j = k /\ In early_stop (emitted r)
                    else In (split_failed (Z.of_nat j) e) (emitted r))
             /\ (created = (target - current)%Z
                 \/ In early_stop (emitted r)
                 \/ exists j e, In (split_failed j e) (emitted r))
             /\ (0 <= created <= Z.of_nat k)%Z
             /\ ((0 < created)%Z -> In (split_done created) (emitted r))
             /\ (forall m,
                    In (Logged (LogSuccess m)) (emitted r)
                    <-> (0 < created)%Z /\ Logged (LogSuccess m) = split_done created))
    /\ (forall fullName needed turns i created s e,
           fst (handle env (SplitFind fullName (split_point i)) (world s)) = inl e ->
           includes (message e) "chunk is too small" = true ->
           value (split_loop env fullName needed (S turns) i created s) = inr created
           /\ calls_of (emitted (split_loop env fullName needed (S turns) i created s))
              = [SplitFind fullName (split_point i)]).
Proof.
  intros W env config c st current Hactual Hcount. cbv zeta.
  destruct (preSplitChunks_run env config c st current Hactual Hcount)
    as [Hv [Hle _]].
  split; [exact Hv |]. split; [exact Hle |]. split.
  { intros Hlt. exact (preSplitChunks_guarded env config c st current Hactual Hcount Hlt). }
  intros fullName needed turns i created s e Hthrow Hsmall.
  pose proof (split_turn_on_error env fullName needed i created s e Hthrow) as Hturn.
  cbv zeta in Hturn. rewrite Hsmall in Hturn. destruct Hturn as [Hbreak Hem].
  cbn [split_loop].
  rewrite (run_bind_value _ _ _ _ Hbreak). cbn [value emitted ret].
  split; [reflexivity |].
  rewrite app_nil_r, Hem. reflexivity.
Qed.

(** On the cluster whose splits all fail, both split calls are made, none
    is counted, and each failure is logged. *)
Lemma pre_split_is_guarded_by_the_chunk_count_witness :
  let r := preSplitChunks Mock.env one_collection collection_c
                          (Mock.start cluster_one_empty_chunk) in
  value r = inr tt
  /\ exists k,
      (1 <= k <= 2)%nat
      /\ calls_of (emitted r)
         = ChunksCountDocuments "d.c"
           :: map (fun j => SplitFind "d.c" (split_point (0 + Z.of_nat j))) (seq 0 k)
      /\ (k = 2%nat \/ In early_stop (emitted r))
      /\ forall m, ~ In (Logged (LogSuccess m)) (emitted r).
Proof.
  cbv zeta.
  destruct (pre_split_is_guarded_by_the_chunk_count
              _ Mock.env one_collection collection_c
              (Mock.start cluster_one_empty_chunk) 1%Z eq_refl eq_refl)
    as [Hv [_ [H _]]].
  split; [exact Hv |].
  destruct (H eq_refl) as [k [Hk [Hc [Hall [_ [_ [_ [_ [_ Hdone]]]]]]]]].
  exists k. split; [exact Hk |]. split; [exact Hc |]. split; [exact Hall |].
  intros m Hin. apply Hdone in Hin. destruct Hin as [Hpos _].
  assert (Hk2 : k = 2%nat).
  { destruct Hall as [E | Hstop]; [exact E |].
    exfalso. revert Hstop. vm_compute. intuition discriminate. }
  subst k. revert Hpos. vm_compute. discriminate.
Defined.

(** ** The steps of a dry run *)

Section DrySteps.

Context {W : Type}.
Variable env : Env W.
Variable config : Config.
Hypothesis dry : dryRun (options config) = true.

Ltac run :=
  unfold bind, try_catch, invoke, when, logger_info, logger_success, logger_warning,
    logger_error, logger_section, logger_divider, sleep, emit, ret, throw;
  cbn [value final emitted world results fst snd].

(** The line a dry run logs for a configured index. *)
Definition dry_index_line (existing : list IndexDoc) (i : nat) (ic : IndexConfig) : logline :=
  if index_exists existing (key ic)
  then LogInfo ("  索引 " +:+ string_of_nat (i + 1) +:+ ". " +:+ JSON_stringify (key ic)
                +:+ " (已存在)")
  else LogInfo ("  [试运行] 创建索引: " +:+ JSON_stringify (key ic)).

Fixpoint dry_index_lines (existing : list IndexDoc) (i : nat) (idxs : list IndexConfig)
  : list logline :=
  match idxs with
  | [] => []
  | ic :: idxs' => dry_index_line existing i ic :: dry_index_lines existing (S i) idxs'
  end.

Lemma enableDatabaseSharding_dry st :
  enableDatabaseSharding env config st
  = mkRun (inr tt) st
          [ Logged (LogInfo ("启用数据库分片: " +:+ database config));
            Logged (LogInfo "[试运行] 跳过实际执行") ].
Proof. unfold enableDatabaseSharding. rewrite dry. reflexivity. Qed.

Lemma enableCollectionSharding_dry c st :
  enableCollectionSharding env config c st
  = mkRun (inr tt) st
          [ Logged (LogInfo "启用表分片");
            Logged (LogInfo ("  分片键: " +:+ JSON_stringify (shardKey c)));
            Logged (LogInfo ("  [试运行] 启用分片: " +:+ fullNameOf config c)) ].
Proof. unfold enableCollectionSharding. cbv zeta. rewrite dry. reflexivity. Qed.

Lemma processCollection_exists_dry c st names :
  fst (handle env (Use (database config)) (world st)) = inr tt ->
  fst (handle env GetCollectionNames (snd (handle env (Use (database config)) (world st))))
  = inr names ->
  value (processCollection_exists env config c st) = inr tt
  /\ emitted (processCollection_exists env config c st)
     = Called (Use (database config)) :: Called GetCollectionNames
       :: (if existsb (String.eqb (name c)) names then []
           else [Logged (LogWarning ("表 " +:+ name c +:+ " 不存在，将创建"))]).
Proof.
  intros Huse Hnames.
  unfold processCollection_exists, checkCollectionExists. run.
  rewrite Huse. cbn [value final emitted world]. rewrite Hnames.
  cbn [value final emitted world]. rewrite dry.
  destruct (existsb (String.eqb (name c)) names); split; reflexivity.
Qed.

Lemma createIndex_turn_dry c existing i ic st :
  createIndex_turn env config c existing i ic st
  = mkRun (inr tt) st [Logged (dry_index_line existing i ic)].
Proof.
  unfold createIndex_turn, dry_index_line. rewrite dry.
  destruct (index_exists existing (key ic)); reflexivity.
Qed.

Lemma forEntries_createIndex_dry c existing idxs :
  forall i st,
    value (forEntries (createIndex_turn env config c existing) i idxs st) = inr tt
    /\ emitted (forEntries (createIndex_turn env config c existing) i idxs st)
       = map Logged (dry_index_lines existing i idxs).
Proof.
  induction idxs as [| ic idxs IH]; intros i st; cbn [forEntries dry_index_lines map].
  - split; reflexivity.
  - rewrite (run_bind_value _ _ st tt) by (rewrite createIndex_turn_dry; reflexivity).
    rewrite createIndex_turn_dry. cbn [value final emitted app].
    destruct (IH (S i) st) as [Hv He]. rewrite He. split; [exact Hv | reflexivity].
Qed.

Lemma createIndexes_dry c st existing ic idxs :
  indexes c = Some (ic :: idxs) ->
  fst (handle env (GetIndexes (name c)) (world st)) = inr existing ->
  value (createIndexes env config c st) = inr tt
  /\ emitted (createIndexes env config c st)
     = Logged (LogInfo ("创建业务索引 (" +:+ string_of_nat (length (ic :: idxs)) +:+ " 个)"))
       :: Called (GetIndexes (name c))
       :: map Logged (dry_index_lines existing 0 (ic :: idxs)).
Proof.
  intros Hidx Hget. unfold createIndexes. rewrite Hidx.
  unfold logger_info. rewrite run_emit_bind. cbv beta.
  assert (Hi : value (invoke env (GetIndexes (name c)) st) = inr existing) by exact Hget.
  rewrite (run_bind_value _ _ _ _ Hi). cbn [value final emitted].
  destruct (forEntries_createIndex_dry
              c existing (ic :: idxs) 0 (final (invoke env (GetIndexes (name c)) st)))
    as [Hv He].
  rewrite He. split; [exact Hv | reflexivity].
Qed.

Lemma createShardKeyIndex_dry c st existing :
  fst (handle env (GetIndexes (name c)) (world st)) = inr existing ->
  value (createShardKeyIndex env config c st) = inr tt
  /\ emitted (createShardKeyIndex env config c st)
     = [ Logged (LogInfo ("创建分片键索引（_id 哈希）: " +:+ JSON_stringify (shardKey c)));
         Called (GetIndexes (name c));
         Logged (LogInfo (if index_exists existing (shardKey c)
                          then "  分片键索引已存在"
                          else "  [试运行] 创建 _id 哈希索引")) ].
Proof.
  intros Hget. unfold createShardKeyIndex.
  unfold logger_info. rewrite run_emit_bind. cbv beta.
  assert (Hi : value (invoke env (GetIndexes (name c)) st) = inr existing) by exact Hget.
  rewrite (run_bind_value _ _ _ _ Hi). cbn [value final emitted].
  rewrite dry.
  destruct (index_exists existing (shardKey c)); split; reflexivity.
Qed.

End DrySteps.

Section ShardedCheck.

Context {W : Type}.
Variable env : Env W.
Variable config : Config.

(** In every mode the sharded check follows the existence step. *)
Lemma processCollection_try_checks_sharded c st :
  value (processCollection_exists env config c st) = inr tt ->
  exists rest,
    calls_of (emitted (processCollection_try env config c st))
    = calls_of (emitted (processCollection_exists env config c st))
      ++ CollectionsFindOne (fullNameOf config c) :: rest.
Proof.
  intros Hex. unfold processCollection_try. cbv zeta.
  rewrite (run_bind_value _ _ _ _ Hex). cbn [emitted]. rewrite calls_of_app.
  unfold checkIfSharded.
  match goal with
  | |- context [bind (bind ?m ?f) ?g ?s] =>
      destruct (calls_of_bind_prefix (bind m f) g s) as [rest1 H1];
      destruct (calls_of_bind_prefix m f s) as [rest2 H2]
  end.
  rewrite H1, H2. cbn [invoke emitted calls_of app].
  eexists. reflexivity.
Qed.

End ShardedCheck.

(** The one-collection configuration without the final validation, in
    either mode. *)
Definition one_collection_unvalidated (dry : bool) : Config := {|
  connectionString := "";
  database := "d";
  collections := [ collection_c ];
  sharding := {| initialChunks := 3; chunkSizeMB := 64; enableBalancer := true |};
  options := {| skipExistingSharded := true;
                backgroundIndex := true;
                validateResults_opt := false;
                dryRun := dry |}
|}.

(** C7, as stated, fails: the chunk count, which the actual run reads before
    it splits, is not read in the dry run. *)
Lemma dry_run_checks_counterexample :
  let w := Mock.start cluster_with_plain_index in
  In (ChunksCountDocuments "d.c")
     (calls_of (emitted (main Mock.env (one_collection_unvalidated false) w)))
  /\ In (ChunksCountDocuments "d.c")
        (calls_of (emitted (processCollection Mock.env one_collection collection_c w)))
  /\ calls_of (emitted (main Mock.env (one_collection_unvalidated true) w))
     = [RunCommandHello; RunCommandConnectionStatus; Use "d"; GetCollectionNames;
        CollectionsFindOne "d.c"; GetIndexes "c"; GetIndexes "c"]
  /\ calls_of (emitted (processCollection Mock.env CONFIG_dry_run collection_c w))
     = [Use "xsdk_v2_test"; GetCollectionNames; CollectionsFindOne "xsdk_v2_test.c";
        GetIndexes "c"; GetIndexes "c"].
Proof.
  cbv zeta. split; [vm_compute; tauto |]. split; [vm_compute; tauto |].
  split; vm_compute; reflexivity.
Qed.

Section DryCollection.

Context {W : Type}.
Variable env : Env W.
Variable config : Config.
Hypothesis dry : dryRun (options config) = true.

Lemma checkIfSharded_events fullName st :
  emitted (checkIfSharded env fullName st) = [Called (CollectionsFindOne fullName)].
Proof.
  unfold checkIfSharded, bind, invoke, ret.
  cbn [value final emitted world results fst snd].
  destruct (fst (handle env (CollectionsFindOne fullName) (world st))); reflexivity.
Qed.

(** What a dry run logs for the configured indexes, with the listing it
    makes when there are any. *)
Definition dry_index_events (c : CollConfig) (existing : list IndexDoc) : list event :=
  match indexes c with
  | Some (ic :: idxs) =>
      Logged (LogInfo ("创建业务索引 (" +:+ string_of_nat (length (ic :: idxs)) +:+ " 个)"))
      :: Called (GetIndexes (name c))
      :: map Logged (dry_index_lines existing 0 (ic :: idxs))
  | _ => []
  end.

(** What a dry run emits after the sharded check, for a collection that is
    not skipped. *)
Definition dry_steps (c : CollConfig) (existing existing' : list IndexDoc) : list event :=
  dry_index_events c existing
  ++ [ Logged (LogInfo ("创建分片键索引（_id 哈希）: " +:+ JSON_stringify (shardKey c)));
       Called (GetIndexes (name c));
       Logged (LogInfo (if index_exists existing' (shardKey c)
                        then "  分片键索引已存在"
                        else "  [试运行] 创建 _id 哈希索引"));
       Logged (LogInfo "启用表分片");
       Logged (LogInfo ("  分片键: " +:+ JSON_stringify (shardKey c)));
       Logged (LogInfo ("  [试运行] 启用分片: " +:+ fullNameOf config c));
       Logged (LogInfo ("预先分割分块 (目标: "
                        +:+ string_of_Z (initialChunks (sharding config)) +:+ " 个)"));
       Logged (LogInfo "  [试运行] 分割分块");
       Logged (LogSuccess ("表 " +:+ name c +:+ " 处理完成")) ].

(** The dry run of a collection that is not skipped, once its reads are
    answered: after the existence step and the sharded check, the index
    listings are made and every mutating step is replaced by its lines. *)
Lemma processCollection_dry c st d existing existing' :
  value (processCollection_exists env config c st) = inr tt ->
  fst (handle env (CollectionsFindOne (fullNameOf config c))
              (world (after_exists env config c st))) = inr d ->
  match d with
  | Some doc => match collection_key doc with Some _ => true | None => false end
  | None => false
  end && skipExistingSharded (options config) = false ->
  (forall ic idxs,
      indexes c = Some (ic :: idxs) ->
      fst (handle env (GetIndexes (name c)) (world (after_check env config c st)))
      = inr existing) ->
  fst (handle env (GetIndexes (name c)) (world (after_indexes env config c st)))
  = inr existing' ->
  let r := processCollection env config c st in
  value r = inr tt
  /\ results (final r) = add_success (name c) (results st)
  /\ emitted r
     = Logged LogDivider
       :: Logged (LogInfo ("处理表: " +:+ name c +:+ " (" +:+ description c +:+ ")"))
       :: emitted (processCollection_exists env config c st)
       ++ Called (CollectionsFindOne (fullNameOf config c))
       :: dry_steps c existing existing'.
Proof.
  intros Hex Hfind Hgo Hlist Hlist'. cbv zeta.
  assert (Hidx : value (createIndexes env config c (after_check env config c st)) = inr tt
                 /\ emitted (createIndexes env config c (after_check env config c st))
                    = dry_index_events c existing).
  { unfold dry_index_events.
    destruct (indexes c) as [[| ic idxs] |] eqn:Hi.
    - unfold createIndexes. rewrite Hi. split; reflexivity.
    - exact (createIndexes_dry env config dry c _ existing ic idxs Hi (Hlist ic idxs eq_refl)).
    - unfold createIndexes. rewrite Hi. split; reflexivity. }
  destruct Hidx as [Hiv Hie].
  destruct (createShardKeyIndex_dry env config dry c _ existing' Hlist') as [Hkv Hke].
  pose proof (enableCollectionSharding_dry env config dry c
                                           (after_shard_key env config c st)) as Hsh.
  assert (Hs4 : after_sharding env config c st = after_shard_key env config c st).
  { unfold after_sharding. rewrite Hsh. reflexivity. }
  pose proof (preSplitChunks_dry env config c (after_sharding env config c st) dry) as Hsp.
  assert (Hr : reached env config PreSplit c st).
  { cbn [reached step_thrown]. unfold thrown. rewrite Hex, Hiv, Hkv, Hsh.
    split; [reflexivity |]. split; [| repeat split; reflexivity].
    eexists. split; [apply (checkIfSharded_answered env _ _ _ Hfind) | exact Hgo]. }
  assert (Ht : step_thrown env config PreSplit c st = None).
  { cbn [step_thrown]. unfold thrown. rewrite Hsp. reflexivity. }
  rewrite (processCollection_when_returned
             env config c st _ _ (try_when_all_return env config c st Hr Ht)).
  cbn [value final emitted results].
  split; [reflexivity |].
  split; [f_equal; exact (step_end_results env config PreSplit c st) |].
  cbn [events_before step_events]. rewrite checkIfSharded_events, Hie, Hke, Hsh, Hsp.
  cbn [emitted]. unfold dry_steps.
  rewrite <- !app_assoc. reflexivity.
Qed.

End DryCollection.

(** C7, amended.  In a dry run the steps read what they read in an actual
    run, except the chunk count: the existence check, the sharded check and
    the index listings are made (the connection check is the same in both
    modes), and every mutating step is replaced by lines of the log: the
    database-level step and the collection-level sharding by a dry-run line
    each, a missing collection by the warning that it will be created, each
    configured index by a line that it exists or a dry-run line that it
    would be created, the shard-key index likewise, and the pre-split by one
    dry-run line, logged without reading the chunk count.  So the dry run of
    a collection that is not skipped, once its reads are answered, is the
    existence step, the sharded check, the listing for the configured
    indexes when there are any, the listing for the shard-key index, and
    these lines; the collection is recorded as a success. *)
Theorem dry_run_reads_and_logs :
  forall (W : Type) (env : Env W) (config : Config),
    dryRun (options config) = true ->
    (forall st,
        enableDatabaseSharding env config st
        = mkRun (inr tt) st
                [ Logged (LogInfo ("启用数据库分片: " +:+ database config));
                  Logged (LogInfo "[试运行] 跳过实际执行") ])
    /\ (forall c st names,
           fst (handle env (Use (database config)) (world st)) = inr tt ->
           fst (handle env GetCollectionNames
                       (snd (handle env (Use (database config)) (world st))))
           = inr names ->
           value (processCollection_exists env config c st) = inr tt
           /\ emitted (processCollection_exists env config c st)
              = Called (Use (database config)) :: Called GetCollectionNames
                :: (if existsb (String.eqb (name c)) names then []
                    else [Logged (LogWarning ("表 " +:+ name c +:+ " 不存在，将创建"))]))
    /\ (forall c st,
           value (processCollection_exists env config c st) = inr tt ->
           exists rest,
             calls_of (emitted (processCollection env config c st))
             = calls_of (emitted (processCollection_exists env config c st))
               ++ CollectionsFindOne (fullNameOf config c) :: rest)
    /\ (forall c st existing ic idxs,
           indexes c = Some (ic :: idxs) ->
           fst (handle env (GetIndexes (name c)) (world st)) = inr existing ->
           value (createIndexes env config c st) = inr tt
           /\ emitted (createIndexes env config c st)
              = Logged (LogInfo ("创建业务索引 ("
                                 +:+ string_of_nat (length (ic :: idxs)) +:+ " 个)"))
                :: Called (GetIndexes (name c))
                :: map Logged (dry_index_lines existing 0 (ic :: idxs)))
    /\ (forall c st existing,
           fst (handle env (GetIndexes (name c)) (world st)) = inr existing ->
           value (createShardKeyIndex env config c st) = inr tt
           /\ emitted (createShardKeyIndex env config c st)
              = [ Logged (LogInfo ("创建分片键索引（_id 哈希）: "
                                   +:+ JSON_stringify (shardKey c)));
                  Called (GetIndexes (name c));
                  Logged (LogInfo (if index_exists existing (shardKey c)
                                   then "  分片键索引已存在"
                                   else "  [试运行] 创建 _id 哈希索引")) ])
    /\ (forall c st,
           enableCollectionSharding env config c st
           = mkRun (inr tt) st
                   [ Logged (LogInfo "启用表分片");
                     Logged (LogInfo ("  分片键: " +:+ JSON_stringify (shardKey c)));
                     Logged (LogInfo ("  [试运行] 启用分片: " +:+ fullNameOf config c)) ])
    /\ (forall c st,
           preSplitChunks env config c st
           = mkRun (inr tt) st
                   [ Logged (LogInfo ("预先分割分块 (目标: "
                                      +:+ string_of_Z (initialChunks (sharding config))
                                      +:+ " 个)"));
                     Logged (LogInfo "  [试运行] 分割分块") ])
    /\ (forall c st d existing existing',
           value (processCollection_exists env config c st) = inr tt ->
           fst (handle env (CollectionsFindOne (fullNameOf config c))
                       (world (after_exists env config c st))) = inr d ->
           match d with
           | Some doc => match collection_key doc with Some _ => true | None => false end
           | None => false
           end && skipExistingSharded (options config) = false ->
           (forall ic idxs,
               indexes c = Some (ic :: idxs) ->
               fst (handle env (GetIndexes (name c)) (world (after_check env config c st)))
               = inr existing) ->
           fst (handle env (GetIndexes (name c)) (world (after_indexes env config c st)))
           = inr existing' ->
           value (processCollection env config c st) = inr tt
           /\ results (final (processCollection env config c st))
              = add_success (name c) (results st)
           /\ emitted (processCollection env config c st)
              = Logged LogDivider
                :: Logged (LogInfo ("处理表: " +:+ name c +:+ " (" +:+ description c +:+ ")"))
                :: emitted (processCollection_exists env config c st)
                ++ Called (CollectionsFindOne (fullNameOf config c))
                :: dry_steps config c existing existing').
Proof.
  intros W env config Hdry. repeat apply conj.
  - apply enableDatabaseSharding_dry. exact Hdry.
  - intros c st names. apply processCollection_exists_dry. exact Hdry.
  - intros c st Hex. rewrite processCollection_calls.
    apply processCollection_try_checks_sharded. exact Hex.
  - intros c st existing ic idxs. apply createIndexes_dry. exact Hdry.
  - intros c st existing. apply createShardKeyIndex_dry. exact Hdry.
  - intros c st. apply enableCollectionSharding_dry. exact Hdry.
  - intros c st. apply preSplitChunks_dry. exact Hdry.
  - intros c st d existing existing'.
    exact (processCollection_dry env config Hdry c st d existing existing').
Qed.

Lemma dry_run_reads_and_logs_witness :
  let r := processCollection Mock.env CONFIG_dry_run collection_c
                             (Mock.start cluster_with_plain_index) in
  dryRun (options CONFIG_dry_run) = true
  /\ calls_of (emitted r)
     = [Use "xsdk_v2_test"; GetCollectionNames; CollectionsFindOne "xsdk_v2_test.c";
        GetIndexes "c"; GetIndexes "c"]
  /\ In (Logged (LogInfo "  [试运行] 启用分片: xsdk_v2_test.c")) (emitted r)
  /\ In (Logged (LogInfo "  [试运行] 分割分块")) (emitted r)
  /\ results (final r) = add_success "c" no_results.
Proof.
  cbv zeta. split; [reflexivity |].
  destruct (dry_run_reads_and_logs _ Mock.env CONFIG_dry_run eq_refl)
    as (_ & _ & _ & _ & _ & _ & _ & H).
  destruct (H collection_c (Mock.start cluster_with_plain_index) None
              (Mock.indexesOf "c" cluster_with_plain_index)
              (Mock.indexesOf "c" cluster_with_plain_index)
              eq_refl eq_refl eq_refl (fun _ _ _ => eq_refl) eq_refl)
    as [_ [Hres Hem]].
  rewrite Hem. split; [vm_compute; reflexivity |].
  split; [vm_compute; tauto |]. split; [vm_compute; tauto | exact Hres].
Defined.

(** * Further properties of the script *)

(** ** Properties of objects *)

(** Reading a property of a flat object. *)
Fixpoint get_property {A} (k : string) (o : list (string * A)) : option A :=
  match o with
  | [] => None
  | (k', v) :: o' => if String.eqb k' k then Some v else get_property k o'
  end.

Lemma get_set_property_same k v o : get_property k (set_property k v o) = Some v.
Proof.
  induction o as [| [k' v'] o IH]; cbn [set_property get_property].
  - rewrite String.eqb_refl. reflexivity.
  - destruct (String.eqb k' k) eqn:E; cbn [get_property].
    + rewrite String.eqb_refl. reflexivity.
    + rewrite E. exact IH.
Qed.

Lemma get_set_property_other k k' v o :
  k' <> k -> get_property k' (set_property k v o) = get_property k' o.
Proof.
  intros Hne. induction o as [| [k0 v0] o IH]; cbn [set_property get_property].
  - destruct (String.eqb_spec k k'); [congruence | reflexivity].
  - destruct (String.eqb_spec k0 k) as [-> | Hk]; cbn [get_property].
    + destruct (String.eqb_spec k k'); [congruence | reflexivity].
    + rewrite IH. reflexivity.
Qed.

Lemma set_property_fields k v o :
  map fst (set_property k v o)
  = if existsb (String.eqb k) (map fst o) then map fst o else map fst o ++ [k].
Proof.
  induction o as [| [k0 v0] o IH]; cbn [set_property map fst existsb app]; [reflexivity |].
  rewrite (String.eqb_sym k k0).
  destruct (String.eqb_spec k0 k) as [-> | Hk]; cbn [map fst orb]; [reflexivity |].
  rewrite IH. destruct (existsb (String.eqb k) (map fst o)); reflexivity.
Qed.

Lemma set_property_twice k v v' o :
  set_property k v (set_property k v' o) = set_property k v o.
Proof.
  induction o as [| [k0 v0] o IH]; cbn [set_property].
  - rewrite String.eqb_refl. reflexivity.
  - destruct (String.eqb k0 k) eqn:E; cbn [set_property].
    + rewrite String.eqb_refl. reflexivity.
    + rewrite E, IH. reflexivity.
Qed.

(** X1. Every [createIndex] call of [createIndexes] is for the configured
    collection and for one of its configured indexes, with that index's key
    pattern and with the options object [{...idxConfig.options, background:
    ...}]: its [background] is the [backgroundIndex] option, whatever the
    configuration says; every other configured option is passed on as it
    is; the properties keep their order, [background] coming last when it is
    new. *)
Theorem index_options_carry_background :
  forall (W : Type) (env : Env W) (config : Config) (c : CollConfig) (st : State W)
         (existing : list IndexDoc),
    fst (handle env (GetIndexes (name c)) (world st)) = inr existing ->
    forall coll k o,
      In (CreateIndex coll k o) (calls_of (emitted (createIndexes env config c st))) ->
      coll = name c
      /\ exists ic idxs,
          indexes c = Some idxs /\ In ic idxs /\ k = key ic
          /\ get_property "background" o = Some (JBool (backgroundIndex (options config)))
          /\ (forall k', k' <> "background" ->
                         get_property k' o = get_property k' (indexOptions ic))
          /\ map fst o
             = (if existsb (String.eqb "background") (map fst (indexOptions ic))
                then map fst (indexOptions ic)
                else map fst (indexOptions ic) ++ ["background"]).
Proof.
  intros W env config c st existing Hget coll k o Hin.
  destruct (createIndexes_calls env config c st existing Hget) as [_ Hc].
  rewrite Hc in Hin. clear Hc.
  destruct (indexes c) as [[| ic0 idxs] |] eqn:Hidx; try (destruct Hin; fail).
  destruct Hin as [Hin | Hin]; [discriminate Hin |].
  destruct (dryRun (options config)); [destruct Hin |].
  apply in_map_iff in Hin. destruct Hin as [ic [Heq Hmiss]].
  unfold creation in Heq. injection Heq as <- <- <-.
  split; [reflexivity |].
  exists ic, (ic0 :: idxs). split; [reflexivity |].
  split; [unfold missing in Hmiss; apply filter_In in Hmiss; apply Hmiss |].
  split; [reflexivity |].
  split; [apply get_set_property_same |].
  split; [intros k' Hk'; apply get_set_property_other; exact Hk' |].
  apply set_property_fields.
Qed.

Lemma index_options_carry_background_witness :
  In create_unique_index_a
     (calls_of (emitted (createIndexes Mock.env one_collection collection_c
                                       (Mock.start Mock.empty))))
  /\ get_property "background"
                  [("unique", JBool true); ("name", JStr "idx_a"); ("background", JBool true)]
     = Some (JBool true).
Proof.
  assert (Hin : In create_unique_index_a
                   (calls_of (emitted (createIndexes Mock.env one_collection collection_c
                                                     (Mock.start Mock.empty)))))
    by (vm_compute; tauto).
  split; [exact Hin |].
  destruct (index_options_carry_background
              _ Mock.env one_collection collection_c (Mock.start Mock.empty) _ eq_refl
              _ _ _ Hin) as [_ [ic [idxs [_ [_ [_ [Hbg _]]]]]]].
  exact Hbg.
Defined.

(** X2. [createIndexes] in full.  Without configured indexes it does
    nothing at all, not even list the indexes.  When the listing throws, the
    error is thrown on and nothing is created.  Otherwise the step returns,
    and in an actual run it attempts one [createIndex] for every configured
    index whose key pattern the listing does not have, in the configured
    order, whether or not the attempts before it succeeded: the listing is
    taken once, so that a key pattern configured twice and missing is
    attempted twice. *)
Theorem createIndexes_attempts_every_missing_index :
  forall (W : Type) (env : Env W) (config : Config) (c : CollConfig) (st : State W),
    (indexes c = None \/ indexes c = Some [] ->
     createIndexes env config c st = mkRun (inr tt) st [])
    /\ (forall ic idxs e,
           indexes c = Some (ic :: idxs) ->
           fst (handle env (GetIndexes (name c)) (world st)) = inl e ->
           value (createIndexes env config c st) = inl e
           /\ calls_of (emitted (createIndexes env config c st)) = [GetIndexes (name c)])
    /\ (forall ic idxs existing,
           indexes c = Some (ic :: idxs) ->
           fst (handle env (GetIndexes (name c)) (world st)) = inr existing ->
           dryRun (options config) = false ->
           value (createIndexes env config c st) = inr tt
           /\ calls_of (emitted (createIndexes env config c st))
              = GetIndexes (name c)
                :: map (fun ic' =>
                          CreateIndex (name c) (key ic')
                                      (set_property "background"
                                                    (JBool (backgroundIndex (options config)))
                                                    (indexOptions ic')))
                       (filter (fun ic' => negb (index_exists existing (key ic')))
                               (ic :: idxs))).
Proof.
  intros W env config c st. repeat apply conj.
  - intros [H | H]; unfold createIndexes; rewrite H; reflexivity.
  - intros ic idxs e Hidx Hget. unfold createIndexes. rewrite Hidx.
    unfold logger_info. rewrite run_emit_bind. cbv beta.
    assert (Hi : value (invoke env (GetIndexes (name c)) st) = inl e) by exact Hget.
    rewrite (run_bind_error _ _ _ _ Hi). split; reflexivity.
  - intros ic idxs existing Hidx Hget Hactual.
    destruct (createIndexes_calls env config c st existing Hget) as [Hv Hc].
    rewrite Hidx, Hactual in Hc. split; [exact Hv | exact Hc].
Qed.

Lemma createIndexes_attempts_every_missing_index_witness :
  calls_of (emitted (createIndexes Mock.env one_collection collection_c
                                   (Mock.start cluster_with_plain_index)))
  = [GetIndexes "c";
     CreateIndex "c" (asc "b") [("name", JStr "idx_b"); ("background", JBool true)]].
Proof.
  exact (proj2 (proj2 (proj2 (createIndexes_attempts_every_missing_index
                                _ Mock.env one_collection collection_c
                                (Mock.start cluster_with_plain_index)))
                      _ _ _ eq_refl eq_refl eq_refl)).
Defined.

(** ** Result documents of the [sh] helpers *)

Lemma includes_skip c s n0 n :
  c <> n0 -> includes (String c s) (String n0 n) = includes s (String n0 n).
Proof.
  intros Hne. cbn [includes String.prefix].
  destruct (ascii_dec n0 c) as [E | _]; [congruence | reflexivity].
Qed.

Lemma includes_after_enable_failed json :
  includes ("启用失败: " +:+ json) "already enabled" = includes json "already enabled".
Proof.
  cbn [String.append].
  repeat (rewrite includes_skip by discriminate). reflexivity.
Qed.

Lemma includes_after_shard_failed json needle0 needle :
  needle0 = "a"%char \/ needle0 = "c"%char ->
  includes ("分片失败: " +:+ json) (String needle0 needle) = includes json (String needle0 needle).
Proof.
  intros H. cbn [String.append].
  destruct H as [-> | ->]; repeat (rewrite includes_skip by discriminate); reflexivity.
Qed.

(** X3. What the script makes of the document a sharding helper returns,
    in an actual run.  A document with [ok] equal to 1 is a success.  Any
    other document is turned into an error and goes through the same
    [catch] as a thrown one: at the database level it is swallowed exactly
    when its JSON text contains 'already enabled', at the collection level
    exactly when it contains 'already sharded'; otherwise the error is
    thrown with the text in its message, after a warning when the text
    contains 'create an index'. *)
Theorem helper_result_documents :
  forall (W : Type) (env : Env W) (config : Config),
    dryRun (options config) = false ->
    (forall st result,
        fst (handle env (EnableSharding (database config)) (world st)) = inr result ->
        value (enableDatabaseSharding env config st)
        = if ok_is_1 result then inr tt
          else if includes (result_json result) "already enabled" then inr tt
               else inl {| message := "启用失败: " +:+ result_json result |})
    /\ (forall c st result,
           fst (handle env (ShardCollection (fullNameOf config c) (shardKey c)) (world st))
           = inr result ->
           value (enableCollectionSharding env config c st)
           = (if ok_is_1 result then inr tt
              else if includes (result_json result) "already sharded" then inr tt
                   else inl {| message := "分片失败: " +:+ result_json result |})
           /\ (ok_is_1 result = false ->
               includes (result_json result) "already sharded" = false ->
               includes (result_json result) "create an index" = true ->
               In (Logged (LogWarning "  分片失败: 需要先创建索引"))
                  (emitted (enableCollectionSharding env config c st)))).
Proof.
  intros W env config Hactual. split.
  - intros st result Hres.
    unfold enableDatabaseSharding. rewrite Hactual.
    unfold logger_info at 1. rewrite run_emit_bind. cbv beta. cbn [value].
    unfold try_catch, bind, invoke. cbn [value final emitted]. rewrite Hres.
    cbn [value final emitted].
    destruct (ok_is_1 result); [reflexivity |].
    cbn [throw value final emitted message].
    rewrite includes_after_enable_failed.
    destruct (includes (result_json result) "already enabled"); reflexivity.
  - intros c st result Hres.
    unfold enableCollectionSharding. cbv zeta. rewrite Hactual.
    unfold try_catch, bind, invoke, logger_info, logger_success, logger_warning, emit, throw.
    cbn [value final emitted]. rewrite Hres. cbn [value final emitted].
    destruct (ok_is_1 result).
    + split; [reflexivity | intros H; discriminate H].
    + cbn [value final emitted message].
      rewrite (includes_after_shard_failed (result_json result) "a" "lready sharded")
        by (left; reflexivity).
      rewrite (includes_after_shard_failed (result_json result) "c" "reate an index")
        by (right; reflexivity).
      destruct (includes (result_json result) "already sharded").
      * split; [reflexivity | intros _ H; discriminate H].
      * destruct (includes (result_json result) "create an index").
        -- split; [reflexivity |]. intros _ _ _. cbn [value final emitted app In].
           right; right; right; left. reflexivity.
        -- split; [reflexivity | intros _ _ H; discriminate H].
Qed.

(** A cluster that answers [enableSharding] with a document that is not ok
    and says that sharding is already enabled. *)
Definition already_enabled_document : CmdResult :=
  {| ok_is_1 := false;
     result_json := "{" +:+ dquote +:+ "ok" +:+ dquote +:+ ":0," +:+ dquote +:+ "errmsg"
                    +:+ dquote +:+ ":" +:+ dquote +:+ "sharding already enabled for database d"
                    +:+ dquote +:+ "}" |}.

Definition documents_env : Env Mock.Cluster := {|
  handle := fun c =>
              match c as c0 return Mock.Cluster -> (Error + reply c0) * Mock.Cluster with
              | EnableSharding _ => fun w => (inr already_enabled_document, w)
              | c0 => Mock.respond c0
              end;
  toISOString := toISOString Mock.env;
  getElapsedTime := getElapsedTime Mock.env;
  formatBytes := formatBytes Mock.env;
  toLocaleString := toLocaleString Mock.env;
  percentage := percentage Mock.env;
  inheritedText := inheritedText Mock.env
|}.

Lemma helper_result_documents_witness :
  dryRun (options one_collection) = false
  /\ value (enableDatabaseSharding documents_env one_collection (Mock.start Mock.empty))
     = inr tt.
Proof.
  split; [reflexivity |].
  exact (proj1 (helper_result_documents _ documents_env one_collection eq_refl)
               (Mock.start Mock.empty) already_enabled_document eq_refl).
Defined.

(** ** The connection check *)

Definition mongos_warning (h : HelloReply) : event :=
  Logged (LogWarning ("可能未连接到 mongos，当前连接类型: " +:+ undefined_or (msg h))).

Definition privilege_warning : event := Logged (LogWarning "用户可能缺少分片管理权限").

Definition is_mongos (h : HelloReply) : bool :=
  match msg h with
  | Some m => String.eqb m "isdbgrid"
  | None => false
  end.

Definition may_shard (r : Role) : bool :=
  String.eqb (role r) "clusterAdmin" || String.eqb (role r) "clusterManager".

(** ** Runs step by step *)

Section BigStep.

Context {W : Type}.
Variable env : Env W.
Implicit Types st s : State W.

Lemma step_bind {A B} (m : M W A) (f : A -> M W B) st a s evs v s' evs' :
  m st = mkRun (inr a) s evs ->
  f a s = mkRun v s' evs' ->
  bind m f st = mkRun v s' (evs ++ evs').
Proof.
  intros Hm Hf. unfold bind. rewrite Hm. cbn [value final emitted]. rewrite Hf. reflexivity.
Qed.

Lemma step_bind_throws {A B} (m : M W A) (f : A -> M W B) st e s evs :
  m st = mkRun (inl e) s evs ->
  bind m f st = mkRun (inl e) s evs.
Proof. intros Hm. unfold bind. rewrite Hm. reflexivity. Qed.

Lemma step_invoke (c : call) st r :
  fst (handle env c (world st)) = r ->
  invoke env c st
  = mkRun r {| world := snd (handle env c (world st)); results := results st |} [Called c].
Proof. intros <-. reflexivity. Qed.

Lemma step_try_rethrows (m : M W unit) (wrap : Error -> Error) st e s evs :
  m st = mkRun (inl e) s evs ->
  try_catch m (fun error => throw (wrap error)) st = mkRun (inl (wrap e)) s (evs ++ []).
Proof. intros Hm. unfold try_catch. rewrite Hm. reflexivity. Qed.

End BigStep.

(** ** The connection check, case by case *)

Section ConnectionCheck.

Context {W : Type}.
Variable env : Env W.

Definition connection_failed (m : string) : Error :=
  {| message := "连接验证失败: " +:+ m |}.

Lemma mongos_check_run (h : HelloReply) (s : State W) :
  exists evs,
    when (negb (is_mongos h))
         (logger_warning ("可能未连接到 mongos，当前连接类型: " +:+ undefined_or (msg h))) s
    = mkRun (inr tt) s evs
    /\ calls_of evs = []
    /\ ~ In privilege_warning evs
    /\ (In (mongos_warning h) evs <-> is_mongos h = false).
Proof.
  destruct (is_mongos h); cbn [negb when]; eexists;
    (split; [reflexivity | split; [reflexivity | split]]).
  - intros [].
  - split; [intros [] | intros H; discriminate H].
  - intros [H | []]. discriminate H.
  - split; [reflexivity | intros _; left; reflexivity].
Qed.

Lemma privilege_check_run (info : UserInfo) (s : State W) :
  exists evs,
    when (negb (existsb may_shard (roles info))) (logger_warning "用户可能缺少分片管理权限") s
    = mkRun (inr tt) s evs
    /\ calls_of evs = []
    /\ (In privilege_warning evs <-> existsb may_shard (roles info) = false).
Proof.
  destruct (existsb may_shard (roles info)); cbn [negb when]; eexists;
    (split; [reflexivity | split; [reflexivity |]]).
  - split; [intros [] | intros H; discriminate H].
  - split; [reflexivity | intros _; left; reflexivity].
Qed.

Lemma in_app_neither {A} (x : A) l l' : ~ In x l -> ~ In x l' -> ~ In x (l ++ l').
Proof. intros H H' Hin. apply in_app_or in Hin. tauto. Qed.

Lemma validateConnection_hello_throws st e :
  fst (handle env RunCommandHello (world st)) = inl e ->
  value (validateConnection env st) = inl (connection_failed (message e))
  /\ calls_of (emitted (validateConnection env st)) = [RunCommandHello].
Proof.
  intros Hh.
  assert (E : validateConnection env st
              = mkRun (inl (connection_failed (message e)))
                      {| world := snd (handle env RunCommandHello (world st));
                         results := results st |}
                      (Logged (LogInfo "验证 MongoDB 连接和权限...")
                       :: [Called RunCommandHello] ++ [])).
  { unfold validateConnection, logger_info at 1. apply step_emit.
    apply (step_try_rethrows _ (fun error => connection_failed (message error))).
    apply step_bind_throws. apply (step_invoke env _ st _ Hh). }
  rewrite E. split; reflexivity.
Qed.

Lemma validateConnection_status_throws st h e :
  fst (handle env RunCommandHello (world st)) = inr h ->
  fst (handle env RunCommandConnectionStatus (snd (handle env RunCommandHello (world st))))
  = inl e ->
  value (validateConnection env st) = inl (connection_failed (message e))
  /\ calls_of (emitted (validateConnection env st))
     = [RunCommandHello; RunCommandConnectionStatus].
Proof.
  intros Hh Hs.
  set (w1 := snd (handle env RunCommandHello (world st))) in *.
  destruct (mongos_check_run h {| world := w1; results := results st |})
    as [evs1 [Hw [Hwc _]]].
  assert (E : validateConnection env st
              = mkRun (inl (connection_failed (message e)))
                      {| world := snd (handle env RunCommandConnectionStatus w1);
                         results := results st |}
                      (Logged (LogInfo "验证 MongoDB 连接和权限...")
                       :: ([Called RunCommandHello] ++ evs1
                           ++ [Called RunCommandConnectionStatus]) ++ [])).
  { unfold validateConnection, logger_info at 1. apply step_emit.
    apply (step_try_rethrows _ (fun error => connection_failed (message error))).
    eapply step_bind; [apply (step_invoke env _ st _ Hh) |].
    eapply step_bind; [exact Hw |].
    apply step_bind_throws.
    apply (step_invoke env _ {| world := w1; results := results st |} _ Hs). }
  rewrite E. cbn [value emitted calls_of app].
  rewrite app_nil_r, calls_of_app, Hwc. split; reflexivity.
Qed.

Lemma validateConnection_no_user st h :
  fst (handle env RunCommandHello (world st)) = inr h ->
  fst (handle env RunCommandConnectionStatus (snd (handle env RunCommandHello (world st))))
  = inr [] ->
  value (validateConnection env st) = inr tt
  /\ calls_of (emitted (validateConnection env st))
     = [RunCommandHello; RunCommandConnectionStatus]
  /\ ~ In privilege_warning (emitted (validateConnection env st)).
Proof.
  intros Hh Hs.
  set (w1 := snd (handle env RunCommandHello (world st))) in *.
  destruct (mongos_check_run h {| world := w1; results := results st |})
    as [evs1 [Hw [Hwc [Hwp _]]]].
  assert (E : validateConnection env st
              = mkRun (inr tt)
                      {| world := snd (handle env RunCommandConnectionStatus w1);
                         results := results st |}
                      (Logged (LogInfo "验证 MongoDB 连接和权限...")
                       :: [Called RunCommandHello] ++ evs1
                          ++ [Called RunCommandConnectionStatus]
                          ++ [] ++ [Logged (LogSuccess "连接验证通过")])).
  { unfold validateConnection, logger_info at 1. apply step_emit.
    apply step_try_returned.
    eapply step_bind; [apply (step_invoke env _ st _ Hh) |].
    eapply step_bind; [exact Hw |].
    eapply step_bind;
      [apply (step_invoke env _ {| world := w1; results := results st |} _ Hs) |].
    eapply step_bind; reflexivity. }
  rewrite E. cbn [value emitted calls_of app].
  rewrite calls_of_app, Hwc.
  split; [reflexivity | split; [reflexivity |]].
  intros [H | H]; [discriminate H |].
  destruct H as [H | H]; [discriminate H |].
  apply in_app_or in H. destruct H as [H | H]; [exact (Hwp H) |].
  destruct H as [H | [H | []]]; discriminate H.
Qed.

Lemma validateConnection_user st h u us :
  fst (handle env RunCommandHello (world st)) = inr h ->
  fst (handle env RunCommandConnectionStatus (snd (handle env RunCommandHello (world st))))
  = inr (u :: us) ->
  forall answer,
    fst (handle env (AdminCommandUsersInfo (user u) (db u))
                (snd (handle env RunCommandConnectionStatus
                             (snd (handle env RunCommandHello (world st))))))
    = answer ->
    calls_of (emitted (validateConnection env st))
    = [RunCommandHello; RunCommandConnectionStatus; AdminCommandUsersInfo (user u) (db u)]
    /\ value (validateConnection env st)
       = match answer with
         | inl e => inl (connection_failed (message e))
         | inr [] =>
             inl (connection_failed "Cannot read properties of undefined (reading 'roles')")
         | inr (_ :: _) => inr tt
         end
    /\ (forall info infos,
           answer = inr (info :: infos) ->
           (In privilege_warning (emitted (validateConnection env st))
            <-> existsb may_shard (roles info) = false)).
Proof.
  intros Hh Hs answer Hu.
  set (w1 := snd (handle env RunCommandHello (world st))) in *.
  set (w2 := snd (handle env RunCommandConnectionStatus w1)) in *.
  set (asked := AdminCommandUsersInfo (user u) (db u)) in *.
  set (s1 := {| world := w1; results := results st |}).
  set (s2 := {| world := w2; results := results st |}).
  set (s3 := {| world := snd (handle env asked w2); results := results st |}).
  set (connected := Logged (LogSuccess ("已连接用户: " +:+ user u +:+ "@" +:+ db u))).
  destruct (mongos_check_run h s1) as [evs1 [Hw [Hwc [Hwp _]]]].
  destruct answer as [e | [| info infos]].
  - assert (E : validateConnection env st
                = mkRun (inl (connection_failed (message e))) s3
                        (Logged (LogInfo "验证 MongoDB 连接和权限...")
                         :: ([Called RunCommandHello] ++ evs1
                             ++ [Called RunCommandConnectionStatus]
                             ++ connected :: [Called asked]) ++ [])).
    { unfold validateConnection, logger_info at 1. apply step_emit.
      apply (step_try_rethrows _ (fun error => connection_failed (message error))).
      eapply step_bind; [apply (step_invoke env _ st _ Hh) |].
      eapply step_bind; [exact Hw |].
      eapply step_bind; [apply (step_invoke env _ s1 _ Hs) |].
      apply step_bind_throws.
      unfold logger_success. apply step_emit.
      apply step_bind_throws. apply (step_invoke env _ s2 _ Hu). }
    rewrite E. cbn [value emitted calls_of app].
    rewrite app_nil_r, calls_of_app, Hwc.
    split; [reflexivity | split; [reflexivity |]].
    intros info infos H. discriminate H.
  - assert (E : validateConnection env st
                = mkRun (inl (connection_failed
                                "Cannot read properties of undefined (reading 'roles')")) s3
                        (Logged (LogInfo "验证 MongoDB 连接和权限...")
                         :: ([Called RunCommandHello] ++ evs1
                             ++ [Called RunCommandConnectionStatus]
                             ++ connected :: [Called asked] ++ []) ++ [])).
    { unfold validateConnection, logger_info at 1. apply step_emit.
      apply (step_try_rethrows
               _ (fun error => connection_failed (message error)) _
               {| message := "Cannot read properties of undefined (reading 'roles')" |}).
      eapply step_bind; [apply (step_invoke env _ st _ Hh) |].
      eapply step_bind; [exact Hw |].
      eapply step_bind; [apply (step_invoke env _ s1 _ Hs) |].
      apply step_bind_throws.
      unfold logger_success. apply step_emit.
      eapply step_bind; [apply (step_invoke env _ s2 _ Hu) |].
      reflexivity. }
    rewrite E. cbn [value emitted calls_of app].
    rewrite !app_nil_r, calls_of_app, Hwc.
    split; [reflexivity | split; [reflexivity |]].
    intros info infos H. discriminate H.
  - destruct (privilege_check_run info s3) as [evs2 [Hp [Hpc Hpw]]].
    assert (E : validateConnection env st
                = mkRun (inr tt) s3
                        (Logged (LogInfo "验证 MongoDB 连接和权限...")
                         :: [Called RunCommandHello] ++ evs1
                            ++ [Called RunCommandConnectionStatus]
                            ++ (connected :: [Called asked] ++ evs2)
                            ++ [Logged (LogSuccess "连接验证通过")])).
    { unfold validateConnection, logger_info at 1. apply step_emit.
      apply step_try_returned.
      eapply step_bind; [apply (step_invoke env _ st _ Hh) |].
      eapply step_bind; [exact Hw |].
      eapply step_bind; [apply (step_invoke env _ s1 _ Hs) |].
      eapply step_bind; [| reflexivity].
      unfold logger_success. apply step_emit.
      eapply step_bind; [apply (step_invoke env _ s2 _ Hu) |].
      exact Hp. }
    rewrite E. cbn [value emitted calls_of app].
    rewrite calls_of_app, Hwc. cbn [calls_of app]. rewrite calls_of_app, Hpc.
    split; [reflexivity | split; [reflexivity |]].
    intros info' infos' H. injection H as <- <-.
    rewrite <- Hpw. split.
    + intros [H | H]; [discriminate H |].
      destruct H as [H | H]; [discriminate H |].
      apply in_app_or in H. destruct H as [H | H]; [destruct (Hwp H) |].
      destruct H as [H | H]; [discriminate H |].
      destruct H as [H | H]; [discriminate H |].
      destruct H as [H | H]; [discriminate H |].
      apply in_app_or in H. destruct H as [H | H]; [exact H |].
      destruct H as [H | []]. discriminate H.
    + intros H. right. right. apply in_or_app. right. right. right. right.
      apply in_or_app. left. exact H.
Qed.

End ConnectionCheck.

(** A cluster with one authenticated user whom [usersInfo] does not know. *)
Definition unknown_user_env : Env Mock.Cluster := {|
  handle := fun c =>
              match c as c0 return Mock.Cluster -> (Error + reply c0) * Mock.Cluster with
              | RunCommandConnectionStatus =>
                  fun w => (inr [ {| user := "ops"; db := "$external" |} ], w)
              | c0 => Mock.respond c0
              end;
  toISOString := toISOString Mock.env;
  getElapsedTime := getElapsedTime Mock.env;
  formatBytes := formatBytes Mock.env;
  toLocaleString := toLocaleString Mock.env;
  percentage := percentage Mock.env;
  inheritedText := inheritedText Mock.env
|}.

(** X4. The connection check, by what the cluster answers.  An error of
    [hello], of [connectionStatus] or of [usersInfo] is thrown on as a
    connection failure carrying its message, and no call follows it.
    Without an authenticated user the check passes after two calls, with no
    privilege check.  With one, [usersInfo] is asked about the first user
    only: when it knows no such user the check fails on reading the roles
    of nothing; otherwise it passes, and the missing-privilege warning is
    logged exactly when none of the user's roles is [clusterAdmin] or
    [clusterManager].  Whatever the check throws is a connection failure. *)
Theorem connection_check_outcomes :
  forall (W : Type) (env : Env W) (st : State W),
    (forall e, value (validateConnection env st) = inl e ->
               exists m, e = connection_failed m)
    /\ (forall e,
           fst (handle env RunCommandHello (world st)) = inl e ->
           value (validateConnection env st) = inl (connection_failed (message e))
           /\ calls_of (emitted (validateConnection env st)) = [RunCommandHello])
    /\ (forall h,
           fst (handle env RunCommandHello (world st)) = inr h ->
           let w1 := snd (handle env RunCommandHello (world st)) in
           (forall e,
               fst (handle env RunCommandConnectionStatus w1) = inl e ->
               value (validateConnection env st) = inl (connection_failed (message e))
               /\ calls_of (emitted (validateConnection env st))
                  = [RunCommandHello; RunCommandConnectionStatus])
           /\ (fst (handle env RunCommandConnectionStatus w1) = inr [] ->
               value (validateConnection env st) = inr tt
               /\ calls_of (emitted (validateConnection env st))
                  = [RunCommandHello; RunCommandConnectionStatus]
               /\ ~ In privilege_warning (emitted (validateConnection env st)))
           /\ (forall u us answer,
                  fst (handle env RunCommandConnectionStatus w1) = inr (u :: us) ->
                  fst (handle env (AdminCommandUsersInfo (user u) (db u))
                              (snd (handle env RunCommandConnectionStatus w1))) = answer ->
                  calls_of (emitted (validateConnection env st))
                  = [RunCommandHello; RunCommandConnectionStatus;
                     AdminCommandUsersInfo (user u) (db u)]
                  /\ value (validateConnection env st)
                     = match answer with
                       | inl e => inl (connection_failed (message e))
                       | inr [] =>
                           inl (connection_failed
                                  "Cannot read properties of undefined (reading 'roles')")
                       | inr (_ :: _) => inr tt
                       end
                  /\ (forall info infos,
                         answer = inr (info :: infos) ->
                         (In privilege_warning (emitted (validateConnection env st))
                          <-> existsb may_shard (roles info) = false)))).
Proof.
  intros W env st. split; [| split].
  - intros e Hv.
    destruct (fst (handle env RunCommandHello (world st))) as [e0 | h] eqn:Hh.
    { destruct (validateConnection_hello_throws env st e0 Hh) as [Hv' _].
      rewrite Hv' in Hv. injection Hv as <-. eexists. reflexivity. }
    destruct (fst (handle env RunCommandConnectionStatus
                          (snd (handle env RunCommandHello (world st)))))
      as [e1 | [| u us]] eqn:Hs.
    + destruct (validateConnection_status_throws env st h e1 Hh Hs) as [Hv' _].
      rewrite Hv' in Hv. injection Hv as <-. eexists. reflexivity.
    + destruct (validateConnection_no_user env st h Hh Hs) as [Hv' _].
      rewrite Hv' in Hv. discriminate Hv.
    + destruct (validateConnection_user env st h u us Hh Hs _ eq_refl) as [_ [Hv' _]].
      rewrite Hv' in Hv.
      destruct (fst (handle env (AdminCommandUsersInfo (user u) (db u)) _))
        as [e2 | [| info infos]];
        try discriminate Hv; injection Hv as <-; eexists; reflexivity.
  - intros e. apply validateConnection_hello_throws.
  - intros h Hh. cbv zeta. split; [| split].
    + intros e. apply (validateConnection_status_throws env st h e Hh).
    + apply (validateConnection_no_user env st h Hh).
    + intros u us answer Hs. apply (validateConnection_user env st h u us Hh Hs).
Qed.

Lemma connection_check_outcomes_witness :
  value (validateConnection unknown_user_env (Mock.start Mock.empty))
  = inl (connection_failed "Cannot read properties of undefined (reading 'roles')").
Proof.
  destruct (connection_check_outcomes _ unknown_user_env (Mock.start Mock.empty))
    as [_ [_ H]].
  destruct (H _ eq_refl) as [_ [_ Hu]].
  exact (proj1 (proj2 (Hu {| user := "ops"; db := "$external" |} [] (inr [])
                          eq_refl eq_refl))).
Defined.

(** ** The chunk distribution *)

(** [chunksByShard] of [validateSharding], from the chunk documents. *)
Definition chunksByShard (inherited : string -> option string) (chunks : list ChunkDoc)
  : JsObject :=
  fold_left (fun o chunk => tally inherited (shard chunk) o) chunks [].

Definition chunks_on (s : string) (chunks : list ChunkDoc) : nat :=
  count_occ string_dec (map shard chunks) s.

(** The numbers among the values of an object, added up. *)
Definition total (o : JsObject) : Z :=
  fold_right Z.add 0%Z (map (fun kv => match snd kv with JNum n => n | _ => 0%Z end) o).

Section Distribution.

Variable inherited : string -> option string.

(** A shard name that [Object.prototype] does not know. *)
Definition ordinary (s : string) : Prop := s <> "__proto__" /\ inherited s = None.

(** What the object holds for a shard after [n] of its chunks. *)
Definition tallied_value (s : string) (n : nat) : option JsVal :=
  match n with
  | O => None
  | S _ =>
      if String.eqb s "__proto__" then None
      else match inherited s with
           | Some text => Some (JStr (text +:+ repeat_string "1" n))
           | None => Some (JNum (Z.of_nat n))
           end
  end.

Lemma tally_get_same s o :
  get_property s (tally inherited s o)
  = match get_property s o with
    | Some v => Some (or_zero_plus_one v)
    | None =>
        if String.eqb s "__proto__" then None
        else Some (match inherited s with
                   | Some text => JStr (text +:+ "1")
                   | None => JNum 1
                   end)
    end.
Proof.
  induction o as [| [k v] o IH]; cbn [tally get_property].
  - destruct (String.eqb s "__proto__"); cbn [get_property]; [reflexivity |].
    rewrite String.eqb_refl. reflexivity.
  - destruct (String.eqb k s) eqn:E; cbn [get_property]; rewrite E; [reflexivity | exact IH].
Qed.

Lemma tally_get_other s s' o :
  s' <> s -> get_property s' (tally inherited s o) = get_property s' o.
Proof.
  intros Hne. induction o as [| [k v] o IH]; cbn [tally get_property].
  - destruct (String.eqb s "__proto__"); cbn [get_property]; [reflexivity |].
    destruct (String.eqb_spec s s'); [congruence | reflexivity].
  - destruct (String.eqb_spec k s) as [-> | Hk]; cbn [get_property].
    + destruct (String.eqb_spec s s'); [congruence | reflexivity].
    + rewrite IH. reflexivity.
Qed.

Lemma tally_fields s o :
  map fst (tally inherited s o)
  = if existsb (String.eqb s) (map fst o) then map fst o
    else if String.eqb s "__proto__" then map fst o else map fst o ++ [s].
Proof.
  induction o as [| [k v] o IH]; cbn [tally map fst existsb app].
  - destruct (String.eqb s "__proto__"); reflexivity.
  - rewrite (String.eqb_sym s k).
    destruct (String.eqb_spec k s) as [-> | Hk]; cbn [map fst orb]; [reflexivity |].
    rewrite IH. destruct (existsb (String.eqb s) (map fst o)); [reflexivity |].
    destruct (String.eqb s "__proto__"); reflexivity.
Qed.

Lemma tally_NoDup s o : NoDup (map fst o) -> NoDup (map fst (tally inherited s o)).
Proof.
  intros Hnd. rewrite tally_fields.
  destruct (existsb (String.eqb s) (map fst o)) eqn:E; [exact Hnd |].
  destruct (String.eqb s "__proto__"); [exact Hnd |].
  apply NoDup_app; [exact Hnd | repeat constructor; intros [] |].
  intros x Hx [E' | []]. subst x.
  assert (existsb (String.eqb s) (map fst o) = true); [| congruence].
  apply existsb_exists. exists s. split; [exact Hx | apply String.eqb_refl].
Qed.

Lemma append_assoc' (a b c : string) : (a +:+ b) +:+ c = a +:+ (b +:+ c).
Proof. induction a as [| x a IH]; cbn; [reflexivity | rewrite IH; reflexivity]. Qed.

Lemma append_empty (a : string) : a +:+ "" = a.
Proof. induction a as [| x a IH]; cbn; [reflexivity | rewrite IH; reflexivity]. Qed.

Lemma repeat_string_snoc s n : repeat_string s n +:+ s = s +:+ repeat_string s n.
Proof.
  induction n as [| n IH]; cbn [repeat_string].
  - rewrite append_empty. reflexivity.
  - rewrite append_assoc', IH. reflexivity.
Qed.

Lemma append_one_nonempty (t : string) n : String.eqb (t +:+ repeat_string "1" (S n)) "" = false.
Proof.
  apply String.eqb_neq. cbn [repeat_string].
  destruct t; cbn; discriminate.
Qed.

(** One more chunk of the shard. *)
Lemma tallied_value_step s n :
  match tallied_value s n with
  | Some v => Some (or_zero_plus_one v)
  | None =>
      if String.eqb s "__proto__" then None
      else Some (match inherited s with
                 | Some text => JStr (text +:+ "1")
                 | None => JNum 1
                 end)
  end
  = match n with
    | O => tallied_value s 1
    | S _ => tallied_value s (S n)
    end.
Proof.
  destruct n as [| n]; cbn [tallied_value].
  - destruct (String.eqb s "__proto__"); [reflexivity |].
    destruct (inherited s); reflexivity.
  - destruct (String.eqb s "__proto__"); [reflexivity |].
    destruct (inherited s) as [text |]; cbn [or_zero_plus_one].
    + rewrite append_one_nonempty. do 2 f_equal.
      rewrite append_assoc'. f_equal.
      change (repeat_string "1" (S (S n))) with ("1" +:+ repeat_string "1" (S n)).
      apply (repeat_string_snoc "1" (S n)).
    + destruct (Z.eqb_spec (Z.of_nat (S n)) 0) as [E | _]; [lia |].
      do 2 f_equal. lia.
Qed.

(** What the object holds after the shards [seen]. *)
Definition tallied (o : JsObject) (seen : list string) : Prop :=
  NoDup (map fst o)
  /\ forall s, get_property s o = tallied_value s (count_occ string_dec seen s).

Lemma tallied_step o seen s : tallied o seen -> tallied (tally inherited s o) (seen ++ [s]).
Proof.
  intros [Hnd Hget]. split; [apply tally_NoDup; exact Hnd |].
  intros s'. rewrite count_occ_app. cbn [count_occ].
  destruct (string_dec s s') as [<- | Hne].
  - rewrite tally_get_same, Hget, tallied_value_step.
    destruct (count_occ string_dec seen s) as [| n]; cbn [Nat.add]; [reflexivity |].
    rewrite Nat.add_1_r. reflexivity.
  - rewrite tally_get_other by congruence. rewrite Hget, Nat.add_0_r. reflexivity.
Qed.

Lemma tallied_fold chunks :
  forall o seen,
    tallied o seen ->
    tallied (fold_left (fun o chunk => tally inherited (shard chunk) o) chunks o)
            (seen ++ map shard chunks).
Proof.
  induction chunks as [| c chunks IH]; intros o seen H; cbn [fold_left map].
  - rewrite app_nil_r. exact H.
  - change (shard c :: map shard chunks) with ([shard c] ++ map shard chunks).
    rewrite app_assoc. apply IH. apply tallied_step. exact H.
Qed.

Lemma chunksByShard_tallied chunks :
  tallied (chunksByShard inherited chunks) (map shard chunks).
Proof.
  apply (tallied_fold chunks [] []). split; [constructor |]. intros s. reflexivity.
Qed.

(** The numbers add up to the chunks of the ordinary shards. *)
Definition ordinaryb (s : string) : bool :=
  negb (String.eqb s "__proto__")
  && match inherited s with Some _ => false | None => true end.

(** Numbers are held for the ordinary shards, text for the others. *)
Definition sound (o : JsObject) : Prop :=
  forall k v, In (k, v) o -> match v with
                             | JNum n => (0 < n)%Z /\ ordinaryb k = true
                             | JStr t => t <> "" /\ ordinaryb k = false
                             | JBool _ => False
                             end.

Lemma tally_total s o :
  sound o ->
  sound (tally inherited s o)
  /\ total (tally inherited s o) = (total o + if ordinaryb s then 1 else 0)%Z.
Proof.
  unfold total. induction o as [| [k v] o IH]; intros Ht; cbn [tally].
  - unfold ordinaryb. destruct (String.eqb s "__proto__") eqn:Ep; cbn [negb andb].
    + split; [exact Ht | reflexivity].
    + destruct (inherited s) as [text |] eqn:Ei; cbn [map snd fold_right].
      * split; [| reflexivity].
        intros k' v' [H | []]. injection H as <- <-.
        split; [destruct text; cbn; discriminate |].
        unfold ordinaryb. rewrite Ep, Ei. reflexivity.
      * split; [| reflexivity].
        intros k' v' [H | []]. injection H as <- <-.
        split; [lia |]. unfold ordinaryb. rewrite Ep, Ei. reflexivity.
  - assert (Ht' : sound o) by (intros k' v' H; apply (Ht k' v'); right; exact H).
    pose proof (Ht k v (or_introl eq_refl)) as Hv.
    destruct (String.eqb_spec k s) as [-> | Hk]; cbn [map snd fold_right].
    + destruct v as [n | t | b]; [| | destruct Hv]; cbn [or_zero_plus_one].
      * destruct Hv as [Hpos Hord].
        destruct (Z.eqb_spec n 0) as [E | _]; [lia |].
        split.
        -- intros k' v' [H | H]; [| apply (Ht' k' v'); exact H].
           injection H as <- <-. split; [lia | exact Hord].
        -- cbn [snd]. rewrite Hord. lia.
      * destruct Hv as [Hne Hord].
        destruct (String.eqb_spec t "") as [E | _]; [contradiction |].
        split.
        -- intros k' v' [H | H]; [| apply (Ht' k' v'); exact H].
           injection H as <- <-. split; [destruct t; cbn; discriminate | exact Hord].
        -- cbn [snd]. rewrite Hord. lia.
    + destruct (IH Ht') as [Ht2 Htot]. split.
      * intros k' v' [H | H]; [apply (Ht k' v'); left; exact H | apply (Ht2 k' v'); exact H].
      * cbn [snd]. rewrite Htot. lia.
Qed.

Lemma chunksByShard_total chunks :
  total (chunksByShard inherited chunks)
  = Z.of_nat (length (filter ordinaryb (map shard chunks))).
Proof.
  unfold chunksByShard.
  assert (H : forall o,
             sound o ->
             total (fold_left (fun o chunk => tally inherited (shard chunk) o) chunks o)
             = (total o + Z.of_nat (length (filter ordinaryb (map shard chunks))))%Z).
  { induction chunks as [| c chunks IH]; intros o Ho; cbn [fold_left map filter].
    - cbn. lia.
    - destruct (tally_total (shard c) o Ho) as [Ho' Htot].
      rewrite (IH _ Ho'), Htot.
      destruct (ordinaryb (shard c)); cbn [length]; lia. }
  rewrite (H [] (fun k v (F : In (k, v) []) => match F with end)). reflexivity.
Qed.

End Distribution.

(** [own_properties] lists every property once. *)
Lemma place_perm n p l : Permutation (map snd (place n p l)) (p :: map snd l).
Proof.
  induction l as [| [m q] l IH]; cbn [place map snd]; [reflexivity |].
  destruct (Z.ltb n m); cbn [map snd]; [reflexivity |].
  rewrite IH. apply perm_swap.
Qed.

Lemma own_properties_perm o : Permutation (own_properties o) o.
Proof.
  unfold own_properties, name_properties.
  induction o as [| p o IH]; cbn [index_properties filter map app]; [reflexivity |].
  destruct (array_index (fst p)).
  - rewrite place_perm. cbn [app]. apply perm_skip. exact IH.
  - rewrite <- Permutation_middle. apply perm_skip. exact IH.
Qed.

Lemma get_property_In {A} s (v : A) o :
  NoDup (map fst o) -> (get_property s o = Some v <-> In (s, v) o).
Proof.
  induction o as [| [k x] o IH]; cbn [map fst get_property In]; intros Hnd.
  - split; [discriminate | tauto].
  - inversion Hnd as [| ? ? Hk Hnd']; subst.
    destruct (String.eqb_spec k s) as [-> | Hne].
    + split.
      * intros H. injection H as ->. left. reflexivity.
      * intros [H | H]; [injection H as ->; reflexivity |].
        exfalso. apply Hk. apply (in_map fst) in H. exact H.
    + rewrite (IH Hnd'). split; [tauto |].
      intros [H | H]; [injection H as -> _; contradiction | exact H].
Qed.

Lemma get_property_perm {A} s (o o' : list (string * A)) :
  Permutation o o' -> NoDup (map fst o) -> get_property s o' = get_property s o.
Proof.
  intros Hp Hnd.
  assert (Hnd' : NoDup (map fst o')).
  { apply (Permutation_NoDup (Permutation_map fst Hp)). exact Hnd. }
  destruct (get_property s o) as [v |] eqn:E.
  - apply (get_property_In s v o Hnd) in E.
    apply (get_property_In s v o' Hnd'). apply (Permutation_in _ Hp). exact E.
  - destruct (get_property s o') as [v' |] eqn:E'; [| reflexivity].
    apply (get_property_In s v' o' Hnd') in E'.
    apply (Permutation_in _ (Permutation_sym Hp)) in E'.
    apply (get_property_In s v' o Hnd) in E'. congruence.
Qed.

Lemma get_property_fields {A} s (o : list (string * A)) :
  In s (map fst o) <-> get_property s o <> None.
Proof.
  induction o as [| [k x] o IH]; cbn [map fst get_property In].
  - split; [tauto | congruence].
  - destruct (String.eqb_spec k s) as [-> | Hne].
    + split; [discriminate | left; reflexivity].
    + rewrite <- IH. split; [intros [H | H]; [contradiction | exact H] | tauto].
Qed.

Lemma total_perm o o' : Permutation o o' -> total o' = total o.
Proof.
  unfold total. induction 1; cbn [map fold_right]; lia.
Qed.

Lemma validateSharding_logs_distribution {W : Type} (env : Env W) fullName st d n chunks :
  fst (handle env (CollectionsFindOne fullName) (world st)) = inr d ->
  fst (handle env (ChunksCountDocuments fullName)
              (snd (handle env (CollectionsFindOne fullName) (world st)))) = inr n ->
  fst (handle env (ChunksFind fullName)
              (snd (handle env (ChunksCountDocuments fullName)
                           (snd (handle env (CollectionsFindOne fullName) (world st))))))
  = inr chunks ->
  value (validateSharding env fullName st) = inr tt
  /\ In (Logged (LogInfo ("  分块分布: "
                          +:+ JSON_stringify
                                (own_properties (chunksByShard (inheritedText env) chunks)))))
        (emitted (validateSharding env fullName st)).
Proof.
  intros Hd Hn Hc.
  set (w1 := snd (handle env (CollectionsFindOne fullName) (world st))) in *.
  set (w2 := snd (handle env (ChunksCountDocuments fullName) w1)) in *.
  set (s1 := {| world := w1; results := results st |}).
  set (s2 := {| world := w2; results := results st |}).
  set (s3 := {| world := snd (handle env (ChunksFind fullName) w2); results := results st |}).
  assert (Hkey : exists evs,
             match d with
             | Some {| collection_key := Some k |} =>
                 bind (logger_success "  分片配置: 已启用 ✅")
                      (fun _ => logger_info ("  分片键: " +:+ JSON_stringify k))
             | _ => logger_error "  分片配置: 未启用 ❌"
             end s1 = mkRun (inr tt) s1 evs).
  { destruct d as [[[k |]] |]; eexists; reflexivity. }
  destruct Hkey as [evs Hkey].
  assert (E : validateSharding env fullName st
              = mkRun (inr tt) s3
                      ([Called (CollectionsFindOne fullName)] ++ evs
                       ++ [Called (ChunksCountDocuments fullName)]
                       ++ Logged (LogInfo ("  分块数量: " +:+ string_of_Z n))
                       :: [Called (ChunksFind fullName)]
                       ++ [Logged (LogInfo ("  分块分布: "
                              +:+ JSON_stringify
                                    (own_properties
                                       (chunksByShard (inheritedText env) chunks))))])).
  { unfold validateSharding.
    eapply step_bind; [apply (step_invoke env _ st _ Hd) |].
    eapply step_bind; [exact Hkey |].
    eapply step_bind; [apply (step_invoke env _ s1 _ Hn) |].
    unfold logger_info at 1. apply step_emit.
    eapply step_bind; [apply (step_invoke env _ s2 _ Hc) |].
    reflexivity. }
  rewrite E. cbn [value emitted]. split; [reflexivity |].
  apply in_or_app. right. apply in_or_app. right. apply in_or_app. right.
  right. right. left. reflexivity.
Qed.

(** X5. The chunk distribution that the validation of the sharding logs,
    once its three reads are answered.  Every shard appears at most once.
    A shard whose name a plain object does not inherit appears exactly when
    it holds a chunk of the collection, with the number of the chunks it
    holds.  A shard named like a method that a plain object inherits
    appears, when it holds chunks, with the text of the method followed by
    one [1] per chunk; the chunks of a shard named [__proto__] are not
    counted at all.  No other name appears.  The numbers add up to the
    number of chunks on the shards of the first kind: to the number of all
    the chunks when every shard is of that kind. *)
Theorem chunk_distribution_counts :
  forall (W : Type) (env : Env W) (fullName : string) (st : State W)
         (d : option CollectionsDoc) (n : Z) (chunks : list ChunkDoc),
    fst (handle env (CollectionsFindOne fullName) (world st)) = inr d ->
    fst (handle env (ChunksCountDocuments fullName)
                (snd (handle env (CollectionsFindOne fullName) (world st)))) = inr n ->
    fst (handle env (ChunksFind fullName)
                (snd (handle env (ChunksCountDocuments fullName)
                             (snd (handle env (CollectionsFindOne fullName) (world st))))))
    = inr chunks ->
    exists distribution,
      In (Logged (LogInfo ("  分块分布: " +:+ JSON_stringify distribution)))
         (emitted (validateSharding env fullName st))
      /\ NoDup (map fst distribution)
      /\ (forall s,
             s <> "__proto__" -> inheritedText env s = None ->
             get_property s distribution
             = match count_occ string_dec (map shard chunks) s with
               | O => None
               | S m => Some (JNum (Z.of_nat (S m)))
               end)
      /\ (forall s text,
             s <> "__proto__" -> inheritedText env s = Some text ->
             get_property s distribution
             = match count_occ string_dec (map shard chunks) s with
               | O => None
               | S m => Some (JStr (text +:+ repeat_string "1" (S m)))
               end)
      /\ get_property "__proto__" distribution = None
      /\ (forall s,
             In s (map fst distribution) <-> In s (map shard chunks) /\ s <> "__proto__")
      /\ total distribution
         = Z.of_nat (length (filter (ordinaryb (inheritedText env)) (map shard chunks)))
      /\ ((forall chunk, In chunk chunks -> ordinary (inheritedText env) (shard chunk)) ->
          total distribution = Z.of_nat (length chunks)).
Proof.
  intros W env fullName st d n chunks Hd Hn Hc.
  set (o := chunksByShard (inheritedText env) chunks).
  exists (own_properties o).
  destruct (chunksByShard_tallied (inheritedText env) chunks) as [Hnd Hget]. fold o in Hnd, Hget.
  pose proof (own_properties_perm o) as Hp.
  assert (Hget' : forall s, get_property s (own_properties o)
                            = tallied_value (inheritedText env) s
                                            (count_occ string_dec (map shard chunks) s)).
  { intros s. rewrite (get_property_perm s _ _ (Permutation_sym Hp) Hnd). apply Hget. }
  assert (Htot : total (own_properties o)
                 = Z.of_nat (length (filter (ordinaryb (inheritedText env))
                                            (map shard chunks)))).
  { rewrite (total_perm _ _ (Permutation_sym Hp)). apply chunksByShard_total. }
  split; [apply (validateSharding_logs_distribution env fullName st d n chunks Hd Hn Hc) |].
  split; [apply (Permutation_NoDup (Permutation_map fst (Permutation_sym Hp))); exact Hnd |].
  split.
  { intros s Hs Hi. rewrite Hget'. unfold tallied_value.
    destruct (count_occ string_dec (map shard chunks) s); [reflexivity |].
    destruct (String.eqb_spec s "__proto__"); [contradiction |]. rewrite Hi. reflexivity. }
  split.
  { intros s text Hs Hi. rewrite Hget'. unfold tallied_value.
    destruct (count_occ string_dec (map shard chunks) s); [reflexivity |].
    destruct (String.eqb_spec s "__proto__"); [contradiction |]. rewrite Hi. reflexivity. }
  split.
  { rewrite Hget'. unfold tallied_value.
    destruct (count_occ string_dec (map shard chunks) "__proto__"); reflexivity. }
  split.
  { intros s. rewrite get_property_fields, Hget'. unfold tallied_value.
    rewrite (count_occ_In string_dec).
    destruct (count_occ string_dec (map shard chunks) s) as [| m].
    - split; [congruence | intros [H _]; lia].
    - destruct (String.eqb_spec s "__proto__") as [-> | Hs].
      + split; [congruence | intros [_ H]; congruence].
      + split; [intros _; split; [lia | exact Hs] |].
        intros _. destruct (inheritedText env s); discriminate. }
  split; [exact Htot |].
  intros Hall. rewrite Htot. f_equal.
  rewrite <- (length_map shard chunks).
  assert (H : forall l, (forall s, In s l -> ordinaryb (inheritedText env) s = true) ->
                        filter (ordinaryb (inheritedText env)) l = l).
  { intros l Hl. apply forallb_filter_id. apply forallb_forall. exact Hl. }
  rewrite H; [reflexivity |].
  intros s Hin. apply in_map_iff in Hin. destruct Hin as [chunk [<- Hin]].
  destruct (Hall chunk Hin) as [Hs Hi]. unfold ordinaryb.
  destruct (String.eqb_spec (shard chunk) "__proto__"); [contradiction |].
  rewrite Hi. reflexivity.
Qed.

(** A cluster with four chunks of the collection: two on one shard, one on
    another, and one on a shard with the unlikely name [constructor]. *)
Definition four_chunks : list ChunkDoc :=
  [ {| shard := "rs0" |}; {| shard := "constructor" |}; {| shard := "rs1" |};
    {| shard := "rs0" |} ].

Definition four_chunks_env : Env Mock.Cluster := {|
  handle := fun c =>
              match c as c0 return Mock.Cluster -> (Error + reply c0) * Mock.Cluster with
              | ChunksFind _ => fun w => (inr four_chunks, w)
              | c0 => Mock.respond c0
              end;
  toISOString := toISOString Mock.env;
  getElapsedTime := getElapsedTime Mock.env;
  formatBytes := formatBytes Mock.env;
  toLocaleString := toLocaleString Mock.env;
  percentage := percentage Mock.env;
  inheritedText := inheritedText Mock.env
|}.

Lemma chunk_distribution_counts_witness :
  exists distribution,
    In (Logged (LogInfo ("  分块分布: " +:+ JSON_stringify distribution)))
       (emitted (validateSharding four_chunks_env "d.c" (Mock.start cluster_sharded)))
    /\ get_property "rs0" distribution = Some (JNum 2)
    /\ get_property "rs1" distribution = Some (JNum 1)
    /\ get_property "constructor" distribution
       = Some (JStr "function Object() { [native code] }1")
    /\ total distribution = 3%Z.
Proof.
  destruct (chunk_distribution_counts _ four_chunks_env "d.c" (Mock.start cluster_sharded)
                                      _ _ four_chunks eq_refl eq_refl eq_refl)
    as [distribution [Hlog [_ [Hnum [Htext [_ [_ [Htot _]]]]]]]].
  exists distribution. split; [exact Hlog |].
  split; [apply (Hnum "rs0"); [discriminate | reflexivity] |].
  split; [apply (Hnum "rs1"); [discriminate | reflexivity] |].
  split; [| exact Htot].
  refine (Htext "constructor" "function Object() { [native code] }" _ eq_refl).
  discriminate.
Defined.

(** ** The validation of the results *)


Section Validation.

Context {W : Type}.
Variable env : Env W.
Variable config : Config.
Variable verbose : bool.



End Validation.



(** ** The summary *)

Section Summary.

Context {W : Type}.
Variable env : Env W.
Variable config : Config.
Implicit Types st s : State W.









End Summary.









(** ** The exit of the process *)

(** X8. [main] never throws, and it starts from an empty tally whatever
    tally it is given.  The process ends with code 0 or 1: with 1 exactly
    when the connection check or the database-level sharding step throws,
    and then the error is logged by [execute] and by [main], and
    [process.exit(1)] is the last thing that happens; with 0 exactly when
    both steps return. *)
Theorem exit_code_tells_a_fatal_error :
  forall (W : Type) (env : Env W) (config : Config) (st : State W),
    value (main env config st) = inr tt
    /\ (forall tally,
           main env config {| world := world st; results := tally |} = main env config st)
    /\ (forall e,
           value (preamble env config (fresh st)) = inl e ->
           exit_code (emitted (main env config st)) = 1%Z
           /\ exists before,
               emitted (main env config st)
               = before ++ [Logged (LogError ("脚本执行失败: " +:+ message e)); Exited 1]
               /\ In (Logged (LogError ("执行失败: " +:+ message e))) before)
    /\ (exit_code (emitted (main env config st)) = 1%Z
        <-> exists e, value (preamble env config (fresh st)) = inl e)
    /\ (exit_code (emitted (main env config st)) = 0%Z
        <-> value (preamble env config (fresh st)) = inr tt).
Proof.
  intros W env config st.
  assert (Hfatal : forall e,
             value (preamble env config (fresh st)) = inl e ->
             main env config st
             = mkRun (inr tt) (final (execute env config true (fresh st)))
                     ((banner env st ++ emitted (execute env config true (fresh st)))
                        ++ [Logged (LogError ("脚本执行失败: " +:+ message e)); Exited 1])
             /\ In (Logged (LogError ("执行失败: " +:+ message e)))
                   (emitted (execute env config true (fresh st)))).
  { intros e H.
    pose proof (execute_on_fatal env config true (fresh st) e H) as Hx.
    split.
    - apply main_on_failure. rewrite Hx. reflexivity.
    - rewrite Hx. cbn [emitted]. apply in_or_app. right. apply in_or_app. right.
      left. reflexivity. }
  assert (Hfine : value (preamble env config (fresh st)) = inr tt ->
                  main env config st
                  = mkRun (inr tt) (final (execute env config true (fresh st)))
                          (banner env st ++ emitted (execute env config true (fresh st)))).
  { intros H.
    destruct (execute_try_records env config true (fresh st) H) as [Hv _].
    destruct (execute_after_try env config true (fresh st) Hv) as [Ev _].
    apply main_on_success. exact Ev. }
  assert (Hquiet : Forall no_exit
                          (banner env st ++ emitted (execute env config true (fresh st)))).
  { apply Forall_app; split;
      [apply no_exit_banner | apply (stays_execute env config true (fresh st))]. }
  assert (Hcode1 : forall e, value (preamble env config (fresh st)) = inl e ->
                             exit_code (emitted (main env config st)) = 1%Z).
  { intros e H. destruct (Hfatal e H) as [Hm _]. rewrite Hm. cbn [emitted].
    rewrite (exit_code_after _ _ Hquiet). reflexivity. }
  assert (Hcode0 : value (preamble env config (fresh st)) = inr tt ->
                   exit_code (emitted (main env config st)) = 0%Z).
  { intros H. rewrite (Hfine H). cbn [emitted]. apply exit_code_no_exit. exact Hquiet. }
  split; [| split; [| split; [| split]]].
  - destruct (value (preamble env config (fresh st))) as [e | []] eqn:Hp.
    + destruct (Hfatal e eq_refl) as [Hm _]. rewrite Hm. reflexivity.
    + rewrite (Hfine eq_refl). reflexivity.
  - intros tally. unfold main.
    assert (Htry : forall s s' : State W,
               world s' = world s -> main_try env config s' = main_try env config s).
    { intros s s' Hw. rewrite !main_try_run. unfold fresh, banner. rewrite Hw. reflexivity. }
    unfold try_catch. rewrite (Htry st {| world := world st; results := tally |} eq_refl). reflexivity.
  - intros e H. split; [exact (Hcode1 e H) |].
    destruct (Hfatal e H) as [Hm Hin]. rewrite Hm. cbn [emitted].
    exists (banner env st ++ emitted (execute env config true (fresh st))).
    split; [reflexivity |]. apply in_or_app. right. exact Hin.
  - split.
    + intros Hcode.
      destruct (value (preamble env config (fresh st))) as [e | []] eqn:Hp.
      * exists e. reflexivity.
      * rewrite (Hcode0 eq_refl) in Hcode. discriminate Hcode.
    + intros [e H]. exact (Hcode1 e H).
  - split.
    + intros Hcode.
      destruct (value (preamble env config (fresh st))) as [e | []] eqn:Hp.
      * rewrite (Hcode1 e eq_refl) in Hcode. discriminate Hcode.
      * reflexivity.
    + exact Hcode0.
Qed.

Lemma exit_code_tells_a_fatal_error_witness :
  exit_code (emitted (main unknown_user_env one_collection (Mock.start Mock.empty))) = 1%Z.
Proof.
  destruct (exit_code_tells_a_fatal_error
              _ unknown_user_env one_collection (Mock.start Mock.empty))
    as [_ [_ [H _]]].
  refine (proj1 (H (connection_failed
                      "Cannot read properties of undefined (reading 'roles')") _)).
  vm_compute. reflexivity.
Defined.

(** ** The outcome of the sharded check *)

(** [collConfig && collConfig.key], for the document the lookup returned *)
Definition is_sharded (d : option CollectionsDoc) : bool :=
  match d with
  | Some d => match collection_key d with Some _ => true | None => false end
  | None => false
  end.

Section ShardedOutcome.

Context {W : Type}.
Variable env : Env W.
Variable config : Config.

Local Open Scope script_scope.

Lemma checkIfSharded_found fullName st d :
  fst (handle env (CollectionsFindOne fullName) (world st)) = inr d ->
  checkIfSharded env fullName st
  = mkRun (inr (is_sharded d))
          {| world := snd (handle env (CollectionsFindOne fullName) (world st));
             results := results st |}
          [Called (CollectionsFindOne fullName)].
Proof.
  intros H. unfold checkIfSharded, bind, invoke, ret.
  cbn [value final emitted world results fst snd]. rewrite H. reflexivity.
Qed.

Lemma checkIfSharded_throws fullName st e :
  fst (handle env (CollectionsFindOne fullName) (world st)) = inl e ->
  value (checkIfSharded env fullName st) = inl e.
Proof.
  intros H. unfold checkIfSharded, bind, invoke, ret.
  cbn [value final emitted world results fst snd]. rewrite H. reflexivity.
Qed.

(** A block that leaves the tally alone when it throws and pushes [n] on
    [success] when it returns. *)
Definition succeeds (n : string) (m : M W unit) : Prop :=
  forall st,
    match value (m st) with
    | inl _ => results (final (m st)) = results st
    | inr _ => results (final (m st)) = add_success n (results st)
    end.

Lemma succeeds_bind {A} n (m : M W A) (f : A -> M W unit) :
  untouched m -> (forall a, succeeds n (f a)) -> succeeds n (bind m f).
Proof.
  intros Hm Hf st. unfold bind.
  destruct (Hm st) as [HR _]. unfold same_results in HR.
  destruct (value (m st)) as [e | a]; cbn.
  - exact HR.
  - specialize (Hf a (final (m st))). rewrite HR in Hf. exact Hf.
Qed.

(** The steps of [processCollection] after the sharded check *)
Definition processing (c : CollConfig) : M W unit :=
  createIndexes env config c ;;
  createShardKeyIndex env config c ;;
  enableCollectionSharding env config c ;;
  preSplitChunks env config c ;;
  push_success (name c) ;;
  logger_success ("表 " +:+ name c +:+ " 处理完成").

Lemma succeeds_processing c : succeeds (name c) (processing c).
Proof.
  unfold processing.
  apply succeeds_bind; [apply untouched_createIndexes | intros _].
  apply succeeds_bind; [apply untouched_createShardKeyIndex | intros _].
  apply succeeds_bind; [apply untouched_enableCollectionSharding | intros _].
  apply succeeds_bind; [apply untouched_preSplitChunks | intros _].
  intros st. cbn. reflexivity.
Qed.

Lemma processCollection_result_on_return c st :
  value (processCollection_try env config c st) = inr tt ->
  results (final (processCollection env config c st))
  = results (final (processCollection_try env config c st)).
Proof.
  intros Hv.
  unfold processCollection, logger_divider, logger_info.
  rewrite run_emit_bind. cbv beta. rewrite run_emit_bind. cbv beta.
  cbn [value final emitted].
  rewrite (run_try_value _ _ _ _ Hv). reflexivity.
Qed.

(** The [try] block once the existence step has returned and the lookup
    has answered. *)
Lemma processCollection_try_after_check c st d :
  value (processCollection_exists env config c st) = inr tt ->
  fst (handle env (CollectionsFindOne (fullNameOf config c))
              (world (final (processCollection_exists env config c st)))) = inr d ->
  let s2 := {| world := snd (handle env (CollectionsFindOne (fullNameOf config c))
                                    (world (final (processCollection_exists env config c st))));
               results := results st |} in
  let rest := if is_sharded d && skipExistingSharded (options config)
              then (logger_info "表已分片，跳过" ;; push_skipped (name c))
              else processing c in
  value (processCollection_try env config c st) = value (rest s2)
  /\ results (final (processCollection_try env config c st)) = results (final (rest s2)).
Proof.
  intros Hex Hfind. cbv zeta.
  destruct (untouched_processCollection_exists env config c st) as [Hres _].
  unfold same_results in Hres.
  pose proof (checkIfSharded_found _ _ _ Hfind) as Hsh. rewrite Hres in Hsh.
  unfold processCollection_try. cbv zeta.
  rewrite (run_bind_value _ _ _ _ Hex). cbn [value final emitted].
  rewrite (run_bind_value _ _ _ (is_sharded d)) by (rewrite Hsh; reflexivity).
  rewrite Hsh. cbn [value final emitted].
  destruct (is_sharded d && skipExistingSharded (options config)); split; reflexivity.
Qed.

End ShardedOutcome.

(** X9. Once the existence step has returned, the lookup in
    [config.collections] decides what is recorded for the collection.  A
    lookup that throws records it as failed, with the error's message.  A
    document with a key, with [skipExistingSharded] set, records it as
    skipped.  In every other case (no document, a document without a key,
    or the option unset) the collection is processed and recorded as a
    success, or as failed: never as skipped. *)
Theorem sharded_check_decides_the_outcome :
  forall (W : Type) (env : Env W) (config : Config) (c : CollConfig) (st : State W),
    value (processCollection_exists env config c st) = inr tt ->
    let after := results (final (processCollection env config c st)) in
    match fst (handle env (CollectionsFindOne (fullNameOf config c))
                      (world (final (processCollection_exists env config c st)))) with
    | inl e =>
        after = add_failed {| collection := name c; failure_error := message e |} (results st)
    | inr d =>
        if is_sharded d && skipExistingSharded (options config)
        then after = add_skipped (name c) (results st)
        else skipped after = skipped (results st)
             /\ (after = add_success (name c) (results st)
                 \/ exists e,
                     after = add_failed {| collection := name c; failure_error := message e |}
                                        (results st))
    end.
Proof.
  intros W env config c st Hex. cbv zeta.
  destruct (fst (handle env (CollectionsFindOne (fullNameOf config c))
                        (world (final (processCollection_exists env config c st)))))
    as [e | d] eqn:Hfind.
  - assert (Hv : value (processCollection_try env config c st) = inl e).
    { unfold processCollection_try. cbv zeta.
      rewrite (run_bind_value _ _ _ _ Hex). cbn [value].
      rewrite (run_bind_error _ _ _ e) by (apply checkIfSharded_throws; exact Hfind).
      reflexivity. }
    apply (processCollection_on_throw env config c st e Hv).
  - destruct (processCollection_try_after_check env config c st d Hex Hfind) as [Hv Hr].
    cbv zeta in Hv, Hr.
    destruct (is_sharded d && skipExistingSharded (options config)).
    + rewrite processCollection_result_on_return by (rewrite Hv; reflexivity).
      rewrite Hr. reflexivity.
    + match type of Hv with
      | _ = value (processing _ _ _ ?s) =>
          pose proof (succeeds_processing env config c s) as Hs
      end.
      destruct (value (processCollection_try env config c st)) as [e | []] eqn:Htry.
      * destruct (processCollection_on_throw env config c st e Htry) as [_ [H _]].
        rewrite H. split; [reflexivity | right; exists e; reflexivity].
      * rewrite (processCollection_result_on_return env config c st Htry), Hr.
        rewrite <- Hv in Hs. cbn [results] in Hs. rewrite Hs.
        split; [reflexivity | left; reflexivity].
Qed.

Lemma sharded_check_decides_the_outcome_witness :
  let after := results (final (processCollection Mock.env one_collection_again collection_c
                                                 (Mock.start cluster_sharded))) in
  skipped after = []
  /\ (after = add_success "c" no_results
      \/ exists e,
          after = add_failed {| collection := "c"; failure_error := message e |} no_results).
Proof.
  exact (sharded_check_decides_the_outcome
           _ Mock.env one_collection_again collection_c (Mock.start cluster_sharded) eq_refl).
Defined.

(** ** Pauses *)

(** The pauses among the events, in milliseconds, in order. *)
Fixpoint waits_of (evs : list event) : list Z :=
  match evs with
  | [] => []
  | Slept ms :: evs' => ms :: waits_of evs'
  | _ :: evs' => waits_of evs'
  end.

Lemma waits_of_app evs evs' : waits_of (evs ++ evs') = waits_of evs ++ waits_of evs'.
Proof.
  induction evs as [| e evs IH]; [reflexivity |].
  destruct e; cbn; rewrite IH; reflexivity.
Qed.

(** The pauses the script may make: none in a dry run; 50 ms, or 100 ms
    and 3000 ms when indexes are built in the background. *)
Definition pause_ok (dry background : bool) (e : event) : Prop :=
  match e with
  | Slept ms => dry = false /\ (ms = 50%Z \/ ((ms = 100%Z \/ ms = 3000%Z) /\ background = true))
  | _ => True
  end.

Lemma waits_of_allowed dry background evs :
  Forall (pause_ok dry background) evs ->
  forall ms, In ms (waits_of evs) ->
             dry = false /\ (ms = 50%Z \/ ((ms = 100%Z \/ ms = 3000%Z) /\ background = true)).
Proof.
  induction 1 as [| e evs He _ IH]; intros ms Hin; [destruct Hin |].
  destruct e as [c | l | ms' | code]; cbn [waits_of] in Hin; try (apply IH; exact Hin).
  destruct Hin as [<- | Hin]; [exact He | apply IH; exact Hin].
Qed.

Section Pauses.

Context {W : Type}.
Variable env : Env W.
Variable config : Config.

Local Open Scope script_scope.

Definition paced (dry background : bool) {A} (m : M W A) : Prop :=
  keeps (@any_state W) (pause_ok dry background) m.

Lemma paced_log dry background (l : logline) : paced dry background (emit (Logged l)).
Proof. apply (keeps_emit _ _ (@any_state_refl W)). exact I. Qed.

Lemma paced_exit dry background (code : Z) : paced dry background (emit (Exited code)).
Proof. apply (keeps_emit _ _ (@any_state_refl W)). exact I. Qed.

Lemma paced_invoke dry background (c : call) : paced dry background (invoke env c).
Proof. intros st; split; [exact I | repeat constructor]. Qed.

Lemma paced_update_results dry background (f : Results -> Results) :
  paced dry background (update_results f).
Proof. intros st; split; [exact I | constructor]. Qed.

Lemma paced_split_pause background : paced false background (sleep 50).
Proof. apply (keeps_emit _ _ (@any_state_refl W)). split; [reflexivity | left; reflexivity]. Qed.

Lemma paced_index_pause background :
  paced false background (when background (sleep 100)).
Proof.
  destruct background; cbn [when].
  - apply (keeps_emit _ _ (@any_state_refl W)).
    split; [reflexivity | right; split; [left |]; reflexivity].
  - apply (keeps_ret _ _ (@any_state_refl W)).
Qed.

Lemma paced_shard_key_pause background (line : string) :
  paced false background (when background (logger_info line ;; sleep 3000)).
Proof.
  destruct background; cbn [when].
  - apply (keeps_bind _ _ (@any_state_trans W)); [apply paced_log | intros _].
    apply (keeps_emit _ _ (@any_state_refl W)).
    split; [reflexivity | right; split; [right |]; reflexivity].
  - apply (keeps_ret _ _ (@any_state_refl W)).
Qed.

Ltac paced_leaf :=
  lazymatch goal with
  | |- keeps _ _ (logger_info _) => apply paced_log
  | |- keeps _ _ (logger_success _) => apply paced_log
  | |- keeps _ _ (logger_warning _) => apply paced_log
  | |- keeps _ _ (logger_error _) => apply paced_log
  | |- keeps _ _ (logger_section _) => apply paced_log
  | |- keeps _ _ logger_divider => apply paced_log
  | |- keeps _ _ (emit (Exited _)) => apply paced_exit
  | |- keeps _ _ (sleep 50) => apply paced_split_pause
  | |- keeps _ _ (when _ (sleep 100)) => apply paced_index_pause
  | |- keeps _ _ (when _ (bind (logger_info _) (fun _ => sleep 3000))) =>
      apply paced_shard_key_pause
  | |- keeps _ _ (update_results _) => apply paced_update_results
  | |- keeps _ _ (invoke _ _) => apply paced_invoke
  end.

Ltac paced_go := keeps_go (@any_state_refl W) (@any_state_trans W) ltac:(idtac; paced_leaf).

Lemma paced_split_loop background fullName needed turns :
  forall i created, paced false background (split_loop env fullName needed turns i created).
Proof.
  induction turns as [| turns IH]; intros i created; cbn [split_loop].
  - apply (keeps_ret _ _ (@any_state_refl W)).
  - apply (keeps_bind _ _ (@any_state_trans W)).
    + unfold split_turn. paced_go.
    + intros [c | c]; [apply IH | apply (keeps_ret _ _ (@any_state_refl W))].
Qed.

Lemma paced_processCollection c :
  paced (dryRun (options config)) (backgroundIndex (options config))
        (processCollection env config c).
Proof.
  unfold paced, processCollection, processCollection_try, processCollection_exists,
    checkCollectionExists,
    checkIfSharded, push_skipped, push_success, push_failed, createIndexes,
    createShardKeyIndex, enableCollectionSharding, preSplitChunks.
  keeps_go (@any_state_refl W) (@any_state_trans W)
    ltac:(first [ paced_leaf
                | lazymatch goal with
                  | |- keeps _ _ (split_loop _ _ _ _ _ _) => apply paced_split_loop
                  | |- keeps _ _ (createIndex_turn _ _ _ _ _ _) => unfold createIndex_turn
                  end ]).
Qed.

Lemma paced_execute v :
  paced (dryRun (options config)) (backgroundIndex (options config)) (execute env config v).
Proof.
  unfold paced, execute, execute_try, validateConnection, enableDatabaseSharding,
    validateResults, validateIndexes, validateSharding, validateDataDistribution,
    showSummary, showRecommendations.
  keeps_go (@any_state_refl W) (@any_state_trans W)
    ltac:(first [ paced_leaf
                | lazymatch goal with
                  | |- keeps _ _ (processCollection _ _ _) => apply paced_processCollection
                  end ]).
Qed.

Lemma paced_main :
  paced (dryRun (options config)) (backgroundIndex (options config)) (main env config).
Proof.
  unfold paced, main, main_try.
  keeps_go (@any_state_refl W) (@any_state_trans W)
    ltac:(first [ paced_leaf
                | lazymatch goal with
                  | |- keeps _ _ (execute _ _ _) => apply paced_execute
                  end ]).
Qed.

(** One turn of the split loop pauses exactly when its split succeeded,
    which is when it adds one to [created]. *)
Lemma split_turn_waits fullName needed i created st :
  let r := split_turn env fullName needed i created st in
  (value r = inr (Next (created + 1)) /\ waits_of (emitted r) = [50%Z]
   /\ fst (handle env (SplitFind fullName (split_point i)) (world st)) = inr tt)
  \/ ((value r = inr (Next created) \/ value r = inr (Break created))
      /\ waits_of (emitted r) = []
      /\ exists e, fst (handle env (SplitFind fullName (split_point i)) (world st)) = inl e).
Proof.
  cbv zeta. unfold split_turn.
  unfold bind, try_catch, invoke, logger_info, logger_warning, sleep, emit, ret.
  cbn [value final emitted world results fst snd].
  destruct (fst (handle env (SplitFind fullName (split_point i)) (world st))) as [e | []];
    cbn [value final emitted].
  - right. destruct (includes (message e) "chunk is too small"); cbn [value final emitted].
    + split; [right; reflexivity | split; [reflexivity | exists e; reflexivity]].
    + split; [left; reflexivity | split; [reflexivity | exists e; reflexivity]].
  - left. repeat split; reflexivity.
Qed.

Lemma split_loop_waits fullName needed turns :
  forall i created st,
    let r := split_loop env fullName needed turns i created st in
    exists n,
      value r = inr (created + Z.of_nat n)%Z
      /\ waits_of (emitted r) = repeat 50%Z n.
Proof.
  induction turns as [| turns IH]; intros i created st; cbv zeta; cbn [split_loop].
  - exists 0%nat. cbn [value emitted ret waits_of repeat Z.of_nat].
    rewrite Z.add_0_r. split; reflexivity.
  - destruct (split_turn_waits fullName needed i created st)
      as [[Hv [Hw _]] | [[Hv | Hv] [Hw _]]]; cbv zeta in Hv, Hw;
      rewrite (run_bind_value _ _ _ _ Hv); cbn [value final emitted];
      rewrite waits_of_app, Hw.
    + destruct (IH (i + 1)%Z (created + 1)%Z
                   (final (split_turn env fullName needed i created st))) as [n [Hv' Hw']].
      cbv zeta in Hv', Hw'. exists (S n). rewrite Hv', Hw'.
      split; [f_equal; lia | reflexivity].
    + destruct (IH (i + 1)%Z created
                   (final (split_turn env fullName needed i created st))) as [n [Hv' Hw']].
      cbv zeta in Hv', Hw'. exists n. rewrite Hv', Hw'. split; reflexivity.
    + exists 0%nat. cbn [ret value emitted waits_of repeat app Z.of_nat].
      rewrite Z.add_0_r. split; reflexivity.
Qed.

End Pauses.

(** X10. The pauses of the script.  Over a whole run of [main], every
    pause is one of 50 ms, or one of 100 ms or 3000 ms with
    [backgroundIndex] set, and a dry run makes no pause at all.  A turn of
    the split loop pauses (for 50 ms) exactly when its split call
    succeeded, and the number the loop returns is the number it started
    from plus the number of its pauses. *)
Theorem pauses_follow_successful_changes :
  forall (W : Type) (env : Env W) (config : Config),
    (forall st ms,
        In ms (waits_of (emitted (main env config st))) ->
        dryRun (options config) = false
        /\ (ms = 50%Z \/ ((ms = 100%Z \/ ms = 3000%Z)
                         /\ backgroundIndex (options config) = true)))
    /\ (forall fullName needed i created st,
           waits_of (emitted (split_turn env fullName needed i created st))
           = match fst (handle env (SplitFind fullName (split_point i)) (world st)) with
             | inr _ => [50%Z]
             | inl _ => []
             end)
    /\ (forall fullName needed turns i created st,
           exists n,
             value (split_loop env fullName needed turns i created st)
             = inr (created + Z.of_nat n)%Z
             /\ waits_of (emitted (split_loop env fullName needed turns i created st))
                = repeat 50%Z n).
Proof.
  intros W env config. split; [| split].
  - intros st ms Hin.
    destruct (paced_main env config st) as [_ HP].
    exact (waits_of_allowed _ _ _ HP ms Hin).
  - intros fullName needed i created st.
    destruct (split_turn_waits env fullName needed i created st)
      as [[_ [Hw Hh]] | [_ [Hw [e Hh]]]]; cbv zeta in Hw; rewrite Hw, Hh; reflexivity.
  - intros fullName needed turns i created st.
    exact (split_loop_waits env fullName needed turns i created st).
Qed.

Lemma pauses_follow_successful_changes_witness :
  In 50%Z (waits_of (emitted (main Mock.env one_collection (Mock.start Mock.empty))))
  /\ dryRun (options one_collection) = false.
Proof.
  assert (H : In 50%Z (waits_of (emitted (main Mock.env one_collection
                                               (Mock.start Mock.empty))))).
  { vm_compute. tauto. }
  split; [exact H |].
  exact (proj1 (proj1 (pauses_follow_successful_changes _ Mock.env one_collection)
                      (Mock.start Mock.empty) 50%Z H)).
Defined.

(** ** The command-line switches *)

(** The three fields of [CONFIG] that the switches assign, as the JS values
    they can take: [database] becomes [undefined] and [initialChunks] the
    result of [parseInt], possibly NaN, both [None] here. *)
Record Assigned := {
  dryRun_field : bool;
  database_field : option string;
  initialChunks_field : option Z
}.

(** [s.startsWith(p)] and [s.slice(2)] *)
Definition startsWith (s p : string) : bool := String.prefix p s.

Definition slice2 (s : string) : string :=
  match s with
  | String _ (String _ rest) => rest
  | _ => ""
  end.

(** The arguments at the even positions: those the loop looks at. *)
Fixpoint keys (args : list string) : list string :=
  match args with
  | [] => []
  | [a] => [a]
  | a :: _ :: rest => a :: keys rest
  end.

Section CommandLine.

(** [parseInt], of a string or of [undefined] *)
Variable parseInt : option string -> option Z.

(** The [switch (key)] *)
Definition assign (key : string) (value : option string) (s : Assigned) : Assigned :=
  if String.eqb key "dry-run" then
    {| dryRun_field := match value with Some v => String.eqb v "true" | None => false end;
       database_field := database_field s;
       initialChunks_field := initialChunks_field s |}
  else if String.eqb key "database" then
    {| dryRun_field := dryRun_field s;
       database_field := value;
       initialChunks_field := initialChunks_field s |}
  else if String.eqb key "chunks" then
    {| dryRun_field := dryRun_field s;
       database_field := database_field s;
       initialChunks_field := parseInt value |}
  else s.

(** The body of the loop, for [args[i]] and [args[i + 1]] *)
Definition argument (a : string) (value : option string) (s : Assigned) : Assigned :=
  if startsWith a "--" then assign (slice2 a) value s else s.

(** [for (let i = 0; i < args.length; i += 2)] *)
Fixpoint parse_args (args : list string) (s : Assigned) : Assigned :=
  match args with
  | [] => s
  | [a] => argument a None s
  | a :: v :: rest => parse_args rest (argument a (Some v) s)
  end.

Definition assigned_of (c : Config) : Assigned :=
  {| dryRun_field := dryRun (options c);
     database_field := Some (database c);
     initialChunks_field := Some (initialChunks (sharding c)) |}.

(** [CONFIG] after the assignments, when [database] is a string and
    [initialChunks] a number. *)
Definition configure (c : Config) (s : Assigned) : option Config :=
  match database_field s, initialChunks_field s with
  | Some d, Some n =>
      Some {| connectionString := connectionString c;
              database := d;
              collections := collections c;
              sharding := {| initialChunks := n;
                             chunkSizeMB := chunkSizeMB (sharding c);
                             enableBalancer := enableBalancer (sharding c) |};
              options := {| skipExistingSharded := skipExistingSharded (options c);
                            backgroundIndex := backgroundIndex (options c);
                            validateResults_opt := validateResults_opt (options c);
                            dryRun := dryRun_field s |} |}
  | _, _ => None
  end.

(** The configuration [main] runs with, for the arguments [args]. *)
Definition configured (base : Config) (args : list string) : option Config :=
  configure base (parse_args args (assigned_of base)).

Lemma pairs_ind (P : list string -> Prop) :
  P [] -> (forall a, P [a]) -> (forall a v rest, P rest -> P (a :: v :: rest)) ->
  forall l, P l.
Proof.
  intros Hnil Hone Hstep l.
  assert (H : P l /\ forall a, P (a :: l)).
  { induction l as [| x l [IH1 IH2]].
    - split; [exact Hnil | exact Hone].
    - split; [apply IH2 | intros a; apply Hstep; exact IH1]. }
  exact (proj1 H).
Qed.

Lemma switch_name a : startsWith a "--" = true -> a = "--" +:+ slice2 a.
Proof.
  unfold startsWith. intros H.
  destruct a as [| c1 [| c2 rest]]; cbn [String.prefix] in H;
    repeat match type of H with
           | context [ascii_dec ?x ?y] => destruct (ascii_dec x y) as [<- |]
           end;
    try discriminate H.
  reflexivity.
Qed.

(** An argument assigns only when it is one of the three switches. *)
Lemma argument_cases a value s :
  (a = "--dry-run" /\ argument a value s = assign "dry-run" value s)
  \/ (a = "--database" /\ argument a value s = assign "database" value s)
  \/ (a = "--chunks" /\ argument a value s = assign "chunks" value s)
  \/ (a <> "--dry-run" /\ a <> "--database" /\ a <> "--chunks" /\ argument a value s = s).
Proof.
  unfold argument. destruct (startsWith a "--") eqn:Hp.
  - apply switch_name in Hp. unfold assign.
    destruct (String.eqb (slice2 a) "dry-run") eqn:H1.
    { apply String.eqb_eq in H1. left. rewrite Hp, H1. split; reflexivity. }
    destruct (String.eqb (slice2 a) "database") eqn:H2.
    { apply String.eqb_eq in H2. right; left. rewrite Hp, H2. split; reflexivity. }
    destruct (String.eqb (slice2 a) "chunks") eqn:H3.
    { apply String.eqb_eq in H3. right; right; left. rewrite Hp, H3. split; reflexivity. }
    right; right; right.
    apply String.eqb_neq in H1, H2, H3.
    repeat split; try reflexivity; intros ->; cbn in H1, H2, H3; congruence.
  - right; right; right.
    repeat split; try reflexivity; intros ->; cbn in Hp; discriminate Hp.
Qed.

Lemma argument_keeps_dryRun a value s :
  a <> "--dry-run" -> dryRun_field (argument a value s) = dryRun_field s.
Proof.
  intros Ha.
  destruct (argument_cases a value s) as [[E _] | [[_ ->] | [[_ ->] | [_ [_ [_ ->]]]]]];
    [contradiction | reflexivity ..].
Qed.

Lemma argument_keeps_database a value s :
  a <> "--database" -> database_field (argument a value s) = database_field s.
Proof.
  intros Ha.
  destruct (argument_cases a value s) as [[_ ->] | [[E _] | [[_ ->] | [_ [_ [_ ->]]]]]];
    [reflexivity | contradiction | reflexivity ..].
Qed.

Lemma argument_keeps_initialChunks a value s :
  a <> "--chunks" -> initialChunks_field (argument a value s) = initialChunks_field s.
Proof.
  intros Ha.
  destruct (argument_cases a value s) as [[_ ->] | [[_ ->] | [[E _] | [_ [_ [_ ->]]]]]];
    [reflexivity | reflexivity | contradiction | reflexivity].
Qed.

(** A field keeps its value when its switch is at no even position. *)
Lemma parse_args_keeps {A} (field : Assigned -> A) (switch : string) :
  (forall a value s, a <> switch -> field (argument a value s) = field s) ->
  forall args s, ~ In switch (keys args) -> field (parse_args args s) = field s.
Proof.
  intros Hkeep args. induction args as [| a | a v rest IH] using pairs_ind; intros s Hnot.
  - reflexivity.
  - cbn [parse_args]. apply Hkeep. intros ->. apply Hnot. left. reflexivity.
  - cbn [parse_args]. rewrite IH.
    + apply Hkeep. intros ->. apply Hnot. left. reflexivity.
    + intros Hin. apply Hnot. right. exact Hin.
Qed.

(** The arguments are read in pairs, from left to right. *)
Lemma parse_args_app pre post :
  Nat.Even (length pre) ->
  forall s, parse_args (pre ++ post) s = parse_args post (parse_args pre s).
Proof.
  induction pre as [| a | a v rest IH] using pairs_ind; intros Heven s.
  - reflexivity.
  - destruct Heven as [n Hn]. cbn in Hn. lia.
  - cbn [app parse_args]. apply IH.
    destruct Heven as [n Hn]. cbn [length] in Hn. exists (n - 1)%nat. lia.
Qed.

Lemma configure_assigned_of c : configure c (assigned_of c) = Some c.
Proof. destruct c as [cs d cl [n sz b] [sk bg v dr]]. reflexivity. Qed.

End CommandLine.

Section Switches.

Variable parseInt : option string -> option Z.

Lemma parse_args_switch pre k v post s :
  Nat.Even (length pre) ->
  parse_args parseInt (pre ++ k :: v :: post) s
  = parse_args parseInt post (argument parseInt k (Some v) (parse_args parseInt pre s)).
Proof. intros Heven. rewrite (parse_args_app parseInt pre _ Heven). reflexivity. Qed.

Lemma parse_args_last pre k s :
  Nat.Even (length pre) ->
  parse_args parseInt (pre ++ [k]) s = argument parseInt k None (parse_args parseInt pre s).
Proof. intros Heven. rewrite (parse_args_app parseInt pre _ Heven). reflexivity. Qed.

Lemma configure_fields c s c' :
  configure c s = Some c' ->
  dryRun (options c') = dryRun_field s
  /\ database_field s = Some (database c')
  /\ initialChunks_field s = Some (initialChunks (sharding c'))
  /\ collections c' = collections c.
Proof.
  unfold configure.
  destruct (database_field s) as [d |]; [| discriminate].
  destruct (initialChunks_field s) as [n |]; [| discriminate].
  intros H. injection H as <-. repeat split; reflexivity.
Qed.

End Switches.

(** X11. The arguments are read in pairs from left to right, a switch at an
    even position with the argument after it as its value.  The last
    [--dry-run] sets [dryRun] to whether its value is the string [true],
    the last [--database] and [--chunks] assign their value and its
    [parseInt]; a field whose switch stands at no even position keeps its
    value, whatever the other arguments are; a switch that ends the
    arguments takes [undefined] as its value, so that [dryRun] becomes
    false and [database] undefined. *)
Theorem switches_are_read_in_pairs :
  forall (parseInt : option string -> option Z) (s : Assigned),
    (forall pre post,
        Nat.Even (length pre) ->
        parse_args parseInt (pre ++ post) s
        = parse_args parseInt post (parse_args parseInt pre s))
    /\ (forall pre v post,
           Nat.Even (length pre) ->
           (~ In "--dry-run" (keys post) ->
            dryRun_field (parse_args parseInt (pre ++ "--dry-run" :: v :: post) s)
            = String.eqb v "true")
           /\ (~ In "--database" (keys post) ->
               database_field (parse_args parseInt (pre ++ "--database" :: v :: post) s)
               = Some v)
           /\ (~ In "--chunks" (keys post) ->
               initialChunks_field (parse_args parseInt (pre ++ "--chunks" :: v :: post) s)
               = parseInt (Some v)))
    /\ (forall args,
           (~ In "--dry-run" (keys args) ->
            dryRun_field (parse_args parseInt args s) = dryRun_field s)
           /\ (~ In "--database" (keys args) ->
               database_field (parse_args parseInt args s) = database_field s)
           /\ (~ In "--chunks" (keys args) ->
               initialChunks_field (parse_args parseInt args s) = initialChunks_field s))
    /\ (forall pre,
           Nat.Even (length pre) ->
           dryRun_field (parse_args parseInt (pre ++ ["--dry-run"]) s) = false
           /\ database_field (parse_args parseInt (pre ++ ["--database"]) s) = None
           /\ initialChunks_field (parse_args parseInt (pre ++ ["--chunks"]) s)
              = parseInt None).
Proof.
  intros parseInt s. split; [| split; [| split]].
  - intros pre post Heven. apply parse_args_app. exact Heven.
  - intros pre v post Heven. split; [| split]; intros Hnot;
      rewrite (parse_args_switch parseInt pre _ v post s Heven).
    + rewrite (parse_args_keeps parseInt dryRun_field "--dry-run"
                                (argument_keeps_dryRun parseInt) post _ Hnot).
      reflexivity.
    + rewrite (parse_args_keeps parseInt database_field "--database"
                                (argument_keeps_database parseInt) post _ Hnot).
      reflexivity.
    + rewrite (parse_args_keeps parseInt initialChunks_field "--chunks"
                                (argument_keeps_initialChunks parseInt) post _ Hnot).
      reflexivity.
  - intros args. split; [| split]; intros Hnot.
    + exact (parse_args_keeps parseInt dryRun_field "--dry-run"
                              (argument_keeps_dryRun parseInt) args s Hnot).
    + exact (parse_args_keeps parseInt database_field "--database"
                              (argument_keeps_database parseInt) args s Hnot).
    + exact (parse_args_keeps parseInt initialChunks_field "--chunks"
                              (argument_keeps_initialChunks parseInt) args s Hnot).
  - intros pre Heven.
    rewrite !(parse_args_last parseInt pre _ s Heven). repeat split; reflexivity.
Qed.

(** [parseInt] on the plain decimal numerals of moderate size, for the
    examples below: the only strings it is applied to.  On other strings
    ([4.5], [12abc], [0x10], a leading sign or blank) [parseInt] returns
    the number of the longest numeric prefix, which this function does not
    model. *)
Definition parse_decimal (v : option string) : option Z :=
  match v with
  | Some s => option_map Z.of_int (NilZero.int_of_string s)
  | None => None
  end.

Lemma switches_are_read_in_pairs_witness :
  Nat.Even (length ["--chunks"; "4"])
  /\ ~ In "--dry-run" (keys ["true"; "--dry-run"; "x"])
  /\ dryRun_field (parse_args parse_decimal
                              (["--chunks"; "4"]
                                 ++ "--dry-run" :: "false" :: ["true"; "--dry-run"; "x"])
                              (assigned_of CONFIG))
     = false.
Proof.
  assert (Heven : Nat.Even (length ["--chunks"; "4"])) by (exists 1%nat; reflexivity).
  assert (Hnot : ~ In "--dry-run" (keys ["true"; "--dry-run"; "x"])).
  { cbn [keys In]. intros [H | [H | []]]; discriminate H. }
  split; [exact Heven | split; [exact Hnot |]].
  exact (proj1 (proj1 (proj2 (switches_are_read_in_pairs parse_decimal (assigned_of CONFIG)))
                      ["--chunks"; "4"] "false" ["true"; "--dry-run"; "x"] Heven)
               Hnot).
Defined.

(** X12. When the last [--dry-run] switch has the value [true], the run
    that [main] makes with the resulting configuration issues no mutating
    call, whatever the other arguments are and whatever the cluster
    answers.  With none of the three switches at an even position, [main]
    runs with the built-in configuration as it is. *)
Theorem dry_run_switch_makes_a_dry_run :
  forall (W : Type) (env : Env W) (parseInt : option string -> option Z) (base : Config),
    (forall pre post config st,
        Nat.Even (length pre) ->
        ~ In "--dry-run" (keys post) ->
        configured parseInt base (pre ++ "--dry-run" :: "true" :: post) = Some config ->
        dryRun (options config) = true
        /\ collections config = collections base
        /\ forall c, In c (calls_of (emitted (main env config st))) -> is_mutating c = false)
    /\ (forall args,
           ~ In "--dry-run" (keys args) ->
           ~ In "--database" (keys args) ->
           ~ In "--chunks" (keys args) ->
           configured parseInt base args = Some base).
Proof.
  intros W env parseInt base. split.
  - intros pre post config st Heven Hnot Hconf.
    destruct (configure_fields _ _ _ Hconf) as [Hdry [_ [_ Hcoll]]].
    rewrite (parse_args_switch parseInt pre _ "true" post _ Heven) in Hdry.
    rewrite (parse_args_keeps parseInt dryRun_field "--dry-run"
                              (argument_keeps_dryRun parseInt) post _ Hnot) in Hdry.
    change (dryRun (options config) = true) in Hdry.
    split; [exact Hdry | split; [exact Hcoll |]].
    apply not_mutating_calls.
    apply (quiet_main env unit (fun _ => tt) config Hdry st).
  - intros args H1 H2 H3. unfold configured, configure.
    rewrite (parse_args_keeps parseInt dryRun_field "--dry-run"
                              (argument_keeps_dryRun parseInt) args _ H1).
    rewrite (parse_args_keeps parseInt database_field "--database"
                              (argument_keeps_database parseInt) args _ H2).
    rewrite (parse_args_keeps parseInt initialChunks_field "--chunks"
                              (argument_keeps_initialChunks parseInt) args _ H3).
    apply configure_assigned_of.
Qed.

Lemma dry_run_switch_makes_a_dry_run_witness :
  exists config,
    configured parse_decimal one_collection ["--database"; "e"; "--dry-run"; "true"]
    = Some config
    /\ database config = "e"
    /\ forall c,
        In c (calls_of (emitted (main Mock.env config (Mock.start Mock.empty)))) ->
        is_mutating c = false.
Proof.
  eexists. split; [reflexivity |]. split; [reflexivity |].
  refine (proj2 (proj2 (proj1 (dry_run_switch_makes_a_dry_run
                                 _ Mock.env parse_decimal one_collection)
                              ["--database"; "e"] [] _ (Mock.start Mock.empty) _ _ _))).
  - exists 1%nat. reflexivity.
  - intros [].
  - reflexivity.
Defined.

(** ** What the comparison of serialized key patterns decides *)

From Stdlib Require DecimalZ DecimalPos.

Section Serialization.



(** Two strings with a common extension: one begins the other. *)
Fixpoint begins (a b : string) : bool :=
  match a, b with
  | EmptyString, _ => true
  | String x a', String y b' => Ascii.eqb x y && begins a' b'
  | String _ _, EmptyString => false
  end.


Lemma begins_nil a : begins "" a = true.
Proof. destruct a; reflexivity. Qed.




















End Serialization.

Section Objects.















End Objects.



(** ** What a benign error is *)

Section Includes.

Lemma prefix_append needle : forall s,
    String.prefix needle s = true <-> exists post, s = needle +:+ post.
Proof.
  induction needle as [| c needle IH]; intros s.
  - split; [intros _; exists s; reflexivity | intros _; destruct s; reflexivity].
  - destruct s as [| c' s]; cbn [String.prefix String.append].
    + split; [discriminate | intros [post H]; discriminate H].
    + destruct (ascii_dec c c') as [<- | Hne].
      * rewrite IH. split; intros [post H]; exists post.
        -- rewrite H. reflexivity.
        -- injection H as H. exact H.
      * split; [discriminate | intros [post H]; injection H as H _; congruence].
Qed.

Lemma includes_unfold s needle :
  includes s needle
  = if String.prefix needle s then true
    else match s with
         | EmptyString => false
         | String _ s' => includes s' needle
         end.
Proof. destruct s; reflexivity. Qed.

(** [s.includes(needle)]: [needle] occurs somewhere in [s]. *)
Lemma includes_substring s needle :
  includes s needle = true <-> exists pre post, s = pre +:+ needle +:+ post.
Proof.
  split.
  - induction s as [| c s IH]; rewrite includes_unfold;
      destruct (String.prefix needle _) eqn:Hp.
    + intros _. apply prefix_append in Hp. destruct Hp as [post Hp].
      exists "", post. exact Hp.
    + discriminate.
    + intros _. apply prefix_append in Hp. destruct Hp as [post Hp].
      exists "", post. exact Hp.
    + intros H. destruct (IH H) as [pre [post E]].
      exists (String c pre), post. rewrite E. reflexivity.
  - intros [pre [post E]]. subst s.
    induction pre as [| c pre IH]; rewrite includes_unfold.
    + cbn [String.append].
      rewrite (proj2 (prefix_append needle (needle +:+ post)) (ex_intro _ post eq_refl)).
      reflexivity.
    + destruct (String.prefix needle _); [reflexivity |].
      cbn [String.append]. exact IH.
Qed.

End Includes.

(** X14. In an actual run, an error of [sh.enableSharding] is swallowed
    exactly when the text [already enabled] occurs somewhere in its
    message, and an error of [sh.shardCollection] exactly when [already
    sharded] does; any other error of the two calls is thrown on as it
    is. *)
Theorem benign_errors_by_their_text :
  forall (W : Type) (env : Env W) (config : Config),
    dryRun (options config) = false ->
    (forall st e,
        fst (handle env (EnableSharding (database config)) (world st)) = inl e ->
        (value (enableDatabaseSharding env config st) = inr tt
         <-> exists pre post, message e = pre +:+ "already enabled" +:+ post)
        /\ (value (enableDatabaseSharding env config st) = inr tt
            \/ value (enableDatabaseSharding env config st) = inl e))
    /\ (forall c st e,
           fst (handle env (ShardCollection (fullNameOf config c) (shardKey c)) (world st))
           = inl e ->
           (value (enableCollectionSharding env config c st) = inr tt
            <-> exists pre post, message e = pre +:+ "already sharded" +:+ post)
           /\ (value (enableCollectionSharding env config c st) = inr tt
               \/ value (enableCollectionSharding env config c st) = inl e)).
Proof.
  intros W env config Hactual. split.
  - intros st e Hthrow.
    rewrite (enableDatabaseSharding_on_error env config Hactual st e Hthrow).
    rewrite <- includes_substring.
    destruct (includes (message e) "already enabled").
    + split; [split; reflexivity | left; reflexivity].
    + split; [split; discriminate | right; reflexivity].
  - intros c st e Hthrow.
    rewrite (enableCollectionSharding_on_error env config Hactual c st e Hthrow).
    rewrite <- includes_substring.
    destruct (includes (message e) "already sharded").
    + split; [split; reflexivity | left; reflexivity].
    + split; [split; discriminate | right; reflexivity].
Qed.

(** A cluster whose database has sharding enabled already. *)
Definition cluster_enabled : Mock.Cluster := {|
  Mock.currentDb := "d";
  Mock.collectionNames := [];
  Mock.indexDocs := [];
  Mock.shardedKeys := [];
  Mock.chunkCounts := [];
  Mock.faults := fun c => match c with
                          | EnableSharding _ => Some "sharding already enabled for database d"
                          | _ => None
                          end
|}.

Lemma benign_errors_by_their_text_witness :
  dryRun (options one_collection) = false
  /\ value (enableDatabaseSharding Mock.env one_collection (Mock.start cluster_enabled))
     = inr tt.
Proof.
  split; [reflexivity |].
  refine (proj2 (proj1 (proj1 (benign_errors_by_their_text _ Mock.env one_collection eq_refl)
                              (Mock.start cluster_enabled)
                              {| message := "sharding already enabled for database d" |}
                              eq_refl))
                _).
  exists "sharding ", " for database d". reflexivity.
Defined.
